(** * Retrieval pipeline of the Document RAG API

    A shallow embedding of the retrieval core of the backend:

    - [app/services/document_service.py]: ingestion ([process_document],
      [process_pdf], [process_docx], [process_txt]) and chunking
      ([create_chunks_with_metadata]);
    - [app/services/vector_store_service.py]: the Chroma-backed index
      ([get_vector_store], [add_documents_to_vectorstore],
      [query_vectorstore], [delete_document_from_vectorstore]);
    - [app/services/rag_service.py]: answering ([format_documents],
      [get_llm], [query_documents]);
    - [app/core/config.py]: the chunk settings.

    Python [str] values are embedded as [string]; a character is one
    [ascii], so texts range over Latin-1.  Python dictionaries used as
    metadata are [gmap string mvalue].  Functions that log, touch the global
    vector-store handle, call Chroma or the language model, or raise, live in
    the monad [M] over [World]. *)

From Stdlib Require Import ZArith Lia Ascii.
From stdpp Require Import base tactics option list sorting gmap strings pretty.

Local Open Scope Z_scope.

(** ** Python primitives *)

Module Py.

(** [len(s)] *)
Definition len (s : string) : Z := Z.of_nat (String.length s).

(** The newline character and the one-character string ["\n"]. *)
Definition nl_char : ascii := Ascii.ascii_of_nat 10.
Definition nl : string := String nl_char EmptyString.

(** [str.isspace] on one character: the white space of [str.strip()]
    within Latin-1 (TAB, LF, VT, FF, CR, FS, GS, RS, US, SPACE, NEL, NBSP). *)
Definition isspace (c : ascii) : bool :=
  let n := Ascii.nat_of_ascii c in
  ((9 <=? n) && (n <=? 13) || (28 <=? n) && (n <=? 32)
   || (n =? 133) || (n =? 160))%nat.

(** [s.lstrip()] *)
Fixpoint lstrip (s : string) : string :=
  match s with
  | EmptyString => EmptyString
  | String c r => if isspace c then lstrip r else s
  end.

(** [s.rstrip()] *)
Fixpoint rstrip (s : string) : string :=
  match s with
  | EmptyString => EmptyString
  | String c r =>
      match rstrip r with
      | EmptyString => if isspace c then EmptyString else String c EmptyString
      | r' => String c r'
      end
  end.

(** [s.strip()] *)
Definition strip (s : string) : string := rstrip (lstrip s).

(** Truth value of a [str]: non-empty. *)
Definition truthy_str (s : string) : bool :=
  match s with EmptyString => false | _ => true end.

(** [text.startswith(p)] *)
Definition startswith (p text : string) : bool := String.prefix p text.

(** [text.endswith(p)] *)
Definition endswith (text p : string) : bool :=
  String.prefix (String.rev p) (String.rev text).

(** [p in text] for strings: [p] occurs in [text]. *)
Fixpoint contains (p text : string) : bool :=
  startswith p text
  || match text with
     | EmptyString => false
     | String _ r => contains p r
     end.

(** [list(text)]: the one-character strings of [text]. *)
Fixpoint chars (text : string) : list string :=
  match text with
  | EmptyString => []
  | String c r => String c EmptyString :: chars r
  end.

(** [sep.join(parts)] *)
Definition join (sep : string) (parts : list string) : string :=
  String.concat sep parts.

(** [str(n)] for an [int]. *)
Definition str_int (n : Z) : string := pretty n.

End Py.

(** ** Exceptions and results *)

(** The exceptions ([Exception] subclasses) the pipeline can meet.
    [ExternalError what] stands for any exception raised inside a
    collaborator (Chroma, the embedding provider, the generation provider,
    the file readers); [RetryError] is tenacity's, raised when the attempts
    of a [@retry] are exhausted. *)
Inductive exn :=
| ValueError (message : string)
| UnicodeDecodeError
| IndexError
| RetryError
| ExternalError (what : string).

(** [str(e)].  The text of an exception raised inside a collaborator is the
    collaborator's ([what]).  The text of a [RetryError] names the future
    of its last attempt by the address of the object
    ([RetryError[<Future at 0x... state=finished raised ...>]]) and differs
    from run to run: it stands here abridged to the name of the class, and
    no statement below depends on it. *)
Definition str_exn (e : exn) : string :=
  match e with
  | ValueError m => m
  | UnicodeDecodeError => "codec can't decode"
  | IndexError => "list index out of range"
  | RetryError => "RetryError"
  | ExternalError what => what
  end.

Definition is_UnicodeDecodeError (e : exn) : bool :=
  match e with UnicodeDecodeError => true | _ => false end.

(** What evaluating a call yields: a value, or a raised exception. *)
Inductive result (A : Type) :=
| Ok (a : A)
| Raise (e : exn).
Arguments Ok {A} a.
Arguments Raise {A} e.

Definition rbind {A B} (r : result A) (k : A -> result B) : result B :=
  match r with
  | Ok a => k a
  | Raise e => Raise e
  end.

Notation "x <-? r ; k" := (rbind r (fun x => k))
  (at level 100, r at next level, right associativity).

(** ** Data model *)

(** A metadata value as Chroma stores it: a scalar.  The services only ever
    write strings; integers are kept because the formatting code tests
    truthiness and formats with an f-string, which are type dependent. *)
Inductive mvalue :=
| MStr (s : string)
| MInt (n : Z).

Global Instance mvalue_eq_dec : EqDecision mvalue.
Proof. solve_decision. Defined.

(** Truth value of a metadata value. *)
Definition truthy (v : mvalue) : bool :=
  match v with
  | MStr s => Py.truthy_str s
  | MInt n => negb (n =? 0)
  end.

(** Rendering of a metadata value inside an f-string. *)
Definition fmt (v : mvalue) : string :=
  match v with
  | MStr s => s
  | MInt n => Py.str_int n
  end.

(** The dictionary [{"text": ..., "metadata": ...}] built by the chunker. *)
Record Chunk := {
  text : string;
  chunk_metadata : gmap string mvalue
}.

(** [langchain_core.documents.Document] *)
Record Document := {
  page_content : string;
  metadata : gmap string mvalue
}.

(** One persisted entry of the Chroma collection. *)
Record IndexEntry := {
  entry_id : nat;
  entry_document : Document
}.

(** An element of the [sources] list returned by [query_documents]. *)
Record Source := {
  source_document : mvalue;
  source_page : option mvalue;
  source_text : string
}.

(** A Chroma [where] filter of the only shape the services build:
    [{key: {"$eq": value}}]. *)
Record Where := {
  where_key : string;
  where_eq : mvalue
}.

(** ** Logging *)

Inductive level := INFO | WARNING | ERROR.

Record LogRecord := {
  levelname : level;
  message : string
}.

(** ** Configuration ([app/core/config.py]) *)

Definition CHUNK_SIZE : Z := 1000.
Definition CHUNK_OVERLAP : Z := 200.

(** ** The collaborators

    Everything the pipeline reaches through a narrow interface and that is
    not code of the services: the configured API key, the geometry induced
    by the embedding provider (as a rank distance between a query and an
    entry text), the generation provider, the clock, and the file readers. *)

Inductive encoding := utf_8 | latin_1.

Record Env := {
  OPENAI_API_KEY : option string;
  distance : string -> string -> nat;
  generate : string -> string;
  today : string;
  utcnow_isoformat : string;
  (** [pypdf.PdfReader(path).pages], each with its [extract_text()] *)
  PdfReader : string -> result (list (result string));
  (** [docx.Document(path).paragraphs], each with its [text] *)
  docx_Document : string -> result (list string);
  (** [open(path, 'r', encoding=...).read()] *)
  read_text : string -> encoding -> result string
}.

(** ** The world the services run in *)

Record World := {
  (** the entries of the persisted Chroma collection *)
  collection : list IndexEntry;
  (** source of fresh entry ids *)
  next_id : nat;
  (** the module global [_vector_store] is not [None] *)
  _vector_store : bool;
  (** [get_embeddings] has a cached result ([@lru_cache]) *)
  embeddings_cached : bool;
  (** how the coming calls into a collaborator end: [true] is a raise *)
  faults : list bool;
  (** the records logged so far, oldest first *)
  log : list LogRecord;
  (** the prompts the generation provider was invoked with, oldest first *)
  llm_prompts : list string
}.

Definition with_collection (c : list IndexEntry) (n : nat) (w : World) : World :=
  {| collection := c; next_id := n; _vector_store := _vector_store w;
     embeddings_cached := embeddings_cached w; faults := faults w;
     log := log w; llm_prompts := llm_prompts w |}.

Definition with_vector_store (b : bool) (w : World) : World :=
  {| collection := collection w; next_id := next_id w; _vector_store := b;
     embeddings_cached := embeddings_cached w; faults := faults w;
     log := log w; llm_prompts := llm_prompts w |}.

Definition with_embeddings_cached (b : bool) (w : World) : World :=
  {| collection := collection w; next_id := next_id w;
     _vector_store := _vector_store w;
     embeddings_cached := b; faults := faults w;
     log := log w; llm_prompts := llm_prompts w |}.

Definition with_faults (f : list bool) (w : World) : World :=
  {| collection := collection w; next_id := next_id w;
     _vector_store := _vector_store w;
     embeddings_cached := embeddings_cached w; faults := f;
     log := log w; llm_prompts := llm_prompts w |}.

Definition with_log (l : list LogRecord) (w : World) : World :=
  {| collection := collection w; next_id := next_id w;
     _vector_store := _vector_store w;
     embeddings_cached := embeddings_cached w; faults := faults w;
     log := l; llm_prompts := llm_prompts w |}.

Definition with_llm_prompts (p : list string) (w : World) : World :=
  {| collection := collection w; next_id := next_id w;
     _vector_store := _vector_store w;
     embeddings_cached := embeddings_cached w; faults := faults w;
     log := log w; llm_prompts := p |}.

(** ** The monad of the services: state and exceptions *)

Definition M (A : Type) : Type := World -> result A * World.

Definition ret {A} (a : A) : M A := fun w => (Ok a, w).

Definition raise {A} (e : exn) : M A := fun w => (Raise e, w).

Definition bind {A B} (m : M A) (k : A -> M B) : M B :=
  fun w =>
    match m w with
    | (Ok a, w') => k a w'
    | (Raise e, w') => (Raise e, w')
    end.

Notation "x <- m ;; k" := (bind m (fun x => k))
  (at level 100, m at next level, right associativity).
Notation "m ;; k" := (bind m (fun _ => k))
  (at level 100, right associativity).

(** [try: body except Exception as e: handler(e)] *)
Definition try_except {A} (body : M A) (handler : exn -> M A) : M A :=
  fun w =>
    match body w with
    | (Ok a, w') => (Ok a, w')
    | (Raise e, w') => handler e w'
    end.

(** A pure computation that may raise, run inside [M]. *)
Definition lift {A} (r : result A) : M A := fun w => (r, w).

Definition logger (l : level) (m : string) : M unit :=
  fun w => (Ok tt, with_log (log w ++ [{| levelname := l; message := m |}]) w).

(** A call into a collaborator: it consumes the next scheduled outcome and
    raises when that outcome is a fault.  With no outcome scheduled the call
    succeeds. *)
Definition external (what : string) : M unit :=
  fun w =>
    match faults w with
    | [] => (Ok tt, w)
    | false :: rest => (Ok tt, with_faults rest w)
    | true :: rest => (Raise (ExternalError what), with_faults rest w)
    end.

(** tenacity's [@retry(stop=stop_after_attempt(n), wait=...)]: the body is
    attempted until it returns, at most [n] times; when the last attempt
    raises, [RetryError] is raised.  The waits between attempts take time
    only. *)
Fixpoint retry {A} (attempts : nat) (body : M A) : M A :=
  match attempts with
  | O => raise RetryError
  | S n => try_except body (fun _ => retry n body)
  end.

(** ** The text splitter *)

(** Modelled from the spec: [RecursiveCharacterTextSplitter] is the
    langchain class that [create_chunks_with_metadata] instantiates; its
    source is not part of the repository.  The model follows the Chunker
    algorithm of the specification (recursive splitting on separators of
    decreasing granularity: paragraph, line, word, character; chunks of at
    most [chunk_size] characters; each chunk after the first of a run
    overlapping the previous one by at most [chunk_overlap] characters;
    white-space-only pieces yield no chunk), written after the methods of
    the class ([split_text], [_split_text], [_merge_splits], [_join_docs])
    with its defaults [keep_separator=True] and [strip_whitespace=True]. *)
Module TextSplitter.

(** The default [separators] of the class. *)
Definition DEFAULT_SEPARATORS : list string :=
  [Py.nl +:+ Py.nl; Py.nl; " "; ""].

(** [re.split] on a literal separator: the pieces of [text] between the
    successive non-overlapping occurrences of [sep], scanned from the
    left.  [skip] counts the characters of the current occurrence still
    to pass; [cur] is the piece being read. *)
Fixpoint re_split_go (sep text : string) (skip : nat) (cur : string)
  : list string :=
  match text with
  | EmptyString => [cur]
  | String c r =>
      match skip with
      | S k => re_split_go sep r k cur
      | O =>
          if Py.startswith sep text
          then cur :: re_split_go sep r (String.length sep - 1) ""
          else re_split_go sep r 0 (cur +:+ String c "")
      end
  end.

Definition re_split (sep text : string) : list string :=
  re_split_go sep text 0 "".

(** [_split_text_with_regex(text, separator, keep_separator=True)]: each
    separator stays at the front of the piece that follows it; empty
    pieces are dropped. *)
Definition _split_text_with_regex (text separator : string) : list string :=
  let splits :=
    if Py.truthy_str separator
    then match re_split separator text with
         | [] => []
         | first :: others =>
             first :: ((fun piece => separator +:+ piece) <$> others)
         end
    else Py.chars text in
  filter (fun s => s ≠ "") splits.

Section Sized.

Variables (chunk_size chunk_overlap : Z).

(** [_join_docs]: [None] when nothing but white space is left. *)
Definition _join_docs (docs : list string) (separator : string)
  : option string :=
  let text := Py.strip (Py.join separator docs) in
  if decide (text = "") then None else Some text.

(** The [while] loop of [_merge_splits]: drop pieces from the front of
    [current_doc] until what is kept is no longer than the overlap and
    leaves room for the coming piece of length [_len].
    [current_doc[0]] on an empty list is an [IndexError]. *)
Fixpoint pop_front (separator_len _len total : Z)
  (current_doc : list string) {struct current_doc}
  : result (Z * list string) :=
  if (chunk_overlap <? total)
     || ((chunk_size <?
            total + _len
            + (if (0 <? length current_doc)%nat then separator_len else 0))
         && (0 <? total))
  then
    match current_doc with
    | [] => Raise IndexError
    | first :: rest =>
        pop_front separator_len _len
          (total - (Py.len first
                    + (if (1 <? length current_doc)%nat
                       then separator_len else 0)))
          rest
    end
  else Ok (total, current_doc).

(** The [for] loop of [_merge_splits] and what follows it. *)
Fixpoint merge_loop (separator : string) (splits : list string)
  (docs current_doc : list string) (total : Z) {struct splits}
  : result (list string) :=
  let separator_len := Py.len separator in
  match splits with
  | [] => Ok (docs ++ option_list (_join_docs current_doc separator))
  | d :: rest =>
      let _len := Py.len d in
      st <-? (if chunk_size <?
                   total + _len
                   + (if (0 <? length current_doc)%nat
                      then separator_len else 0)
              then
                if (0 <? length current_doc)%nat
                then
                  kept <-? pop_front separator_len _len total current_doc;
                  Ok (docs ++ option_list (_join_docs current_doc separator),
                      kept.2, kept.1)
                else Ok (docs, current_doc, total)
              else Ok (docs, current_doc, total));
      let current_doc' := st.1.2 ++ [d] in
      merge_loop separator rest st.1.1 current_doc'
        (st.2 + _len
         + (if (1 <? length current_doc')%nat then separator_len else 0))
  end.

(** [_merge_splits(splits, separator)] *)
Definition _merge_splits (splits : list string) (separator : string)
  : result (list string) :=
  merge_loop separator splits [] [] 0.

(** Flush of [_good_splits] into [final_chunks]. *)
Definition flush (_separator : string) (_good_splits final_chunks : list string)
  : result (list string) :=
  match _good_splits with
  | [] => Ok final_chunks
  | _ =>
      merged_text <-? _merge_splits _good_splits _separator;
      Ok (final_chunks ++ merged_text)
  end.

(** The [for s in splits] loop of [_split_text] and the final flush.
    [deeper] is the recursive call on the remaining separators, absent
    when [new_separators] is empty. *)
Fixpoint split_loop (deeper : option (string -> result (list string)))
  (_separator : string) (splits _good_splits final_chunks : list string)
  {struct splits} : result (list string) :=
  match splits with
  | [] => flush _separator _good_splits final_chunks
  | s :: rest =>
      if Py.len s <? chunk_size
      then split_loop deeper _separator rest (_good_splits ++ [s])
             final_chunks
      else
        flushed <-? flush _separator _good_splits final_chunks;
        extended <-? match deeper with
                     | None => Ok (flushed ++ [s])
                     | Some _split_text =>
                         other_info <-? _split_text s;
                         Ok (flushed ++ other_info)
                     end;
        split_loop deeper _separator rest [] extended
  end.

(** The body of [_split_text] once [separator] and [new_separators] are
    chosen; with [keep_separator] the merge joins with the empty
    string. *)
Definition split_with (deeper : option (string -> result (list string)))
  (separator text : string) : result (list string) :=
  split_loop deeper "" (_split_text_with_regex text separator) [] [].

(** [_split_text(text, separators)].  The first loop looks for the first
    separator that is empty or occurs in [text]; when none does, the
    last separator of the list is used and nothing remains to recurse
    on.  [last_separator] is [separators[-1]], the same at every depth. *)
Fixpoint _split_text (last_separator : string) (separators : list string)
  (text : string) {struct separators} : result (list string) :=
  match separators with
  | [] => split_with None last_separator text
  | _s :: new_separators =>
      if decide (_s = "")
      then split_with None "" text
      else if Py.contains _s text
      then split_with
             (match new_separators with
              | [] => None
              | _ => Some (_split_text last_separator new_separators)
              end)
             _s text
      else _split_text last_separator new_separators text
  end.

(** [split_text(text)] *)
Definition split_text (text : string) : result (list string) :=
  _split_text (List.last DEFAULT_SEPARATORS "") DEFAULT_SEPARATORS
    text.

End Sized.

End TextSplitter.

(** ** The Chroma collection

    What the services use of [langchain_chroma.Chroma]: [add_documents],
    [similarity_search], and [_collection.count], [_collection.get] and
    [_collection.delete].  Every operation is one call into the collaborator
    (it may raise) and is atomic: a call that raises leaves the collection as
    it was. *)
Module Chroma.

(** The documents matching a [where] filter. *)
Definition Matches (wh : Where) (d : Document) : Prop :=
  metadata d !! where_key wh = Some (where_eq wh).

Global Instance Matches_dec wh d : Decision (Matches wh d).
Proof. unfold Matches. apply _. Defined.

(** [a] is at least as near to the query as [b]. *)
Definition nearer (E : Env) (query : string) (a b : Document) : Prop :=
  (distance E query (page_content a) ≤ distance E query (page_content b))%nat.

Global Instance nearer_dec E query : RelDecision (nearer E query).
Proof. intros a b. unfold nearer. apply _. Defined.

(** Entries created for a batch of documents, with consecutive ids. *)
Fixpoint new_entries (first_id : nat) (documents : list Document)
  : list IndexEntry :=
  match documents with
  | [] => []
  | d :: rest =>
      {| entry_id := first_id; entry_document := d |}
      :: new_entries (S first_id) rest
  end.

(** [vector_store.add_documents(documents)] *)
Definition add_documents (documents : list Document) : M unit :=
  external "add_documents";;
  fun w =>
    (Ok tt,
     with_collection (collection w ++ new_entries (next_id w) documents)
       (next_id w + length documents)%nat w).

(** The [k] nearest documents among those matching the filter, nearest
    first. *)
Definition nearest (E : Env) (query : string) (k : Z)
  (where_filter : option Where) (documents : list Document)
  : list Document :=
  let candidates :=
    match where_filter with
    | Some wh => filter (Matches wh) documents
    | None => documents
    end in
  take (Z.to_nat k) (merge_sort (nearer E query) candidates).

(** [vector_store.similarity_search(query, k=k, filter=filter)].  A number
    of results that is not positive is rejected. *)
Definition similarity_search (E : Env) (query : string) (k : Z)
  (where_filter : option Where) : M (list Document) :=
  external "similarity_search";;
  if k <=? 0
  then raise (ValueError "Number of requested results cannot be negative, or zero.")
  else
    fun w =>
      (Ok (nearest E query k where_filter (entry_document <$> collection w)),
       w).

(** [vector_store._collection.count()] *)
Definition count : M Z :=
  external "count";;
  fun w => (Ok (Z.of_nat (length (collection w))), w).

(** [vector_store._collection.get(where=where_filter)["ids"]] *)
Definition get_ids (where_filter : Where) : M (list nat) :=
  external "get";;
  fun w =>
    (Ok (entry_id
         <$> filter (fun e => Matches where_filter (entry_document e))
               (collection w)), w).

(** [vector_store._collection.delete(ids=ids)] *)
Definition delete (ids : list nat) : M unit :=
  external "delete";;
  fun w =>
    (Ok tt,
     with_collection (filter (fun e => entry_id e ∉ ids) (collection w))
       (next_id w) w).

End Chroma.

(** The value returned by a function that declares no result type: the
    services return nothing there, that is, [None]. *)
Inductive pyvalue :=
| PyNone
| PyInt (n : Z).

(** Truth value of an [Optional[str]]. *)
Definition truthy_opt (o : option string) : bool :=
  match o with
  | Some s => Py.truthy_str s
  | None => false
  end.

(** ** [app/services/vector_store_service.py] *)

Definition EMBEDDING_MODEL : string := "all-MiniLM-L6-v2".

(** [get_embeddings], under [@lru_cache]: a result is computed once. *)
Definition get_embeddings (E : Env) : M unit :=
  fun w =>
    if embeddings_cached w then (Ok tt, w)
    else
      try_except
        ((if truthy_opt (OPENAI_API_KEY E)
          then external "OpenAIEmbeddings"
          else
            logger INFO ("Using HuggingFace embeddings model: " +:+ EMBEDDING_MODEL);;
            external "HuggingFaceEmbeddings");;
         fun w' => (Ok tt, with_embeddings_cached true w'))
        (fun e =>
           logger ERROR ("Error creating embeddings model: " +:+ str_exn e);;
           raise e)
        w.

(** The body of [get_vector_store]. *)
Definition get_vector_store_attempt (E : Env) : M unit :=
  fun w =>
    if _vector_store w then (Ok tt, w)
    else
      try_except
        (get_embeddings E;;
         external "Chroma";;
         (fun w' => (Ok tt, with_vector_store true w'));;
         logger INFO "Chroma vector store initialized")
        (fun e =>
           logger ERROR ("Vector store init failed: " +:+ str_exn e);;
           raise e)
        w.

(** [get_vector_store], under [@retry(stop=stop_after_attempt(3))].  The
    handle it returns is the one global object; a [Chroma] object is always
    truthy, so the [if not vector_store] tests of the callers never fire. *)
Definition get_vector_store (E : Env) : M unit :=
  retry 3 (get_vector_store_attempt E).

(** [Document(page_content=chunk["text"], metadata=chunk["metadata"])] *)
Definition to_document (chunk : Chunk) : Document :=
  {| page_content := text chunk; metadata := chunk_metadata chunk |}.

(** The body of [add_documents_to_vectorstore]. *)
Definition add_documents_to_vectorstore_attempt (E : Env) (chunks : list Chunk)
  : M pyvalue :=
  match chunks with
  | [] =>
      logger WARNING "No chunks provided to add to vector store";;
      ret PyNone
  | _ =>
      try_except
        (get_vector_store E;;
         let documents := to_document <$> chunks in
         Chroma.add_documents documents;;
         logger INFO ("Added " +:+ Py.str_int (Z.of_nat (length documents))
                      +:+ " chunks to vector store");;
         try_except
           (collection_size <- Chroma.count;;
            logger INFO ("Vector store now contains "
                         +:+ Py.str_int collection_size +:+ " documents"))
           (fun e =>
              logger WARNING ("Could not verify document count after adding: "
                              +:+ str_exn e));;
         ret PyNone)
        (fun e =>
           logger ERROR ("Error adding documents to vector store: " +:+ str_exn e);;
           raise e)
  end.

(** [add_documents_to_vectorstore], under [@retry(stop=stop_after_attempt(3))]. *)
Definition add_documents_to_vectorstore (E : Env) (chunks : list Chunk)
  : M pyvalue :=
  retry 3 (add_documents_to_vectorstore_attempt E chunks).

(** The body of [query_vectorstore]. *)
Definition query_vectorstore_attempt (E : Env) (query : string) (top_k : Z)
  (user_id : option string) : M (list Document) :=
  if negb (Py.truthy_str query) || negb (Py.truthy_str (Py.strip query))
  then
    logger WARNING "Empty query provided to vector store";;
    ret []
  else
    try_except
      (get_vector_store E;;
       try_except
         (logger INFO ("Using Chroma vector store for query: " +:+ query);;
          results <-
            (if truthy_opt user_id
             then
               let filter_dict :=
                 {| where_key := "user_id";
                    where_eq := MStr (default "" user_id) |} in
               Chroma.similarity_search E query top_k (Some filter_dict)
             else Chroma.similarity_search E query top_k None);;
          logger INFO ("Chroma query returned "
                       +:+ Py.str_int (Z.of_nat (length results)) +:+ " results");;
          ret results)
         (fun e =>
            logger ERROR ("Error querying Chroma vector store: " +:+ str_exn e);;
            ret []))
      (fun e =>
         logger ERROR ("Error querying vector store: " +:+ str_exn e);;
         ret []).

(** [query_vectorstore], under [@retry(stop=stop_after_attempt(3))]. *)
Definition query_vectorstore (E : Env) (query : string) (top_k : Z)
  (user_id : option string) : M (list Document) :=
  retry 3 (query_vectorstore_attempt E query top_k user_id).

(** The body of [delete_document_from_vectorstore]. *)
Definition delete_document_from_vectorstore_attempt (E : Env)
  (document_id : string) : M pyvalue :=
  if negb (Py.truthy_str document_id)
  then
    logger WARNING "No document_id provided for deletion";;
    ret PyNone
  else
    try_except
      (get_vector_store E;;
       try_except
         (let where_filter :=
            {| where_key := "document_id"; where_eq := MStr document_id |} in
          ids <- Chroma.get_ids where_filter;;
          if (0 <? length ids)%nat
          then
            Chroma.delete ids;;
            logger INFO ("Deleted " +:+ Py.str_int (Z.of_nat (length ids))
                         +:+ " chunks for document " +:+ document_id)
          else
            logger WARNING ("No chunks found for document " +:+ document_id))
         (fun e =>
            logger ERROR ("Error deleting from Chroma: " +:+ str_exn e);;
            raise e);;
       ret PyNone)
      (fun e =>
         logger ERROR ("Error deleting document from vector store: "
                       +:+ str_exn e);;
         raise e).

(** [delete_document_from_vectorstore], under
    [@retry(stop=stop_after_attempt(3))]. *)
Definition delete_document_from_vectorstore (E : Env) (document_id : string)
  : M pyvalue :=
  retry 3 (delete_document_from_vectorstore_attempt E document_id).

(** ** [app/services/rag_service.py] *)

(** The double quote, as a one-character string. *)
Definition dq : string := String (Ascii.ascii_of_nat 34) EmptyString.

(** The lines of [RAG_PROMPT_TEMPLATE] that precede the [{date}]
    placeholder.  The typographic apostrophes of the template stand here
    as their UTF-8 bytes. *)
Definition RAG_PROMPT_RULES : list string :=
  [ "";
    "As a knowledge-bound assistant, adhere strictly to these rules:";
    "";
    "Context-Only Responses";
    "";
    "Base answers exclusively on the provided context. Never rely on prior knowledge or assumptions.";
    "";
    "If the context is insufficient, explicitly state: " +:+ dq
      +:+ "I don’t have sufficient context to address this." +:+ dq;
    "";
    "Precision & Transparency";
    "";
    "Acknowledge ambiguities/conflicts in the context (e.g., " +:+ dq
      +:+ "The context suggests two possibilities..." +:+ dq +:+ ").";
    "";
    "For partial answers, specify limitations (e.g., " +:+ dq
      +:+ "The context only mentions X, but doesn’t cover Y" +:+ dq +:+ ").";
    "";
    "Anti-Hallucination Safeguards";
    "";
    "Never invent: names, dates, statistics, or domain-specific facts absent from the context.";
    "";
    "Reject speculative phrasing like " +:+ dq +:+ "probably," +:+ dq +:+ " "
      +:+ dq +:+ "likely," +:+ dq +:+ " or " +:+ dq +:+ "it’s possible that"
      +:+ dq +:+ " unless explicitly stated.";
    "";
    "Response Structure";
    "";
    "Prioritize clarity over brevity. Use bullet points or numbered lists for multi-part answers.";
    "";
    "Begin with a direct answer, followed by context-supported details.";
    "";
    "Edge Case Handling";
    "";
    "If the query is out of scope or nonsensical, respond: " +:+ dq
      +:+ "Could you clarify or provide additional context?" +:+ dq;
    "";
    "For ethically questionable requests, decline politely without elaboration.";
    "" ].

(** [RAG_PROMPT_TEMPLATE] formatted with its three input variables. *)
Definition format_prompt (context question date : string) : string :=
  Py.join Py.nl
    (RAG_PROMPT_RULES ++
     [ "For your reference, today's date is " +:+ date +:+ ".";
       "";
       "Context:";
       context;
       "";
       "Question: " +:+ question;
       "";
       "Answer (be detailed and include relevant source citations in parentheses):" ]).

(** The body of [get_llm]. *)
Definition get_llm_attempt (E : Env) : M unit :=
  if negb (truthy_opt (OPENAI_API_KEY E))
  then raise (ValueError "OpenAI API key is required for the RAG functionality")
  else external "ChatOpenAI".

(** [get_llm], under [@retry(stop=stop_after_attempt(2))]. *)
Definition get_llm (E : Env) : M unit :=
  retry 2 (get_llm_attempt E).

(** [(prompt | llm).invoke(...)]: one invocation of the generation provider
    with the formatted prompt; the text of the message it returns. *)
Definition invoke (E : Env) (prompt : string) : M string :=
  (fun w => (Ok tt, with_llm_prompts (llm_prompts w ++ [prompt]) w));;
  external "invoke";;
  ret (generate E prompt).

(** [doc.metadata.get('document', 'Unknown document')] *)
Definition document_name (doc : Document) : mvalue :=
  default (MStr "Unknown document") (metadata doc !! "document").

(** The citation of one document, as [format_documents] builds it. *)
Definition page_info (doc : Document) : string :=
  match metadata doc !! "page" with
  | Some page =>
      if truthy page then " (Page " +:+ fmt page +:+ ")" else ""
  | None => ""
  end.

Definition citation (doc : Document) : string :=
  fmt (document_name doc) +:+ page_info doc.

(** The [for i, doc in enumerate(docs)] loop of [format_documents]. *)
Fixpoint format_loop (i : nat) (docs : list Document)
  (formatted_docs : list string) : list string :=
  match docs with
  | [] => formatted_docs
  | doc :: rest =>
      format_loop (S i) rest
        (formatted_docs ++
         [ "Document " +:+ Py.str_int (Z.of_nat i + 1) +:+ " [" +:+ citation doc
           +:+ "]:" +:+ Py.nl +:+ page_content doc +:+ Py.nl ])
  end.

(** [format_documents] *)
Definition format_documents (docs : list Document) : string :=
  Py.join Py.nl (format_loop 0 docs []).

(** One element of [sources]. *)
Definition to_source (doc : Document) : Source :=
  {| source_document := document_name doc;
     source_page := metadata doc !! "page";
     source_text := page_content doc |}.

Definition NO_DOCUMENTS_ANSWER : string :=
  "No relevant documents found to answer your question.".

(** The body of [query_documents]. *)
Definition query_documents_attempt (E : Env) (query : string) (top_k : Z)
  (user_id : option string) : M (string * list Source) :=
  try_except
    (docs <- query_vectorstore E query top_k user_id;;
     match docs with
     | [] => ret (NO_DOCUMENTS_ANSWER, [])
     | _ =>
         let context := format_documents docs in
         let current_date := today E in
         get_llm E;;
         answer_text <- invoke E (format_prompt context query current_date);;
         let sources := to_source <$> docs in
         logger INFO ("Query successful: '" +:+ query +:+ "' - found "
                      +:+ Py.str_int (Z.of_nat (length docs))
                      +:+ " relevant documents");;
         ret (answer_text, sources)
     end)
    (fun e =>
       logger ERROR ("Error in RAG query: " +:+ str_exn e);;
       raise e).

(** [query_documents], under [@retry(stop=stop_after_attempt(2))]. *)
Definition query_documents (E : Env) (query : string) (top_k : Z)
  (user_id : option string) : M (string * list Source) :=
  retry 2 (query_documents_attempt E query top_k user_id).

(** ** [app/services/document_service.py] *)

(** The metadata dictionary of one chunk. *)
Definition chunk_metadata_of (E : Env) (page_num : option Z)
  (chunk document_id filename user_id : string) : gmap string mvalue :=
  let source :=
    match page_num with
    | Some n => filename +:+ " (page " +:+ Py.str_int n +:+ ")"
    | None => filename
    end in
  <["created_at" := MStr (utcnow_isoformat E)]>
  (<["source" := MStr source]>
  (<["user_id" := MStr user_id]>
  (<["text" := MStr chunk]>
  (<["page" := MStr (match page_num with
                     | Some n => Py.str_int n
                     | None => "0"
                     end)]>
  (<["document" := MStr filename]>
  (<["document_id" := MStr document_id]> ∅)))))).

(** The [for page_num, text in text_by_page] loop of
    [create_chunks_with_metadata]. *)
Fixpoint create_chunks_loop (E : Env) (text_by_page : list (option Z * string))
  (document_id filename user_id : string) (chunks_with_metadata : list Chunk)
  : result (list Chunk) :=
  match text_by_page with
  | [] => Ok chunks_with_metadata
  | (page_num, page_text) :: rest =>
      chunks <-? TextSplitter.split_text CHUNK_SIZE CHUNK_OVERLAP page_text;
      create_chunks_loop E rest document_id filename user_id
        (chunks_with_metadata ++
         ((fun chunk =>
             {| text := chunk;
                chunk_metadata :=
                  chunk_metadata_of E page_num chunk document_id filename
                    user_id |})
            <$> chunks))
  end.

(** [create_chunks_with_metadata] *)
Definition create_chunks_with_metadata (E : Env)
  (text_by_page : list (option Z * string))
  (document_id filename user_id : string) : result (list Chunk) :=
  create_chunks_loop E text_by_page document_id filename user_id [].

(** The [for i, page in enumerate(pdf_reader.pages)] loop of [process_pdf]. *)
Fixpoint pdf_pages_loop (i : nat) (pages : list (result string))
  (text_by_page : list (option Z * string))
  : result (list (option Z * string)) :=
  match pages with
  | [] => Ok text_by_page
  | page :: rest =>
      page_text <-? page;
      if Py.truthy_str (Py.strip page_text)
      then pdf_pages_loop (S i) rest
             (text_by_page ++ [(Some (Z.of_nat i + 1), page_text)])
      else pdf_pages_loop (S i) rest text_by_page
  end.

(** [process_pdf] *)
Definition process_pdf (E : Env) (file_path document_id filename user_id : string)
  : M (list Chunk) :=
  try_except
    (lift (pages <-? PdfReader E file_path;
           text_by_page <-? pdf_pages_loop 0 pages [];
           create_chunks_with_metadata E text_by_page document_id filename
             user_id))
    (fun e =>
       logger ERROR ("Error processing PDF " +:+ file_path +:+ ": " +:+ str_exn e);;
       ret []).

(** [process_docx] *)
Definition process_docx (E : Env) (file_path document_id filename user_id : string)
  : M (list Chunk) :=
  try_except
    (lift (paragraphs <-? docx_Document E file_path;
           let full_text :=
             filter (fun t => Py.truthy_str (Py.strip t) = true) paragraphs in
           let combined_text := Py.join Py.nl full_text in
           create_chunks_with_metadata E [(None, combined_text)] document_id
             filename user_id))
    (fun e =>
       logger ERROR ("Error processing DOCX " +:+ file_path +:+ ": " +:+ str_exn e);;
       ret []).

(** [process_txt]: UTF-8 first, Latin-1 when that fails to decode. *)
Definition process_txt (E : Env) (file_path document_id filename user_id : string)
  : M (list Chunk) :=
  try_except
    (content <-
       match read_text E file_path utf_8 with
       | Ok content => ret content
       | Raise e =>
           if is_UnicodeDecodeError e
           then
             content <- lift (read_text E file_path latin_1);;
             logger WARNING ("Used Latin-1 encoding for " +:+ filename
                             +:+ " as UTF-8 failed");;
             ret content
           else raise e
       end;;
     if negb (Py.truthy_str (Py.strip content))
     then
       logger WARNING ("No content found in text file: " +:+ filename);;
       ret []
     else
       lift (create_chunks_with_metadata E [(None, content)] document_id
               filename user_id))
    (fun e =>
       logger ERROR ("Error processing TXT " +:+ file_path +:+ ": " +:+ str_exn e);;
       ret []).

(** The second half of [process_document]: what is done with the chunks
    once the text is extracted. *)
Definition index_text_chunks (E : Env) (document_id : string)
  (text_chunks : list Chunk) : M unit :=
  match text_chunks with
  | [] =>
      logger WARNING ("No text chunks extracted from document "
                      +:+ document_id)
  | _ =>
      logger INFO ("Adding " +:+ Py.str_int (Z.of_nat (length text_chunks))
                   +:+ " chunks to vector store for document "
                   +:+ document_id);;
      try_except
        (add_documents_to_vectorstore E text_chunks;;
         logger INFO ("Document " +:+ document_id
                      +:+ " processed successfully"))
        (fun e =>
           logger ERROR ("Error adding document to vector store: "
                         +:+ str_exn e))
  end.

(** [process_document] *)
Definition process_document (E : Env)
  (file_path document_id filename user_id : string) : M unit :=
  logger INFO ("Processing document: " +:+ filename +:+ " (ID: " +:+ document_id
               +:+ ") for user: " +:+ user_id);;
  try_except
    (if Py.endswith file_path ".pdf"
     then text_chunks <- process_pdf E file_path document_id filename user_id;;
          index_text_chunks E document_id text_chunks
     else if Py.endswith file_path ".docx"
     then text_chunks <- process_docx E file_path document_id filename user_id;;
          index_text_chunks E document_id text_chunks
     else if Py.endswith file_path ".txt"
     then text_chunks <- process_txt E file_path document_id filename user_id;;
          index_text_chunks E document_id text_chunks
     else logger ERROR ("Unsupported file type: " +:+ file_path))
    (fun e =>
       logger ERROR ("Error processing document " +:+ document_id +:+ ": "
                     +:+ str_exn e)).

(** ** The context block, in the words of the specification *)

(** The sentinel the chunker writes as the page of a unit without label. *)
Definition PAGE_SENTINEL : string := "0".

(** The page of a retrieved chunk: the unit label its [page] field holds.
    The sentinel stands for a unit without label: such a chunk has no
    page. *)
Definition spec_page (doc : Document) : option string :=
  match metadata doc !! "page" with
  | Some page =>
      if decide (page = MStr PAGE_SENTINEL) then None else Some (fmt page)
  | None => None
  end.

(** The document of a retrieved chunk: the file name its [document] field
    holds. *)
Definition spec_document (doc : Document) : string :=
  default "" (fmt <$> metadata doc !! "document").

(** ["{document}{ (Page N) if present}"] *)
Definition spec_citation (document : string) (page : option string) : string :=
  match page with
  | Some n => document +:+ " (Page " +:+ n +:+ ")"
  | None => document
  end.

(** The block of the chunk with 1-based index [index]: the chunk text
    prefixed by the index and the bracketed citation. *)
Definition spec_block (index : nat) (doc : Document) : string :=
  "Document " +:+ Py.str_int (Z.of_nat index) +:+ " ["
  +:+ spec_citation (spec_document doc) (spec_page doc)
  +:+ "]:" +:+ Py.nl +:+ page_content doc +:+ Py.nl.

(** The context: the blocks of the chunks, joined by newlines. *)
Definition spec_context (docs : list Document) : string :=
  Py.join Py.nl (imap (fun i doc => spec_block (S i) doc) docs).

(** The chunk names its document, and its page, if it has the field, is a
    label: a non-empty string other than the sentinel. *)
Definition labelled (doc : Document) : Prop :=
  is_Some (metadata doc !! "document") ∧
  (metadata doc !! "page" = None ∨
   ∃ label, metadata doc !! "page" = Some (MStr label) ∧
            label ≠ "" ∧ label ≠ PAGE_SENTINEL).

(** ** Predicates on the world *)

(** [hoare P m Q]: run from a world satisfying [P], [m] ends with a result
    and in a world related by [Q]. *)
Definition hoare {A} (P : World -> Prop) (m : M A)
  (Q : result A -> World -> Prop) : Prop :=
  ∀ w, P w → Q (m w).1 (m w).2.

(** Properties of the world that logging, the passing of scheduled
    outcomes and the caches of the handles do not disturb. *)
Class Stable (P : World -> Prop) := {
  stable_log : ∀ w l, P w → P (with_log l w);
  stable_faults : ∀ w f, P w → P (with_faults f w);
  stable_vector_store : ∀ w b, P w → P (with_vector_store b w);
  stable_embeddings : ∀ w b, P w → P (with_embeddings_cached b w)
}.

(** The index and the prompts seen by the generation provider are fixed. *)
Definition index_is (c : list IndexEntry) (n : nat) (p : list string)
  (w : World) : Prop :=
  collection w = c ∧ next_id w = n ∧ llm_prompts w = p.

(** ** Owner scoping, in the words of the specification *)

(** The filter a query scoped to [user_id] runs under: equality on the
    [user_id] metadata key when an owner is supplied, none otherwise. *)
Definition owner_filter (user_id : option string) : option Where :=
  if truthy_opt user_id
  then Some {| where_key := "user_id"; where_eq := MStr (default "" user_id) |}
  else None.

(** The entry belongs to [user_id]. *)
Definition owned_by (user_id : string) (doc : Document) : Prop :=
  metadata doc !! "user_id" = Some (MStr user_id).

(** The sources of an answer are made from retrieved entries of the owner. *)
Definition sourced_from (c : list IndexEntry) (user_id : string)
  (sources : list Source) : Prop :=
  ∀ s, s ∈ sources →
    ∃ d, d ∈ entry_document <$> c ∧ owned_by user_id d ∧ s = to_source d.

(** The query text is not blank. *)
Definition nonblank (query : string) : Prop :=
  Py.truthy_str query = true ∧ Py.truthy_str (Py.strip query) = true.

(** The entry was made from document [document_id]. *)
Definition about_document (document_id : string) (e : IndexEntry) : Prop :=
  metadata (entry_document e) !! "document_id" = Some (MStr document_id).

Global Instance about_document_dec document_id e :
  Decision (about_document document_id e).
Proof. unfold about_document. apply _. Defined.

(** The representation invariant of the index: entry ids are unique and
    below the next fresh id. *)
Definition wf_index (w : World) : Prop :=
  NoDup (entry_id <$> collection w) ∧
  ∀ e, e ∈ collection w → (entry_id e < next_id w)%nat.

(** The record [delete_document_from_vectorstore] logs last when it
    returns after having found [count] entries of the document. *)
Definition deletion_record (document_id : string) (count : nat) : LogRecord :=
  if (0 <? count)%nat
  then {| levelname := INFO;
          message := "Deleted " +:+ Py.str_int (Z.of_nat count)
                     +:+ " chunks for document " +:+ document_id |}
  else {| levelname := WARNING;
          message := "No chunks found for document " +:+ document_id |}.

(** The last record of the log has level [l]. *)
Definition last_level (l : level) (w : World) : Prop :=
  ∃ rec, last (log w) = Some rec ∧ levelname rec = l.

(** How ingestion started on the index [c], [n] may end: nothing indexed
    and a warning or an error logged last, or one batch of chunks added
    under fresh ids and a success logged last. *)
Definition ingested (c : list IndexEntry) (n : nat) (p : list string)
  (w : World) : Prop :=
  (index_is c n p w ∧ (last_level WARNING w ∨ last_level ERROR w)) ∨
  ∃ chunks, chunks ≠ [] ∧
    index_is (c ++ Chroma.new_entries n (to_document <$> chunks))
      (n + length chunks)%nat p w ∧
    last_level INFO w.

(** The [page] field of the chunk is the label of one of the units, as a
    string, or the sentinel for a unit without label. *)
Definition page_from (units : list (option Z * string)) (c : Chunk) : Prop :=
  ∃ page_num page_text,
    (page_num, page_text) ∈ units ∧
    chunk_metadata c !! "page"
    = Some (MStr (match page_num with
                  | Some n => Py.str_int n
                  | None => "0"
                  end)).

(** ** The chunk windows, in the words of the specification *)

(** The concatenation of a list of strings. *)
Definition concat_str (parts : list string) : string :=
  foldr String.append "" parts.

(** The summed length of a list of strings. *)
Definition total_len (parts : list string) : Z :=
  foldr (fun s acc => Py.len s + acc) 0 parts.

(** [s] without its first [n] characters. *)
Fixpoint string_drop (n : nat) (s : string) : string :=
  match n, s with
  | O, _ => s
  | S k, String _ r => string_drop k r
  | S _, EmptyString => EmptyString
  end.

(** [o] is what [prev] ends with. *)
Definition suffix_of (o prev : string) : Prop :=
  ∃ before, prev = before +:+ o.

(** A window over the unit text: the overlap region it shares with the
    window before it, and its non-overlap region. *)
Definition Window : Type := string * string.

Definition window_text (win : Window) : string := win.1 +:+ win.2.

(** The chunk a window gives: its text without the white space at its two
    ends; no chunk when nothing else is left. *)
Definition chunk_of_window (win : Window) : option string :=
  let stripped := Py.strip (window_text win) in
  if decide (stripped = "") then None else Some stripped.

Definition chunks_of (windows : list Window) : list string :=
  omap chunk_of_window windows.

(** The non-overlap regions, concatenated. *)
Definition fresh_text (windows : list Window) : string :=
  concat_str (snd <$> windows).

(** Each window overlaps the one before it (whose text is [prev] for the
    first) by an end of its text, of at most [overlap] characters. *)
Fixpoint chained (overlap : Z) (prev : string) (windows : list Window) : Prop :=
  match windows with
  | [] => True
  | win :: rest =>
      suffix_of win.1 prev ∧ Py.len win.1 <= overlap ∧
      chained overlap (window_text win) rest
  end.

(** The window has at most [size] characters. *)
Definition fits (size : Z) (win : Window) : Prop :=
  Py.len (window_text win) <= size.

(** The round trip of a unit text through the chunker: the chunks are
    those of a sequence of windows of at most [size] characters, chained by
    overlaps of at most [overlap] characters, whose non-overlap regions
    concatenate to the text. *)
Definition round_trip (size overlap : Z) (unit_text : string)
  (chunks : list string) : Prop :=
  ∃ windows : list Window,
    chunks = chunks_of windows ∧
    fresh_text windows = unit_text ∧
    chained overlap "" windows ∧
    Forall (fits size) windows.

(** What a call [f] into the splitter is to yield on the text [s]. *)
Definition splits_well (size overlap : Z) (f : string -> result (list string))
  (s : string) : Prop :=
  ∃ windows,
    f s = Ok (chunks_of windows) ∧
    fresh_text windows = s ∧
    chained overlap "" windows ∧
    Forall (fits size) windows.

(** The chunk was made by the chunker from one of the units, for the given
    document and owner: its metadata is the dictionary built for its text. *)
Definition made_from (E : Env) (units : list (option Z * string))
  (document_id filename user_id : string) (c : Chunk) : Prop :=
  ∃ page_num page_text,
    (page_num, page_text) ∈ units ∧
    chunk_metadata c
    = chunk_metadata_of E page_num (text c) document_id filename user_id.

(** The chunk belongs to the document and the owner. *)
Definition tagged (document_id filename user_id : string) (c : Chunk) : Prop :=
  chunk_metadata c !! "document_id" = Some (MStr document_id) ∧
  chunk_metadata c !! "document" = Some (MStr filename) ∧
  chunk_metadata c !! "user_id" = Some (MStr user_id).

(** The text [open(path).read()] of [process_txt] ends up with: UTF-8, or
    Latin-1 when UTF-8 does not decode. *)
Definition decoded_text (E : Env) (file_path : string) : result string :=
  match read_text E file_path utf_8 with
  | Ok content => Ok content
  | Raise e =>
      if is_UnicodeDecodeError e then read_text E file_path latin_1
      else Raise e
  end.

(** The documents retrieval can return for a query on the index [c]. *)
Definition retrieved (E : Env) (query : string) (top_k : Z)
  (user_id : option string) (c : list IndexEntry) (docs : list Document)
  : Prop :=
  docs = [] ∨
  docs = Chroma.nearest E query top_k (owner_filter user_id)
           (entry_document <$> c).

(** The index [c], [n] after a batch of chunks of the document was added
    to it; the batch is empty when nothing was indexed. *)
Definition grown_by (document_id filename user_id : string)
  (c : list IndexEntry) (n : nat) (p : list string) (w : World) : Prop :=
  ∃ chunks,
    (∀ ch, ch ∈ chunks → tagged document_id filename user_id ch) ∧
    index_is (c ++ Chroma.new_entries n (to_document <$> chunks))
      (n + length chunks)%nat p w.

(** ** The documents directory *)

(** [settings.DOCUMENTS_DIRECTORY] *)
Definition DOCUMENTS_DIRECTORY : string := "./data/documents".

(** A regular file of the documents directory, with what [os.stat] tells
    about it. *)
Record StoredFile := {
  file_name : string;
  file_size : Z;
  file_mtime : Z
}.

(** [s.split(sep, 1)] for a one-character separator: the text before the
    first separator and the text after it, or the whole text alone. *)
Fixpoint split_once (sep : ascii) (s : string) : list string :=
  match s with
  | EmptyString => [EmptyString]
  | String c r =>
      if Ascii.eqb c sep then [EmptyString; r]
      else
        match split_once sep r with
        | head :: rest => String c head :: rest
        | [] => [String c EmptyString]
        end
  end.

(** The calls into [os] and [os.path].  The state they work on is the list
    of the files of the documents directory, in the order [os.listdir]
    yields them; each call is a call into a collaborator and fails when
    the schedule of the world says so. *)
Module Os.

(** [os.path.join(a, b)] *)
Definition path_join (a b : string) : string :=
  if Py.startswith "/" b then b
  else if negb (Py.truthy_str a) || Py.endswith a "/" then a +:+ b
  else a +:+ "/" +:+ b.

(** The path of a file of the documents directory. *)
Definition path_of (f : StoredFile) : string :=
  path_join DOCUMENTS_DIRECTORY (file_name f).

(** The file at a path, if there is one. *)
Definition stat (file_path : string) (files : list StoredFile)
  : option StoredFile :=
  List.find (fun f => String.eqb (path_of f) file_path) files.

(** [os.listdir(settings.DOCUMENTS_DIRECTORY)] *)
Definition listdir (files : list StoredFile) : M (list string) :=
  external "listdir";;
  ret (file_name <$> files).

(** [os.remove(file_path)] *)
Definition remove (file_path : string) (files : list StoredFile)
  : M (list StoredFile) :=
  external "remove";;
  match stat file_path files with
  | Some _ => ret (filter (fun f => path_of f ≠ file_path) files)
  | None => raise (ExternalError "No such file or directory")
  end.

(** [os.path.getmtime(file_path)] *)
Definition path_getmtime (file_path : string) (files : list StoredFile) : M Z :=
  external "getmtime";;
  match stat file_path files with
  | Some f => ret (file_mtime f)
  | None => raise (ExternalError "No such file or directory")
  end.

(** [os.path.getsize(file_path)] *)
Definition path_getsize (file_path : string) (files : list StoredFile) : M Z :=
  external "getsize";;
  match stat file_path files with
  | Some f => ret (file_size f)
  | None => raise (ExternalError "No such file or directory")
  end.

End Os.

(** What the platform decides of [datetime.fromtimestamp]: the exception it
    raises on a time stamp it does not convert (one outside the range of
    the platform's [time_t], or of the years 1 to 9999 in local time), if
    any. *)
Record Platform := {
  fromtimestamp_error : Z -> option exn
}.

(** [datetime.fromtimestamp(t)]; a date is kept as its time stamp. *)
Definition datetime_fromtimestamp (platform : Platform) (t : Z) : result Z :=
  match fromtimestamp_error platform t with
  | Some e => Raise e
  | None => Ok t
  end.

(** [app.schemas.document.DocumentResponse]; the date [created_at] is kept
    as its time stamp. *)
Record DocumentResponse := {
  response_id : string;
  response_filename : string;
  response_content_type : string;
  response_size : Z;
  response_created_at : option Z
}.

Definition underscore : ascii := Ascii.ascii_of_nat 95.

(** The content type [list_documents] derives from a file name. *)
Definition content_type_of (original_filename : string) : string :=
  if Py.endswith original_filename ".pdf" then "application/pdf"
  else if Py.endswith original_filename ".docx"
  then "application/vnd.openxmlformats-officedocument.wordprocessingml.document"
  else "text/plain".

(** The [for filename in os.listdir(...)] loop of [list_documents].  The
    inner [except] catches what reading the modification time, converting
    it to a date and reading the size raise: the file is then left out.
    The outer [except] of the loop body has nothing to catch: splitting and
    comparing strings do not raise. *)
Fixpoint list_documents_loop (platform : Platform) (filenames : list string)
  (files : list StoredFile) (documents : list DocumentResponse)
  : M (list DocumentResponse) :=
  match filenames with
  | [] => ret documents
  | filename :: rest =>
      if Py.endswith filename ".pdf" || Py.endswith filename ".docx"
         || Py.endswith filename ".txt"
      then
        let file_path := Os.path_join DOCUMENTS_DIRECTORY filename in
        match split_once underscore filename with
        | document_id :: original_filename :: _ =>
            documents' <-
              try_except
                (mtime <- Os.path_getmtime file_path files;;
                 created_at <- lift (datetime_fromtimestamp platform mtime);;
                 size <- Os.path_getsize file_path files;;
                 ret (documents ++
                      [{| response_id := document_id;
                          response_filename := original_filename;
                          response_content_type :=
                            content_type_of original_filename;
                          response_size := size;
                          response_created_at := Some created_at |}]))
                (fun e =>
                   logger ERROR ("Error getting document info: "
                                 +:+ str_exn e);;
                   ret documents);;
            list_documents_loop platform rest files documents'
        | _ =>
            logger WARNING ("Skipping file with invalid format: "
                            +:+ filename);;
            list_documents_loop platform rest files documents
        end
      else list_documents_loop platform rest files documents
  end.

(** [list_documents] *)
Definition list_documents (platform : Platform) (user_id : string)
  (files : list StoredFile) : M (list DocumentResponse) :=
  filenames <- Os.listdir files;;
  list_documents_loop platform filenames files [].

(** How the loop of [delete_document] is left: at its end or by [break],
    with the value of [found], or by [return]. *)
Inductive loop_exit :=
| Fallthrough (found : bool)
| Returned (value : bool).

(** The [for filename in os.listdir(document_dir)] loop of
    [delete_document]. *)
Fixpoint delete_document_loop (document_id : string) (filenames : list string)
  (files : list StoredFile) : M (loop_exit * list StoredFile) :=
  match filenames with
  | [] => ret (Fallthrough false, files)
  | filename :: rest =>
      if Py.startswith (document_id +:+ "_") filename
      then
        let file_path := Os.path_join DOCUMENTS_DIRECTORY filename in
        try_except
          (files' <- Os.remove file_path files;;
           logger INFO ("Deleted document file: " +:+ file_path);;
           ret (Fallthrough true, files'))
          (fun e =>
             logger ERROR ("Error deleting document file: " +:+ str_exn e);;
             ret (Returned false, files))
      else delete_document_loop document_id rest files
  end.

(** [delete_document] of the document service: the value returned and the
    files left. *)
Definition delete_document (E : Env) (document_id user_id : string)
  (files : list StoredFile) : M (bool * list StoredFile) :=
  exit <-
    try_except
      (filenames <- Os.listdir files;;
       delete_document_loop document_id filenames files)
      (fun e =>
         logger ERROR ("Error listing documents directory: " +:+ str_exn e);;
         ret (Returned false, files));;
  match exit with
  | (Returned value, files') => ret (value, files')
  | (Fallthrough found, files') =>
      if negb found
      then
        logger WARNING ("Document not found: " +:+ document_id);;
        ret (false, files')
      else
        try_except
          (delete_document_from_vectorstore E document_id;; ret tt)
          (fun e =>
             logger ERROR ("Error removing document from vector store: "
                           +:+ str_exn e));;
        ret (true, files')
  end.

(** The first name, in the order of the listing, that starts with the id
    followed by an underscore. *)
Definition first_match (document_id : string) (files : list StoredFile)
  : option string :=
  List.find (fun name => Py.startswith (document_id +:+ "_") name)
    (file_name <$> files).

(** The name has one of the extensions [list_documents] looks at. *)
Definition supported_name (name : string) : bool :=
  Py.endswith name ".pdf" || Py.endswith name ".docx"
  || Py.endswith name ".txt".

(** The response [list_documents] makes for a stored file whose name is the
    id, an underscore and the original name. *)
Definition response_of (document_id original_filename : string)
  (f : StoredFile) : DocumentResponse :=
  {| response_id := document_id;
     response_filename := original_filename;
     response_content_type := content_type_of original_filename;
     response_size := file_size f;
     response_created_at := Some (file_mtime f) |}.

(** The response describes a file of the directory: the name of the file is
    the id of the response, which contains no underscore, an underscore and
    the file name of the response. *)
Definition listed_from (files : list StoredFile) (d : DocumentResponse) : Prop :=
  ∃ f, f ∈ files ∧
    file_name f = response_id d +:+ "_" +:+ response_filename d ∧
    Py.contains "_" (response_id d) = false ∧
    supported_name (file_name f) = true ∧
    d = response_of (response_id d) (response_filename d) f.

(** ** The status of the vector store *)

(** [settings.DATA_DIR] *)
Definition DATA_DIR : string := "./data".

Definition CHROMA_PERSIST_DIRECTORY : string := Os.path_join DATA_DIR "chroma".

(** [get_vector_store_status] *)
Definition get_vector_store_status (E : Env) : M (gmap string mvalue) :=
  try_except
    (get_vector_store E;;
     count <- Chroma.count;;
     ret (<["status" := MStr "ok"]>
          (<["document_count" := MInt count]>
          (<["persist_directory" := MStr CHROMA_PERSIST_DIRECTORY]>
          (<["embedding_model" := MStr EMBEDDING_MODEL]> ∅)))))
    (fun e =>
       logger ERROR ("Error getting vector store status: " +:+ str_exn e);;
       ret (<["status" := MStr "error"]>
            (<["error" := MStr (str_exn e)]> ∅))).

(** ** [app/services/scraping_service.py] *)

(** The crawl of [WebScraper.start_scraping]. *)
Module WebScraper.

(** What the crawl reads of a parsed page ([BeautifulSoup]): [soup.title],
    and in it [.string], either of which may be [None]; and what
    [_extract_text] makes of the page. *)
Record Soup := {
  soup_title : option (option string);
  extract_text : result string
}.

(** The web as the crawl meets it: for a URL, what the [try] block of
    [_scrape_page] yields, the parsed page with the links [_extract_links]
    finds in it, or the exception raised on the way; and the time the crawl
    takes, as the last log record renders it. *)
Record Web := {
  fetch : string -> result (Soup * list string);
  total_time_2f : string
}.

(** An element of [self.content]. *)
Record Page := {
  url : string;
  title : option string;
  text : string;
  scraped_at : string
}.

(** The fields of a [WebScraper] the crawl works on ([base_domain] is read
    by [_extract_links] and [save_to_document] only). *)
Record t := {
  base_url : string;
  max_pages : Z;
  max_depth : Z;
  visited_urls : gset string;
  pages_scraped : Z;
  pages_queue : list (string * Z);
  content : list Page
}.

(** [WebScraper(base_url, max_pages, max_depth)] *)
Definition __init__ (base_url : string) (max_pages max_depth : Z) : t :=
  {| base_url := base_url; max_pages := max_pages; max_depth := max_depth;
     visited_urls := ∅; pages_scraped := 0; pages_queue := []; content := [] |}.

Definition with_pages_queue (q : list (string * Z)) (self : t) : t :=
  {| base_url := base_url self; max_pages := max_pages self;
     max_depth := max_depth self; visited_urls := visited_urls self;
     pages_scraped := pages_scraped self; pages_queue := q;
     content := content self |}.

Definition with_visited_urls (v : gset string) (self : t) : t :=
  {| base_url := base_url self; max_pages := max_pages self;
     max_depth := max_depth self; visited_urls := v;
     pages_scraped := pages_scraped self; pages_queue := pages_queue self;
     content := content self |}.

Definition with_pages_scraped (n : Z) (self : t) : t :=
  {| base_url := base_url self; max_pages := max_pages self;
     max_depth := max_depth self; visited_urls := visited_urls self;
     pages_scraped := n; pages_queue := pages_queue self;
     content := content self |}.

Definition with_content (c : list Page) (self : t) : t :=
  {| base_url := base_url self; max_pages := max_pages self;
     max_depth := max_depth self; visited_urls := visited_urls self;
     pages_scraped := pages_scraped self; pages_queue := pages_queue self;
     content := c |}.

(** [_scrape_page]: the page and its links, or [None] and no link after
    any failure.  The pause before the request takes time only. *)
Definition _scrape_page (web : Web) (url : string)
  : M (option Soup * list string) :=
  try_except
    (page <- lift (fetch web url);;
     ret (Some page.1, page.2))
    (fun e =>
       logger ERROR ("Error fetching " +:+ url +:+ ": " +:+ str_exn e);;
       ret (None, [])).

(** The [for link in links] loop: the links not yet visited are queued one
    level deeper. *)
Definition queue_links (links : list string) (current_depth : Z) (self : t)
  : t :=
  with_pages_queue
    (pages_queue self
     ++ ((fun link => (link, current_depth + 1))
         <$> filter (fun link => link ∉ visited_urls self) links))
    self.

(** The [try] statement of the loop body, for a URL just marked as
    visited.  An exception can come from the extraction of the text only:
    it is caught after the page was counted and before it is kept. *)
Definition scrape (E : Env) (web : Web) (current_url : string)
  (current_depth : Z) (self : t) : M t :=
  found <- _scrape_page web current_url;;
  match found with
  | (Some soup, links) =>
      let self := with_pages_scraped (pages_scraped self + 1) self in
      logger INFO ("Scraped page " +:+ Py.str_int (pages_scraped self) +:+ ": "
                   +:+ current_url);;
      let title :=
        match soup_title soup with
        | Some title_string => title_string
        | None => Some "No title"
        end in
      match extract_text soup with
      | Ok text =>
          let self :=
            with_content
              (content self
               ++ [{| url := current_url; title := title; text := text;
                      scraped_at := utcnow_isoformat E |}])
              self in
          ret (if current_depth <? max_depth self
               then queue_links links current_depth self
               else self)
      | Raise e =>
          logger ERROR ("Error scraping " +:+ current_url +:+ ": "
                        +:+ str_exn e);;
          ret self
      end
  | (None, _) => ret self
  end.

(** The [while self.pages_queue and self.pages_scraped < self.max_pages]
    loop, run for at most [fuel] iterations: [None] when they do not
    suffice. *)
Fixpoint crawl (fuel : nat) (E : Env) (web : Web) (self : t) : M (option t) :=
  match pages_queue self with
  | [] => ret (Some self)
  | (current_url, current_depth) :: rest =>
      if pages_scraped self <? max_pages self
      then
        match fuel with
        | O => ret None
        | S fuel =>
            let self := with_pages_queue rest self in
            if decide (current_url ∈ visited_urls self)
            then crawl fuel E web self
            else
              self <- scrape E web current_url current_depth
                        (with_visited_urls ({[current_url]} ∪ visited_urls self)
                           self);;
              crawl fuel E web self
        end
      else ret (Some self)
  end.

(** [start_scraping]: the scraper as the crawl leaves it; of the dictionary
    returned, [pages_scraped] and [base_url] are fields of it, and
    [time_taken] is the duration of the crawl. *)
Definition start_scraping (fuel : nat) (E : Env) (web : Web) (self : t)
  : M (option t) :=
  logger INFO ("Starting to scrape website: " +:+ base_url self);;
  crawled <-
    crawl fuel E web
      (with_pages_queue (pages_queue self ++ [(base_url self, 0)]) self);;
  match crawled with
  | Some self =>
      logger INFO ("Finished scraping " +:+ Py.str_int (pages_scraped self)
                   +:+ " pages in " +:+ total_time_2f web +:+ " seconds");;
      ret (Some self)
  | None => ret None
  end.

(** [within web n from to]: [to] is reached from [from] by following [n]
    links, each found on a page that was fetched. *)
Inductive within (web : Web) : nat -> string -> string -> Prop :=
| within_base (from : string) : within web 0 from from
| within_link (n : nat) (from via to : string) (soup : Soup)
    (links : list string) :
    within web n from via →
    fetch web via = Ok (soup, links) →
    to ∈ links →
    within web (S n) from to.

(** The URL lies at most [max_depth] links from the base URL. *)
Definition near (web : Web) (base : string) (max_depth : Z) (to : string)
  : Prop :=
  ∃ n, Z.of_nat n <= Z.max 0 max_depth ∧ within web n base to.

(** What the crawl keeps true of the scraper: the counter is between the
    number of pages kept and the limit, the pages kept have distinct URLs,
    all visited, and every URL kept or queued lies within the depth limit
    at the depth it was queued with. *)
Definition crawl_inv (web : Web) (base : string) (limit depth : Z) (self : t)
  : Prop :=
  base_url self = base ∧ max_pages self = limit ∧ max_depth self = depth ∧
  Z.of_nat (length (content self)) <= pages_scraped self ∧
  pages_scraped self <= Z.max 0 limit ∧
  NoDup (url <$> content self) ∧
  (∀ p, p ∈ content self → url p ∈ visited_urls self) ∧
  (∀ p, p ∈ content self → near web base depth (url p)) ∧
  (∀ link d, (link, d) ∈ pages_queue self →
     ∃ n, d = Z.of_nat n ∧ (d <= Z.max 0 depth) ∧ within web n base link).

End WebScraper.

(** ** Sample inputs *)

Module Sample.

Definition E : Env :=
  {| OPENAI_API_KEY := Some "sk-test";
     distance := fun _ _ => 0%nat;
     generate := fun _ => "generated answer";
     today := "2024-05-01";
     utcnow_isoformat := "2024-05-01T10:00:00";
     PdfReader := fun _ => Ok [Ok "Alpha."; Ok "Beta."; Ok "Gamma."];
     docx_Document := fun _ => Ok ["First paragraph."; "Second paragraph."];
     read_text := fun _ _ => Ok "plain text without pages" |}.

Definition empty_world : World :=
  {| collection := []; next_id := 0; _vector_store := false;
     embeddings_cached := false; faults := []; log := [];
     llm_prompts := [] |}.

(** A chunk document as the chunker shapes it. *)
Definition doc (content document_id filename page user_id : string) : Document :=
  {| page_content := content;
     metadata :=
       <["user_id" := MStr user_id]>
       (<["page" := MStr page]>
       (<["document" := MStr filename]>
       (<["document_id" := MStr document_id]> ∅))) |}.

Definition invoice_A : Document := doc "invoice of A" "d1" "a.pdf" "1" "A".
Definition invoice_B : Document := doc "invoice of B" "d2" "b.txt" "0" "B".

(** An index holding one entry of owner [A] and one of owner [B]. *)
Definition two_owners : World :=
  {| collection :=
       [ {| entry_id := 0; entry_document := invoice_A |};
         {| entry_id := 1; entry_document := invoice_B |} ];
     next_id := 2; _vector_store := true; embeddings_cached := true;
     faults := []; log := []; llm_prompts := [] |}.

(** The same index when the next call into a collaborator raises. *)
Definition failing : World := with_faults [true] two_owners.

(** An index holding an entry whose [document_id] is the empty string. *)
Definition unnamed : World :=
  {| collection :=
       [ {| entry_id := 0;
            entry_document := doc "orphan" "" "o.txt" "0" "A" |} ];
     next_id := 1; _vector_store := true; embeddings_cached := true;
     faults := []; log := []; llm_prompts := [] |}.

(** An empty index whose store cannot be reached: every call into a
    collaborator raises. *)
Definition unreachable : World := with_faults (replicate 40 true) empty_world.

(** The units of a document: a labelled page and a unit without label. *)
Definition units : list (option Z * string) :=
  [(Some 2, "Beta."); (None, "plain text")].

Definition chunk_of (page_num : option Z) (chunk : string) : Chunk :=
  {| text := chunk;
     chunk_metadata := chunk_metadata_of E page_num chunk "d1" "a.pdf" "A" |}.

(** The text of langchain's splitter test, lines joined by newlines. *)
Definition harrison : string :=
  "Hi." +:+ Py.nl +:+ Py.nl +:+ "I'm Harrison." +:+ Py.nl +:+ Py.nl
  +:+ "How? Are? You?" +:+ Py.nl +:+ "Okay then f f f f." +:+ Py.nl
  +:+ "This is a weird text to write, but gotta test the splittingggg some how."
  +:+ Py.nl +:+ Py.nl +:+ "Bye!" +:+ Py.nl +:+ Py.nl +:+ "-H.".

End Sample.

(** ** Sample inputs for the directory and the readers *)

Module Fixture.

(** The sample environment without an API key. *)
Definition no_key : Env :=
  {| OPENAI_API_KEY := None;
     distance := distance Sample.E;
     generate := generate Sample.E;
     today := today Sample.E;
     utcnow_isoformat := utcnow_isoformat Sample.E;
     PdfReader := PdfReader Sample.E;
     docx_Document := docx_Document Sample.E;
     read_text := read_text Sample.E |}.

(** The sample environment when the second page of every PDF cannot be
    read. *)
Definition torn : Env :=
  {| OPENAI_API_KEY := OPENAI_API_KEY Sample.E;
     distance := distance Sample.E;
     generate := generate Sample.E;
     today := today Sample.E;
     utcnow_isoformat := utcnow_isoformat Sample.E;
     PdfReader := fun _ => Ok [Ok "Alpha."; Raise (ExternalError "extract_text")];
     docx_Document := docx_Document Sample.E;
     read_text := read_text Sample.E |}.

(** The chunks of the sample PDF. *)
Definition pdf_chunks : list Chunk :=
  [Sample.chunk_of (Some 1) "Alpha."; Sample.chunk_of (Some 2) "Beta.";
   Sample.chunk_of (Some 3) "Gamma."].

(** The one chunk of the sample text file. *)
Definition txt_chunk : Chunk :=
  {| text := "plain text without pages";
     chunk_metadata :=
       chunk_metadata_of Sample.E None "plain text without pages" "d2" "b.txt"
         "B" |}.

Definition a_pdf : StoredFile :=
  {| file_name := "d1_a.pdf"; file_size := 120; file_mtime := 1714557600 |}.

(** A documents directory: two files of document [d1], one of [d2], and a
    file that was not stored by an upload. *)
Definition files : list StoredFile :=
  [ {| file_name := "notes.txt"; file_size := 7; file_mtime := 1714550000 |};
    a_pdf;
    {| file_name := "d2_b.txt"; file_size := 48; file_mtime := 1714557700 |};
    {| file_name := "d1_copy.pdf"; file_size := 120;
       file_mtime := 1714557800 |} ].

(** The sample index when the file system answers and the vector store
    does not. *)
Definition store_down : World :=
  with_faults ([false; false] ++ replicate 40 true)
    (with_vector_store false Sample.two_owners).

(** A platform that converts the time stamps from the epoch to the end of
    the year 9999. *)
Definition utc : Platform :=
  {| fromtimestamp_error := fun t =>
       if (0 <=? t) && (t <=? 253402300799) then None
       else Some (ValueError "year is out of range") |}.

(** The sample directory with one more file, whose modification time is
    far beyond the dates the platform converts. *)
Definition far_file : StoredFile :=
  {| file_name := "d9_far.txt"; file_size := 3; file_mtime := 1000000000000 |}.

Definition home : string := "https://a.example/".

(** A small site: the home page links to two pages, one of which cannot be
    fetched; the other links back home and to a page whose text cannot be
    extracted. *)
Definition site : WebScraper.Web :=
  {| WebScraper.fetch := fun url =>
       if String.eqb url home
       then Ok ({| WebScraper.soup_title := Some (Some "Home");
                   WebScraper.extract_text := Ok "welcome" |},
                ["https://a.example/x"; "https://a.example/y"])
       else if String.eqb url "https://a.example/x"
       then Ok ({| WebScraper.soup_title := None;
                   WebScraper.extract_text := Ok "about" |},
                [home; "https://a.example/z"])
       else if String.eqb url "https://a.example/z"
       then Ok ({| WebScraper.soup_title := Some None;
                   WebScraper.extract_text := Raise (ExternalError "get_text") |},
                ["https://a.example/deep"])
       else Raise (ExternalError "404 Client Error");
     WebScraper.total_time_2f := "3.02" |}.

End Fixture.

(** * Properties *)

(** ** Strings *)

Lemma string_app_cons (c : ascii) (s t : string) :
  String c s +:+ t = String c (s +:+ t).
Proof. reflexivity. Qed.

Lemma string_app_nil_r (s : string) : s +:+ "" = s.
Proof.
  induction s as [|c s IH]; [done|]. by rewrite string_app_cons, IH.
Qed.

Lemma string_app_assoc (a b c : string) : (a +:+ b) +:+ c = a +:+ (b +:+ c).
Proof.
  induction a as [|x a IH]; [done|]. by rewrite !string_app_cons, IH.
Qed.

Lemma string_length_app (a b : string) :
  String.length (a +:+ b) = (String.length a + String.length b)%nat.
Proof.
  induction a as [|x a IH]; [done|]. rewrite string_app_cons. simpl.
  by rewrite IH.
Qed.

Lemma len_app (a b : string) : Py.len (a +:+ b) = Py.len a + Py.len b.
Proof. unfold Py.len. rewrite string_length_app. lia. Qed.

Lemma len_nonneg (s : string) : 0 <= Py.len s.
Proof. unfold Py.len. lia. Qed.

(** ** The context block ([format_documents]) *)

(** Where the chunk has a page label, or no page field at all, the code
    cites it as the specification says. *)
Lemma citation_labelled (doc : Document) :
  labelled doc → citation doc = spec_citation (spec_document doc) (spec_page doc).
Proof.
  intros [[document Hdoc] Hpage].
  unfold citation, page_info, document_name, spec_document, spec_page.
  rewrite Hdoc. simpl.
  destruct Hpage as [->|(label & -> & Hne & Hsentinel)].
  - simpl. by rewrite string_app_nil_r.
  - rewrite decide_False by (intros [=]; done).
    simpl. by destruct label.
Qed.

Lemma format_loop_labelled (docs : list Document) (i : nat) (acc : list string) :
  (∀ doc, doc ∈ docs → labelled doc) →
  format_loop i docs acc = acc ++ imap (fun j doc => spec_block (S (i + j)) doc) docs.
Proof.
  revert i acc. induction docs as [|doc docs IH]; intros i acc Hall; simpl.
  - by rewrite app_nil_r.
  - rewrite IH, <- app_assoc
      by (intros d Hd; apply Hall; apply elem_of_cons; by right).
    simpl. f_equal. f_equal.
    + unfold spec_block.
      rewrite citation_labelled by (apply Hall; apply elem_of_cons; by left).
      replace (Z.of_nat i + 1) with (Z.of_nat (S (i + 0))) by lia. done.
    + apply imap_ext. intros j d _. simpl. f_equal. lia.
Qed.

(** For chunks with a page label, or with no page field, the context is
    the one of the specification: one block per chunk, joined by newlines,
    each the text ["Document i [citation]:"], a newline, the chunk text and
    a newline, with [i] counted from 1. *)
Lemma format_documents_labelled (docs : list Document) :
  (∀ doc, doc ∈ docs → labelled doc) →
  format_documents docs = spec_context docs.
Proof.
  intros Hall. unfold format_documents, spec_context.
  by rewrite format_loop_labelled.
Qed.

(** C9.  The context of a chunk of a document without pages is not the one
    the specification describes.  The one chunk [process_txt] makes of a
    plain-text file ["b.txt"] has no page: its [page] field is the
    sentinel.  The specification has it cited as ["b.txt"];
    [format_documents], which tests the field for truth and finds a
    non-empty string, cites it as ["b.txt (Page 0)"]. *)
Theorem format_documents_cites_sentinel_page :
  process_txt Sample.E "d2_b.txt" "d2" "b.txt" "B" Sample.empty_world
  = (Ok [Fixture.txt_chunk], Sample.empty_world) ∧
  spec_page (to_document Fixture.txt_chunk) = None ∧
  spec_context [to_document Fixture.txt_chunk]
  = "Document 1 [b.txt]:" +:+ Py.nl +:+ "plain text without pages" +:+ Py.nl ∧
  format_documents [to_document Fixture.txt_chunk]
  = "Document 1 [b.txt (Page 0)]:" +:+ Py.nl +:+ "plain text without pages"
    +:+ Py.nl ∧
  format_documents [to_document Fixture.txt_chunk]
  ≠ spec_context [to_document Fixture.txt_chunk].
Proof.
  split; [vm_compute; reflexivity|]. split; [vm_compute; reflexivity|].
  split; [vm_compute; reflexivity|]. split; [vm_compute; reflexivity|].
  vm_compute. discriminate.
Qed.

Example format_documents_two :
  format_documents [Sample.invoice_A; Sample.doc "notes" "d3" "n.txt" "" "A"]
  = "Document 1 [a.pdf (Page 1)]:" +:+ Py.nl +:+ "invoice of A" +:+ Py.nl
    +:+ Py.nl
    +:+ "Document 2 [n.txt]:" +:+ Py.nl +:+ "notes" +:+ Py.nl.
Proof. vm_compute. reflexivity. Qed.

(** The sentinel page ["0"] of a unit without label is a non-empty
    string: it is cited as a page. *)
Example format_documents_sentinel :
  format_documents [Sample.invoice_B]
  = "Document 1 [b.txt (Page 0)]:" +:+ Py.nl +:+ "invoice of B" +:+ Py.nl.
Proof. vm_compute. reflexivity. Qed.

(** ** Reasoning about the monad *)

Lemma hoare_conseq {A} (P P' : World -> Prop) (m : M A)
  (Q Q' : result A -> World -> Prop) :
  hoare P' m Q' → (∀ w, P w → P' w) → (∀ r w, Q' r w → Q r w) → hoare P m Q.
Proof. intros Hm HP HQ w Hw. apply HQ, Hm, HP, Hw. Qed.

Lemma hoare_ret {A} (P : World -> Prop) (a : A) (Q : result A -> World -> Prop) :
  (∀ w, P w → Q (Ok a) w) → hoare P (ret a) Q.
Proof. intros H w Hw. by apply H. Qed.

Lemma hoare_raise {A} (P : World -> Prop) (e : exn)
  (Q : result A -> World -> Prop) :
  (∀ w, P w → Q (Raise e) w) → hoare P (raise e) Q.
Proof. intros H w Hw. by apply H. Qed.

Lemma hoare_bind {A B} (P : World -> Prop) (m : M A) (k : A -> M B)
  (R : result A -> World -> Prop) (Q : result B -> World -> Prop) :
  hoare P m R →
  (∀ a, hoare (R (Ok a)) (k a) Q) →
  (∀ e w, R (Raise e) w → Q (Raise e) w) →
  hoare P (bind m k) Q.
Proof.
  intros Hm Hk He w Hw. unfold bind. specialize (Hm w Hw).
  destruct (m w) as [[a|e] w']; simpl in *.
  - by apply Hk.
  - by apply He.
Qed.

Lemma hoare_try {A} (P : World -> Prop) (body : M A) (handler : exn -> M A)
  (R Q : result A -> World -> Prop) :
  hoare P body R →
  (∀ a w, R (Ok a) w → Q (Ok a) w) →
  (∀ e, hoare (R (Raise e)) (handler e) Q) →
  hoare P (try_except body handler) Q.
Proof.
  intros Hm Hok Hh w Hw. unfold try_except. specialize (Hm w Hw).
  destruct (body w) as [[a|e] w']; simpl in *.
  - by apply Hok.
  - by apply Hh.
Qed.

Lemma hoare_lift {A} (P : World -> Prop) (r : result A)
  (Q : result A -> World -> Prop) :
  (∀ w, P w → Q r w) → hoare P (lift r) Q.
Proof. intros H w Hw. by apply H. Qed.

(** A body that keeps [I], retried: [I] is kept, a returned value is one
    the body returned, and the only exception is [RetryError]. *)
Lemma hoare_retry {A} (I : World -> Prop) (body : M A) (G : A -> World -> Prop)
  (n : nat) :
  hoare I body (fun r w => match r with Ok a => G a w | Raise _ => I w end) →
  hoare I (retry n body)
    (fun r w => match r with
                | Ok a => G a w
                | Raise e => e = RetryError ∧ I w
                end).
Proof.
  intros Hb. induction n as [|n IH]; simpl.
  - apply hoare_raise. auto.
  - eapply hoare_try; [exact Hb | | ]; simpl.
    + auto.
    + intros e. exact IH.
Qed.

(** A body that never raises is run once by [retry]. *)
Lemma retry_no_raise {A} (body : M A) (n : nat) (w : World) (a : A) (w' : World) :
  body w = (Ok a, w') → retry (S n) body w = (Ok a, w').
Proof. intros H. simpl. unfold try_except. by rewrite H. Qed.

Global Instance index_is_stable c n p : Stable (index_is c n p).
Proof. split; intros w x H; exact H. Qed.

Lemma hoare_logger (P : World -> Prop) `{!Stable P} (l : level) (m : string) :
  hoare P (logger l m) (fun r w => r = Ok tt ∧ P w).
Proof. intros w Hw. split; [done|]. by apply stable_log. Qed.

Lemma hoare_external (P : World -> Prop) `{!Stable P} (what : string) :
  hoare P (external what) (fun _ w => P w).
Proof.
  intros w Hw. unfold external.
  destruct (faults w) as [|[] rest]; simpl;
    [exact Hw | by apply stable_faults | by apply stable_faults].
Qed.

(** Sequencing when every step keeps an invariant, whatever it returns. *)
Lemma hoare_seq_inv {A B} (I : World -> Prop) (m : M A) (k : A -> M B)
  (Q : result B -> World -> Prop) :
  hoare I m (fun _ w => I w) →
  (∀ a, hoare I (k a) Q) →
  (∀ e w, I w → Q (Raise e) w) →
  hoare I (bind m k) Q.
Proof.
  intros Hm Hk He. eapply hoare_bind; [exact Hm | exact Hk | exact He].
Qed.

Lemma hoare_logger_inv (P : World -> Prop) `{!Stable P} (l : level) (m : string) :
  hoare P (logger l m) (fun _ w => P w).
Proof. intros w Hw. by apply stable_log. Qed.

Lemma hoare_get_embeddings (P : World -> Prop) `{!Stable P} (E : Env) :
  hoare P (get_embeddings E) (fun _ w => P w).
Proof.
  intros w Hw. unfold get_embeddings.
  destruct (embeddings_cached w); [exact Hw|].
  revert w Hw. change (hoare P
    (try_except
       ((if truthy_opt (OPENAI_API_KEY E)
         then external "OpenAIEmbeddings"
         else
           logger INFO ("Using HuggingFace embeddings model: " +:+ EMBEDDING_MODEL);;
           external "HuggingFaceEmbeddings");;
        fun w' => (Ok tt, with_embeddings_cached true w'))
       (fun e =>
          logger ERROR ("Error creating embeddings model: " +:+ str_exn e);;
          raise e))
    (fun _ w => P w)).
  eapply hoare_try with (R := fun _ w => P w); [| auto |].
  - apply hoare_seq_inv; [| | auto].
    + destruct (truthy_opt _); [by apply hoare_external|].
      apply hoare_seq_inv; [by apply hoare_logger_inv | | auto].
      intros _. by apply hoare_external.
    + intros _ w Hw. by apply stable_embeddings.
  - intros e. apply hoare_seq_inv; [by apply hoare_logger_inv | | auto].
    intros _. by apply hoare_raise.
Qed.

Lemma hoare_get_vector_store_attempt (P : World -> Prop) `{!Stable P} (E : Env) :
  hoare P (get_vector_store_attempt E) (fun _ w => P w).
Proof.
  intros w Hw. unfold get_vector_store_attempt.
  destruct (_vector_store w); [exact Hw|].
  revert w Hw. change (hoare P
    (try_except
       (get_embeddings E;;
        external "Chroma";;
        (fun w' => (Ok tt, with_vector_store true w'));;
        logger INFO "Chroma vector store initialized")
       (fun e =>
          logger ERROR ("Vector store init failed: " +:+ str_exn e);;
          raise e))
    (fun _ w => P w)).
  eapply hoare_try with (R := fun _ w => P w); [| auto |].
  - apply hoare_seq_inv; [by apply hoare_get_embeddings | | auto].
    intros _. apply hoare_seq_inv; [by apply hoare_external | | auto].
    intros _. apply hoare_seq_inv; [ | | auto].
    + intros w Hw. by apply stable_vector_store.
    + intros _. by apply hoare_logger_inv.
  - intros e. apply hoare_seq_inv; [by apply hoare_logger_inv | | auto].
    intros _. by apply hoare_raise.
Qed.

Lemma hoare_get_vector_store (P : World -> Prop) `{!Stable P} (E : Env) :
  hoare P (get_vector_store E) (fun _ w => P w).
Proof.
  eapply hoare_conseq;
    [apply (hoare_retry P _ (fun _ w => P w) 3) | auto |].
  - eapply hoare_conseq; [by apply hoare_get_vector_store_attempt | auto |].
    intros [a|e] w Hw; exact Hw.
  - intros [a|e] w; simpl; tauto.
Qed.

(** ** Similarity search *)

Lemma nearest_elem_of (E : Env) (query : string) (k : Z)
  (where_filter : option Where) (documents : list Document) (d : Document) :
  d ∈ Chroma.nearest E query k where_filter documents →
  d ∈ documents ∧ ∀ wh, where_filter = Some wh → Chroma.Matches wh d.
Proof.
  unfold Chroma.nearest. intros Hd.
  apply elem_of_take in Hd as (i & Hi & _).
  apply list_elem_of_lookup_2 in Hi.
  rewrite merge_sort_Permutation in Hi.
  destruct where_filter as [wh|].
  - apply list_elem_of_filter in Hi as [Hm Hin]. split; [done|].
    intros wh' [= <-]. done.
  - split; [done|]. intros wh' [=].
Qed.

Lemma nearest_unfiltered_all (E : Env) (query : string) (k : Z)
  (documents : list Document) (d : Document) :
  Z.of_nat (length documents) <= k →
  d ∈ documents → d ∈ Chroma.nearest E query k None documents.
Proof.
  unfold Chroma.nearest. intros Hk Hd.
  rewrite take_ge.
  - by rewrite merge_sort_Permutation.
  - rewrite merge_sort_Permutation. lia.
Qed.

Lemma hoare_similarity_search (E : Env) (query : string) (k : Z)
  (where_filter : option Where) c n p :
  hoare (index_is c n p) (Chroma.similarity_search E query k where_filter)
    (fun r w =>
       index_is c n p w ∧
       ∀ docs, r = Ok docs →
         docs = Chroma.nearest E query k where_filter (entry_document <$> c)).
Proof.
  unfold Chroma.similarity_search.
  eapply hoare_bind; [by apply hoare_external | | ]; simpl.
  - intros _. destruct (k <=? 0).
    + apply hoare_raise. intros w Hw. split; [done|]. intros docs [=].
    + intros w Hw. simpl. split; [done|]. intros docs [= <-].
      destruct Hw as (-> & _). done.
  - intros e w Hw. split; [done|]. intros docs [=].
Qed.

(** Logging never raises: what follows it runs. *)
Lemma hoare_logger_then {B} (P : World -> Prop) `{!Stable P} (l : level)
  (m : string) (k : unit -> M B) (Q : result B -> World -> Prop) :
  hoare P (k tt) Q → hoare P (bind (logger l m) k) Q.
Proof.
  intros Hk w Hw. unfold bind, logger. simpl. apply Hk. by apply stable_log.
Qed.

Lemma search_owner_filter (E : Env) (query : string) (top_k : Z)
  (user_id : option string) :
  (if truthy_opt user_id
   then
     Chroma.similarity_search E query top_k
       (Some {| where_key := "user_id"; where_eq := MStr (default "" user_id) |})
   else Chroma.similarity_search E query top_k None)
  = Chroma.similarity_search E query top_k (owner_filter user_id).
Proof. unfold owner_filter. by destruct (truthy_opt user_id). Qed.

(** Logging as the last step. *)
Lemma hoare_logger_end (P : World -> Prop) `{!Stable P} (l : level)
  (m : string) (Q : result unit -> World -> Prop) :
  (∀ w, P w → Q (Ok tt) w) → hoare P (logger l m) Q.
Proof. intros HQ w Hw. apply HQ. by apply stable_log. Qed.

(** What one attempt of [query_vectorstore] yields: it returns, the index
    is untouched, and the documents are either none or the nearest ones
    under the owner filter. *)
Lemma hoare_query_vectorstore_attempt (E : Env) (query : string) (top_k : Z)
  (user_id : option string) c n p :
  hoare (index_is c n p) (query_vectorstore_attempt E query top_k user_id)
    (fun r w =>
       index_is c n p w ∧
       ∃ docs, r = Ok docs ∧
         (docs = [] ∨
          docs = Chroma.nearest E query top_k (owner_filter user_id)
                   (entry_document <$> c))).
Proof.
  unfold query_vectorstore_attempt. rewrite search_owner_filter.
  destruct (negb (Py.truthy_str query) || negb (Py.truthy_str (Py.strip query))).
  { apply hoare_logger_then; [apply _|].
    apply hoare_ret. intros w Hw. split; [done|]. eauto. }
  eapply hoare_try with (R := fun r w =>
    index_is c n p w ∧
    ∀ docs, r = Ok docs →
      docs = [] ∨
      docs = Chroma.nearest E query top_k (owner_filter user_id)
               (entry_document <$> c)).
  - eapply hoare_bind with (R := fun _ w => index_is c n p w);
      [by apply hoare_get_vector_store | | ].
    + intros _.
      eapply hoare_try with (R := fun r w =>
        index_is c n p w ∧
        ∀ docs, r = Ok docs →
          docs = Chroma.nearest E query top_k (owner_filter user_id)
                   (entry_document <$> c)).
      * apply hoare_logger_then; [apply _|].
        eapply hoare_bind; [apply hoare_similarity_search | | ].
        -- intros results. simpl.
           intros w [Hw Hr]. unfold bind, logger, ret. simpl.
           split; [done|]. intros docs [= <-]. by apply Hr.
        -- simpl. intros e w [Hw _]. split; [done|]. intros docs [=].
      * simpl. intros docs w [Hw Hr]. split; [done|].
        intros docs' [= <-]. right. by apply Hr.
      * intros e. apply hoare_logger_then.
        { split; intros w x [H _]; (split; [exact H | intros docs [=]]). }
        apply hoare_ret. intros w [Hw _]. split; [done|].
        intros docs [= <-]. by left.
    + simpl. intros e w Hw. split; [done|]. intros docs [=].
  - simpl. intros docs w [Hw Hr]. split; [done|]. eauto.
  - intros e. apply hoare_logger_then.
    { split; intros w x [H _]; (split; [exact H | intros docs [=]]). }
    apply hoare_ret. intros w [Hw _]. split; [done|]. eauto.
Qed.

(** [query_vectorstore] always returns: no attempt raises, so the first one
    is the only one. *)
Lemma hoare_query_vectorstore (E : Env) (query : string) (top_k : Z)
  (user_id : option string) c n p :
  hoare (index_is c n p) (query_vectorstore E query top_k user_id)
    (fun r w =>
       index_is c n p w ∧
       ∃ docs, r = Ok docs ∧
         (docs = [] ∨
          docs = Chroma.nearest E query top_k (owner_filter user_id)
                   (entry_document <$> c))).
Proof.
  intros w Hw.
  destruct (hoare_query_vectorstore_attempt E query top_k user_id c n p w Hw)
    as (Hw' & docs & Hr & Hdocs).
  destruct (query_vectorstore_attempt E query top_k user_id w) as [r w'] eqn:Ha.
  simpl in *. subst r. unfold query_vectorstore.
  rewrite (retry_no_raise _ 2 w docs w' Ha). simpl. eauto.
Qed.

Lemma index_is_self (w : World) :
  index_is (collection w) (next_id w) (llm_prompts w) w.
Proof. done. Qed.

Lemma truthy_opt_Some (user_id : string) :
  user_id ≠ "" → truthy_opt (Some user_id) = true.
Proof. by destruct user_id. Qed.

(** Under the filter of a non-empty owner, what the search yields are
    entries of that owner. *)
Lemma owner_filter_results (E : Env) (query : string) (top_k : Z)
  (user_id : string) (documents docs : list Document) :
  user_id ≠ "" →
  docs = [] ∨
  docs = Chroma.nearest E query top_k (owner_filter (Some user_id)) documents →
  ∀ d, d ∈ docs → d ∈ documents ∧ owned_by user_id d.
Proof.
  intros Hne Hdocs d Hd. destruct Hdocs as [-> | ->].
  - by apply elem_of_nil in Hd.
  - apply nearest_elem_of in Hd as [Hin Hm]. split; [done|].
    unfold owner_filter in Hm. rewrite truthy_opt_Some in Hm by done.
    apply (Hm _ eq_refl).
Qed.

(** C1. A query that supplies a non-empty owner identifier returns, and
    every returned entry is an entry of the index whose [user_id] metadata
    equals that identifier; an entry whose [user_id] is some other value is
    never among the results. *)
Theorem query_vectorstore_owner_isolation (E : Env) (query : string)
  (top_k : Z) (user_id : string) (w : World) :
  user_id ≠ "" →
  ∃ docs w',
    query_vectorstore E query top_k (Some user_id) w = (Ok docs, w') ∧
    (∀ d, d ∈ docs →
       d ∈ entry_document <$> collection w ∧ owned_by user_id d) ∧
    (∀ d other, d ∈ docs → metadata d !! "user_id" = Some other →
       other = MStr user_id).
Proof.
  intros Hne.
  destruct (hoare_query_vectorstore E query top_k (Some user_id) _ _ _ w
              (index_is_self w)) as (_ & docs & Hr & Hdocs).
  destruct (query_vectorstore E query top_k (Some user_id) w) as [r w'].
  simpl in Hr. subst r. exists docs, w'. split; [done|].
  pose proof (owner_filter_results E query top_k user_id _ docs Hne Hdocs)
    as Hall.
  split; [done|].
  intros d other Hd Hother. destruct (Hall d Hd) as [_ Ho].
  unfold owned_by in Ho. congruence.
Qed.

Example query_scoped_to_A :
  (query_vectorstore Sample.E "invoice" 3 (Some "A") Sample.two_owners).1
  = Ok [Sample.invoice_A].
Proof. vm_compute. reflexivity. Qed.

(** C2. When retrieval yields no document, [query_documents] returns the
    fixed no-documents message with an empty list of sources; this is a
    normal return, and the world is left exactly as retrieval left it: the
    generation provider has been given no prompt and no error is logged. *)
Theorem query_documents_no_documents (E : Env) (query : string) (top_k : Z)
  (user_id : option string) (w w1 : World) :
  query_vectorstore E query top_k user_id w = (Ok [], w1) →
  query_documents E query top_k user_id w
  = (Ok ("No relevant documents found to answer your question.", []), w1)
  ∧ llm_prompts w1 = llm_prompts w.
Proof.
  intros Hq. split.
  - unfold query_documents. apply retry_no_raise.
    unfold query_documents_attempt, try_except, bind. by rewrite Hq.
  - pose proof (hoare_query_vectorstore E query top_k user_id _ _ _ w
                  (index_is_self w)) as (Hw1 & _).
    rewrite Hq in Hw1. simpl in Hw1. by destruct Hw1 as (_ & _ & ->).
Qed.

(** Logging does not change what a similarity search does. *)
Lemma similarity_search_with_log (E : Env) (query : string) (k : Z)
  (where_filter : option Where) (w : World) (l : list LogRecord) :
  Chroma.similarity_search E query k where_filter (with_log l w)
  = ((Chroma.similarity_search E query k where_filter w).1,
     with_log l (Chroma.similarity_search E query k where_filter w).2).
Proof.
  unfold Chroma.similarity_search, bind, external, raise. simpl.
  destruct (faults w) as [|[] rest]; simpl; destruct (k <=? 0); reflexivity.
Qed.

Lemma query_vectorstore_returns (E : Env) (query : string) (top_k : Z)
  (user_id : option string) (w : World) :
  ∃ docs w', query_vectorstore E query top_k user_id w = (Ok docs, w').
Proof.
  destruct (hoare_query_vectorstore E query top_k user_id _ _ _ w
              (index_is_self w)) as (_ & docs & Hr & _).
  destruct (query_vectorstore E query top_k user_id w) as [r w'].
  simpl in Hr. subst r. eauto.
Qed.

(** C4. [query_vectorstore] never propagates an exception: it returns for
    every input; and when the underlying query (obtaining the store, then
    the similarity search under the owner filter) raises, what it returns
    is the empty list. *)
Theorem query_vectorstore_degrades (E : Env) (query : string) (top_k : Z)
  (user_id : option string) (w : World) :
  (∃ docs w', query_vectorstore E query top_k user_id w = (Ok docs, w')) ∧
  (∀ e w1,
     (get_vector_store E;;
      Chroma.similarity_search E query top_k (owner_filter user_id)) w
     = (Raise e, w1) →
     ∃ w', query_vectorstore E query top_k user_id w = (Ok [], w')).
Proof.
  split; [apply query_vectorstore_returns|].
  intros e w1 Hfail.
  destruct (query_vectorstore_returns E query top_k user_id w)
    as (docs & w' & Hq).
  exists w'. rewrite Hq. f_equal. f_equal.
  unfold query_vectorstore in Hq. simpl in Hq. unfold try_except in Hq.
  destruct (query_vectorstore_attempt E query top_k user_id w)
    as [r wa] eqn:Ha.
  assert (r = Ok []) as ->; [|by destruct docs; inversion Hq].
  clear Hq. revert Ha.
  unfold query_vectorstore_attempt. rewrite search_owner_filter.
  destruct (negb (Py.truthy_str query) || negb (Py.truthy_str (Py.strip query))).
  { unfold bind, logger, ret. simpl. by intros [= <- _]. }
  unfold bind in Hfail. unfold try_except at 1. unfold bind at 1.
  destruct (get_vector_store E w) as [[[]|e0] w2].
  - unfold try_except, bind at 1, logger at 1. simpl.
    unfold bind at 1. rewrite similarity_search_with_log, Hfail. simpl.
    unfold bind, logger, ret. simpl. by intros [= <- _].
  - unfold bind, logger, ret. simpl. by intros [= <- _].
Qed.

(** With no fault scheduled the store handle is obtained. *)
Lemma get_vector_store_no_faults (E : Env) (w : World) :
  faults w = [] →
  ∃ w', get_vector_store E w = (Ok tt, w') ∧ faults w' = [] ∧
        index_is (collection w) (next_id w) (llm_prompts w) w'.
Proof.
  intros Hf. unfold get_vector_store.
  destruct (get_vector_store_attempt E w) as [r w'] eqn:Ha.
  assert (r = Ok tt ∧ faults w' = [] ∧
          index_is (collection w) (next_id w) (llm_prompts w) w')
    as (-> & Hf' & Hi).
  { revert Ha. unfold get_vector_store_attempt.
    destruct (_vector_store w); [by intros [= <- <-]|].
    unfold try_except, bind at 1, get_embeddings.
    destruct (embeddings_cached w).
    - unfold bind, external, logger. simpl. rewrite Hf. simpl.
      by intros [= <- <-].
    - unfold try_except, bind at 1.
      destruct (truthy_opt (OPENAI_API_KEY E)).
      + unfold bind, external, logger. simpl. rewrite Hf. simpl. rewrite Hf.
        simpl. by intros [= <- <-].
      + unfold bind, external, logger. simpl. rewrite Hf. simpl. rewrite Hf.
        simpl. by intros [= <- <-]. }
  exists w'. split; [|done]. by apply retry_no_raise.
Qed.

(** C10. When [user_id] is absent ([None]) or the empty string, no owner
    filter is applied: with the store reachable, a non-blank query returns
    the nearest documents of the entire index, so that, the index being no
    larger than [top_k], every entry is returned whatever its [user_id]. *)
Theorem query_vectorstore_unscoped (E : Env) (query : string) (top_k : Z)
  (user_id : option string) (w : World) :
  truthy_opt user_id = false →
  nonblank query → 0 < top_k → faults w = [] →
  ∃ docs w',
    query_vectorstore E query top_k user_id w = (Ok docs, w') ∧
    docs = Chroma.nearest E query top_k None (entry_document <$> collection w) ∧
    (Z.of_nat (length (collection w)) <= top_k →
     ∀ d, d ∈ entry_document <$> collection w → d ∈ docs).
Proof.
  intros Hu [Hq1 Hq2] Hk Hf.
  destruct (get_vector_store_no_faults E w Hf) as (w2 & Hgs & Hf2 & Hc & _).
  eexists _, _. split; [|split; [reflexivity|]].
  - unfold query_vectorstore. apply retry_no_raise.
    unfold query_vectorstore_attempt. rewrite Hq1, Hq2, Hu. simpl.
    unfold try_except, bind at 1. rewrite Hgs.
    unfold bind at 1, logger at 1. simpl.
    unfold bind at 1, Chroma.similarity_search, bind at 1, external. simpl.
    rewrite Hf2. simpl. replace (top_k <=? 0) with false by lia.
    unfold bind, logger, ret. simpl. rewrite Hc. reflexivity.
  - intros Hlen d Hd. apply nearest_unfiltered_all; [|done].
    rewrite length_fmap. done.
Qed.

(** ** The index invariant *)

Lemma new_entries_ids (first_id : nat) (documents : list Document) :
  entry_id <$> Chroma.new_entries first_id documents
  = seq first_id (length documents).
Proof.
  revert first_id. induction documents as [|d ds IH]; intros i; simpl; [done|].
  by rewrite IH.
Qed.

Lemma new_entries_length (first_id : nat) (documents : list Document) :
  length (Chroma.new_entries first_id documents) = length documents.
Proof.
  revert first_id. induction documents as [|d ds IH]; intros i; simpl; [done|].
  by rewrite IH.
Qed.

Lemma wf_index_empty : wf_index Sample.empty_world.
Proof. split; [constructor | intros e He; by apply elem_of_nil in He]. Qed.

(** Appending a batch with fresh consecutive ids keeps the invariant. *)
Lemma wf_index_add (w : World) (documents : list Document) :
  wf_index w →
  wf_index
    (with_collection
       (collection w ++ Chroma.new_entries (next_id w) documents)
       (next_id w + length documents)%nat w).
Proof.
  intros [Hnd Hlt]. split; simpl.
  - rewrite fmap_app, new_entries_ids. apply NoDup_app. split; [done|].
    split; [|apply NoDup_seq].
    intros i Hi Hi'. apply list_elem_of_fmap in Hi as (e & -> & He).
    apply elem_of_seq in Hi'. specialize (Hlt e He). lia.
  - intros e He. apply elem_of_app in He as [He|He].
    + specialize (Hlt e He). lia.
    + assert (entry_id e ∈ entry_id <$> Chroma.new_entries (next_id w) documents)
        as Hi by (apply list_elem_of_fmap; eauto).
      rewrite new_entries_ids in Hi. apply elem_of_seq in Hi. lia.
Qed.

(** Removing entries keeps the invariant. *)
Lemma wf_index_filter (w : World) (P : IndexEntry -> Prop)
  `{!∀ e, Decision (P e)} :
  wf_index w → wf_index (with_collection (filter P (collection w)) (next_id w) w).
Proof.
  intros [Hnd Hlt]. split; simpl.
  - clear Hlt. induction (collection w) as [|e c IH]; [constructor|].
    rewrite fmap_cons in Hnd. apply NoDup_cons in Hnd as [Hnotin Hnd].
    rewrite filter_cons. destruct (decide (P e)); [|by apply IH].
    rewrite fmap_cons. apply NoDup_cons. split; [|by apply IH].
    intros Hin. apply Hnotin.
    apply list_elem_of_fmap in Hin as (e' & -> & He').
    apply list_elem_of_filter in He' as [_ He']. apply list_elem_of_fmap. eauto.
  - intros e He. apply list_elem_of_filter in He as [_ He]. by apply Hlt.
Qed.

(** ** Delete by document *)

Lemma filter_ext_in {A} (P Q : A -> Prop) `{!∀ x, Decision (P x)}
  `{!∀ x, Decision (Q x)} (l : list A) :
  (∀ x, x ∈ l → P x ↔ Q x) → filter P l = filter Q l.
Proof.
  induction l as [|x l IH]; intros Hall; [done|].
  rewrite !filter_cons.
  assert (P x ↔ Q x) as Hx by (apply Hall; left).
  assert (filter P l = filter Q l) as ->
    by (apply IH; intros y Hy; apply Hall; by right).
  destruct (decide (P x)), (decide (Q x)); tauto.
Qed.

Lemma filter_all {A} (P : A -> Prop) `{!∀ x, Decision (P x)} (l : list A) :
  (∀ x, x ∈ l → P x) → filter P l = l.
Proof.
  induction l as [|x l IH]; intros Hall; [done|].
  rewrite filter_cons_True by (apply Hall; left).
  f_equal. apply IH. intros y Hy. apply Hall. by right.
Qed.

Lemma NoDup_fmap_eq {A B} (f : A -> B) (l : list A) (x y : A) :
  NoDup (f <$> l) → x ∈ l → y ∈ l → f x = f y → x = y.
Proof.
  induction l as [|a l IH]; intros Hnd Hx Hy Hf.
  - by apply elem_of_nil in Hx.
  - rewrite fmap_cons in Hnd. apply NoDup_cons in Hnd as [Hnotin Hnd].
    apply elem_of_cons in Hx as [->|Hx], Hy as [->|Hy]; [done| | |by apply IH].
    + exfalso. apply Hnotin. rewrite Hf. apply list_elem_of_fmap. eauto.
    + exfalso. apply Hnotin. rewrite <- Hf. apply list_elem_of_fmap. eauto.
Qed.

(** With unique ids, deleting the ids of the entries that satisfy [P]
    removes exactly those entries. *)
Lemma delete_ids_of (P : IndexEntry -> Prop) `{!∀ e, Decision (P e)}
  (c : list IndexEntry) :
  NoDup (entry_id <$> c) →
  filter (fun e => entry_id e ∉ entry_id <$> filter P c) c
  = filter (fun e => ¬ P e) c.
Proof.
  intros Hnd. apply filter_ext_in. intros e He. split.
  - intros Hnotin HP. apply Hnotin. apply list_elem_of_fmap.
    exists e. split; [done|]. by apply list_elem_of_filter.
  - intros HnP Hin. apply list_elem_of_fmap in Hin as (e' & Heq & He').
    apply list_elem_of_filter in He' as [HP He'].
    assert (e = e') as -> by (by apply (NoDup_fmap_eq entry_id c)).
    done.
Qed.

Lemma hoare_get_ids (where_filter : Where) c n p :
  hoare (index_is c n p) (Chroma.get_ids where_filter)
    (fun r w =>
       index_is c n p w ∧
       ∀ ids, r = Ok ids →
         ids = entry_id
               <$> filter (fun e => Chroma.Matches where_filter (entry_document e)) c).
Proof.
  unfold Chroma.get_ids.
  eapply hoare_bind; [by apply hoare_external | | ]; simpl.
  - intros _ w Hw. simpl. split; [done|]. intros ids [= <-].
    by destruct Hw as (-> & _).
  - intros e w Hw. split; [done|]. intros ids [=].
Qed.

Lemma hoare_delete (ids : list nat) c n p :
  hoare (index_is c n p) (Chroma.delete ids)
    (fun r w =>
       match r with
       | Ok _ => index_is (filter (fun e => entry_id e ∉ ids) c) n p w
       | Raise _ => index_is c n p w
       end).
Proof.
  unfold Chroma.delete.
  eapply hoare_bind; [by apply hoare_external | | ]; simpl.
  - intros _ w (<- & <- & <-). done.
  - done.
Qed.

Lemma hoare_logger_last (P : World -> Prop) `{!Stable P} (l : level) (m : string) :
  hoare P (logger l m)
    (fun r w =>
       r = Ok tt ∧ P w ∧ last (log w) = Some {| levelname := l; message := m |}).
Proof.
  intros w Hw. split; [done|]. split; [by apply stable_log|].
  simpl. apply last_snoc.
Qed.

Lemma truthy_str_nonempty (s : string) : s ≠ "" → Py.truthy_str s = true.
Proof. by destruct s. Qed.

Lemma filter_about_document (document_id : string) (c : list IndexEntry) :
  filter
    (fun e =>
       Chroma.Matches
         {| where_key := "document_id"; where_eq := MStr document_id |}
         (entry_document e)) c
  = filter (about_document document_id) c.
Proof. apply filter_ext_in. intros e _. reflexivity. Qed.

(** One attempt of [delete_document_from_vectorstore] on an index with
    unique ids: when it returns, it returns [None], exactly the entries of
    the document are gone and the last record logged tells how many there
    were; when it raises, the index is as before. *)
Lemma hoare_delete_attempt (E : Env) (document_id : string) c n p :
  document_id ≠ "" →
  NoDup (entry_id <$> c) →
  hoare (index_is c n p)
    (delete_document_from_vectorstore_attempt E document_id)
    (fun r w =>
       match r with
       | Ok v =>
           v = PyNone ∧
           index_is (filter (fun e => ¬ about_document document_id e) c) n p w ∧
           last (log w)
           = Some (deletion_record document_id
                     (length (filter (about_document document_id) c)))
       | Raise _ => index_is c n p w
       end).
Proof.
  intros Hne Hnd. unfold delete_document_from_vectorstore_attempt.
  rewrite (truthy_str_nonempty _ Hne). simpl.
  set (removed := filter (fun e => ¬ about_document document_id e) c).
  set (found := length (filter (about_document document_id) c)).
  set (Good := fun w : World =>
    index_is removed n p w ∧
    last (log w) = Some (deletion_record document_id found)).
  assert (Stable (index_is removed n p)) as Hst by apply _.
  eapply hoare_try with (R := fun r w =>
    match r with
    | Ok v => v = PyNone ∧ Good w
    | Raise _ => index_is c n p w
    end).
  - eapply hoare_bind with (R := fun _ w => index_is c n p w);
      [by apply hoare_get_vector_store | | done].
    intros _.
    eapply hoare_bind with (R := fun r w =>
      match r with
      | Ok _ => Good w
      | Raise _ => index_is c n p w
      end).
    + eapply hoare_try with (R := fun r w =>
        match r with
        | Ok _ => Good w
        | Raise _ => index_is c n p w
        end).
      * eapply hoare_bind; [apply hoare_get_ids | | ].
        -- intros ids. simpl. intros w [Hw Hids].
           specialize (Hids ids eq_refl). rewrite filter_about_document in Hids.
           assert (length ids = found) as Hlen
             by (rewrite Hids, length_fmap; done).
           destruct (0 <? length ids)%nat eqn:Hpos.
           ++ unfold bind.
              pose proof (hoare_delete ids c n p w Hw) as Hd.
              destruct (Chroma.delete ids w) as [[[]|e] w2]; simpl in Hd; [|done].
              assert (index_is removed n p w2) as Hw2.
              { unfold removed. rewrite <- (delete_ids_of _ c Hnd).
                by rewrite <- Hids. }
              destruct (hoare_logger_last (index_is removed n p) INFO
                          ("Deleted " +:+ Py.str_int (Z.of_nat (length ids))
                           +:+ " chunks for document " +:+ document_id) w2 Hw2)
                as (Hr & Hw3 & Hlast).
              destruct (logger _ _ w2) as [r3 w3]. simpl in *. subst r3.
              split; [done|]. rewrite Hlast. f_equal.
              unfold deletion_record. by rewrite <- Hlen, Hpos.
           ++ assert (index_is removed n p w) as Hw2.
              { unfold removed. rewrite <- (delete_ids_of _ c Hnd).
                rewrite <- Hids. apply Nat.ltb_ge in Hpos.
                destruct ids; [|simpl in Hpos; lia].
                rewrite filter_all; [done|].
                intros e _ Hin. by apply elem_of_nil in Hin. }
              destruct (hoare_logger_last (index_is removed n p) WARNING
                          ("No chunks found for document " +:+ document_id)
                          w Hw2) as (Hr & Hw3 & Hlast).
              destruct (logger _ _ w) as [r3 w3]. simpl in *. subst r3.
              split; [done|]. rewrite Hlast. f_equal.
              unfold deletion_record. by rewrite <- Hlen, Hpos.
        -- simpl. intros e w [Hw _]. done.
      * done.
      * intros e. eapply hoare_bind; [by apply hoare_logger | | ].
        -- intros ?. apply hoare_raise. by intros w [_ Hw].
        -- by intros e' w [? _].
    + intros _. apply hoare_ret. by intros w Hw.
    + done.
  - by intros v w Hw.
  - intros e. eapply hoare_bind; [by apply hoare_logger | | ].
    + intros ?. apply hoare_raise. by intros w [_ Hw].
    + by intros e' w [? _].
Qed.

(** With no fault scheduled, an attempt to delete returns. *)
Lemma delete_attempt_no_faults (E : Env) (document_id : string) (w : World) :
  faults w = [] →
  ∃ w', delete_document_from_vectorstore_attempt E document_id w
        = (Ok PyNone, w') ∧ faults w' = [].
Proof.
  intros Hf. unfold delete_document_from_vectorstore_attempt.
  destruct (negb (Py.truthy_str document_id)).
  { unfold bind, logger, ret. simpl. eauto. }
  destruct (get_vector_store_no_faults E w Hf) as (w2 & Hgs & Hf2 & _).
  unfold try_except at 1, bind at 1. rewrite Hgs.
  unfold bind at 1, try_except, bind at 1, Chroma.get_ids, bind at 1, external.
  rewrite Hf2. simpl.
  destruct (0 <? length _)%nat.
  - unfold bind at 1, Chroma.delete, bind at 1, external. rewrite Hf2.
    unfold bind, logger, ret. simpl. eauto.
  - unfold bind, logger, ret. simpl. eauto.
Qed.

Lemma delete_no_faults (E : Env) (document_id : string) (w : World) :
  faults w = [] →
  ∃ w', delete_document_from_vectorstore E document_id w = (Ok PyNone, w')
        ∧ faults w' = [].
Proof.
  intros Hf.
  destruct (delete_attempt_no_faults E document_id w Hf) as (w' & Ha & Hf').
  exists w'. split; [|done]. by apply retry_no_raise.
Qed.

(** What a call of [delete_document_from_vectorstore] does to an index with
    unique ids, for a non-empty id. *)
Lemma hoare_delete_document (E : Env) (document_id : string) c n p :
  document_id ≠ "" →
  NoDup (entry_id <$> c) →
  hoare (index_is c n p) (delete_document_from_vectorstore E document_id)
    (fun r w =>
       match r with
       | Ok v =>
           v = PyNone ∧
           index_is (filter (fun e => ¬ about_document document_id e) c) n p w ∧
           last (log w)
           = Some (deletion_record document_id
                     (length (filter (about_document document_id) c)))
       | Raise e => e = RetryError ∧ index_is c n p w
       end).
Proof.
  intros Hne Hnd. unfold delete_document_from_vectorstore.
  apply (hoare_retry (index_is c n p) _
           (fun v w =>
              v = PyNone ∧
              index_is (filter (fun e => ¬ about_document document_id e) c) n p w ∧
              last (log w)
              = Some (deletion_record document_id
                        (length (filter (about_document document_id) c))))).
  by apply hoare_delete_attempt.
Qed.

Lemma filter_not_about_twice (document_id : string) (c : list IndexEntry) :
  filter (about_document document_id)
    (filter (fun e => ¬ about_document document_id e) c) = [].
Proof.
  induction c as [|e c IH]; [done|].
  rewrite filter_cons. destruct (decide (¬ about_document document_id e)).
  - rewrite filter_cons_False by done. exact IH.
  - exact IH.
Qed.

Lemma NoDup_ids_filter (P : IndexEntry -> Prop) `{!∀ e, Decision (P e)}
  (c : list IndexEntry) :
  NoDup (entry_id <$> c) → NoDup (entry_id <$> filter P c).
Proof.
  intros Hnd.
  set (w := {| collection := c; next_id := S (list_sum (entry_id <$> c));
               _vector_store := false; embeddings_cached := false;
               faults := []; log := []; llm_prompts := [] |}).
  assert (wf_index w) as Hwf.
  { split; [done|]. intros e He. simpl.
    assert (entry_id e ∈ entry_id <$> c) as Hin
      by (apply list_elem_of_fmap; eauto).
    clear -Hin. induction (entry_id <$> c) as [|x l IH].
    - by apply elem_of_nil in Hin.
    - simpl. apply elem_of_cons in Hin as [->|Hin]; [lia|].
      specialize (IH Hin). lia. }
  apply (wf_index_filter w P) in Hwf. exact (proj1 Hwf).
Qed.

(** C3, as amended.  For a non-empty [document_id] and an index with unique
    entry ids, [delete_document_from_vectorstore] either returns [None] or
    raises [RetryError], and it returns when no fault is scheduled.  When it
    returns, exactly the entries whose [document_id] metadata equals the
    given id are gone, whoever owns them, and their number is in the last
    log record, a warning when there were none; the value returned is never
    a count.  A second call for the same id leaves the index as the first
    left it and, when it returns, logs that no chunks were found.  When the
    call raises, the index is unchanged. *)
Theorem delete_document_from_vectorstore_exact (E : Env)
  (document_id : string) (w : World) :
  document_id ≠ "" →
  wf_index w →
  ∀ r w', delete_document_from_vectorstore E document_id w = (r, w') →
    (r = Ok PyNone ∨ r = Raise RetryError) ∧
    (faults w = [] → r = Ok PyNone) ∧
    (r = Raise RetryError → collection w' = collection w) ∧
    (r = Ok PyNone →
       collection w'
       = filter (fun e => ¬ about_document document_id e) (collection w) ∧
       last (log w')
       = Some (deletion_record document_id
                 (length (filter (about_document document_id) (collection w)))) ∧
       ∀ r2 w2, delete_document_from_vectorstore E document_id w' = (r2, w2) →
         collection w2 = collection w' ∧
         (r2 = Ok PyNone → last (log w2) = Some (deletion_record document_id 0))).
Proof.
  intros Hne [Hnd _] r w' Hcall.
  pose proof (hoare_delete_document E document_id _ _ _ Hne Hnd w
                (index_is_self w)) as Hspec.
  rewrite Hcall in Hspec. simpl in Hspec.
  split; [|split; [|split]].
  - destruct r as [v|e]; [left | right]; destruct Hspec as [-> _]; done.
  - intros Hf. destruct (delete_no_faults E document_id w Hf) as (w2 & Hd & _).
    congruence.
  - intros ->. by destruct Hspec as (_ & -> & _).
  - intros ->. destruct Hspec as (_ & (Hc & Hn & Hp) & Hlog).
    split; [done|]. split; [done|].
    intros r2 w2 Hcall2.
    assert (NoDup (entry_id <$> collection w')) as Hnd'
      by (rewrite Hc; by apply NoDup_ids_filter).
    pose proof (hoare_delete_document E document_id _ _ _ Hne Hnd' w'
                  (index_is_self w')) as Hspec2.
    rewrite Hcall2 in Hspec2. simpl in Hspec2.
    assert (filter (about_document document_id) (collection w') = []) as Hnone
      by (rewrite Hc; apply filter_not_about_twice).
    destruct r2 as [v2|e2].
    + destruct Hspec2 as (-> & (Hc2 & _) & Hlog2). split.
      * rewrite Hc2. apply filter_all. intros e He Ha.
        assert (e ∈ filter (about_document document_id) (collection w')) as Hin
          by (by apply list_elem_of_filter).
        rewrite Hnone in Hin. by apply elem_of_nil in Hin.
      * intros _. by rewrite Hlog2, Hnone.
    + destruct Hspec2 as (_ & Hc2 & _). split; [done|]. intros [=].
Qed.

(** An empty [document_id] is refused: nothing is removed. *)
Lemma delete_empty_document_id (E : Env) (w : World) :
  delete_document_from_vectorstore E "" w
  = (Ok PyNone,
     with_log (log w ++ [{| levelname := WARNING;
                            message := "No document_id provided for deletion" |}])
       w).
Proof. reflexivity. Qed.

(** ** Ingestion *)

Lemma hoare_add_documents (documents : list Document) c n p :
  hoare (index_is c n p) (Chroma.add_documents documents)
    (fun r w =>
       match r with
       | Ok _ =>
           index_is (c ++ Chroma.new_entries n documents)
             (n + length documents)%nat p w
       | Raise _ => index_is c n p w
       end).
Proof.
  unfold Chroma.add_documents.
  eapply hoare_bind; [by apply hoare_external | | ]; simpl.
  - intros _ w (<- & <- & <-). done.
  - done.
Qed.

Lemma hoare_count (P : World -> Prop) `{!Stable P} :
  hoare P Chroma.count (fun _ w => P w).
Proof.
  unfold Chroma.count.
  eapply hoare_bind; [by apply hoare_external | | ]; simpl.
  - intros _ w Hw. exact Hw.
  - done.
Qed.

(** One attempt to add a non-empty batch: the whole batch is appended under
    fresh ids when the attempt returns, nothing is when it raises. *)
Lemma hoare_add_attempt (E : Env) (chunks : list Chunk) c n p :
  chunks ≠ [] →
  hoare (index_is c n p) (add_documents_to_vectorstore_attempt E chunks)
    (fun r w =>
       match r with
       | Ok _ =>
           index_is (c ++ Chroma.new_entries n (to_document <$> chunks))
             (n + length chunks)%nat p w
       | Raise _ => index_is c n p w
       end).
Proof.
  intros Hne. unfold add_documents_to_vectorstore_attempt.
  destruct chunks as [|chunk chunks]; [done|].
  set (batch := chunk :: chunks).
  set (Grown := index_is (c ++ Chroma.new_entries n (to_document <$> batch))
                  (n + length batch)%nat p).
  assert (Stable Grown) as Hst by apply _.
  eapply hoare_try with (R := fun r w =>
    match r with Ok _ => Grown w | Raise _ => index_is c n p w end);
    [| done |].
  - eapply hoare_bind with (R := fun _ w => index_is c n p w);
      [by apply hoare_get_vector_store | | done].
    intros ?.
    eapply hoare_bind; [apply hoare_add_documents | | done].
    intros ?. simpl. rewrite length_fmap. fold Grown.
    apply hoare_logger_then; [done|].
    eapply hoare_bind with (R := fun r w => Grown w ∧ ∃ u, r = Ok u).
    + eapply hoare_try with (R := fun _ w => Grown w).
      * eapply hoare_bind; [by apply hoare_count | | done].
        intros ?. by apply hoare_logger_inv.
      * intros [] w Hw. eauto.
      * intros e. apply hoare_logger_end; [done|]. eauto.
    + intros ?. apply hoare_ret. by intros w [Hw _].
    + intros e w [_ [u [=]]].
  - intros e. eapply hoare_bind; [by apply hoare_logger | | ].
    + intros ?. apply hoare_raise. by intros w [_ Hw].
    + by intros e' w [? _].
Qed.

Lemma hoare_add_documents_to_vectorstore (E : Env) (chunks : list Chunk) c n p :
  chunks ≠ [] →
  hoare (index_is c n p) (add_documents_to_vectorstore E chunks)
    (fun r w =>
       match r with
       | Ok _ =>
           index_is (c ++ Chroma.new_entries n (to_document <$> chunks))
             (n + length chunks)%nat p w
       | Raise _ => index_is c n p w
       end).
Proof.
  intros Hne. unfold add_documents_to_vectorstore.
  eapply hoare_conseq;
    [apply (hoare_retry (index_is c n p) _
              (fun _ w =>
                 index_is (c ++ Chroma.new_entries n (to_document <$> chunks))
                   (n + length chunks)%nat p w) 3) | done |].
  - eapply hoare_conseq; [by apply hoare_add_attempt | done |].
    by intros [v|e] w Hw.
  - intros [v|e] w; simpl; tauto.
Qed.

(** Logging as the last step, with the record it leaves. *)
Lemma hoare_logger_end_last (P : World -> Prop) `{!Stable P} (l : level)
  (m : string) (Q : result unit -> World -> Prop) :
  (∀ w, P w → last_level l w → Q (Ok tt) w) → hoare P (logger l m) Q.
Proof.
  intros HQ w Hw. apply HQ; [by apply stable_log|].
  eexists. split; [apply last_snoc|done].
Qed.

(** Indexing the extracted chunks always returns. *)
Lemma hoare_index_text_chunks (E : Env) (document_id : string)
  (text_chunks : list Chunk) c n p :
  hoare (index_is c n p) (index_text_chunks E document_id text_chunks)
    (fun r w => r = Ok tt ∧ ingested c n p w).
Proof.
  unfold index_text_chunks. destruct text_chunks as [|chunk chunks].
  { apply hoare_logger_end_last; [apply _|].
    intros w Hw Hlast. split; [done|]. left. auto. }
  set (batch := chunk :: chunks).
  apply hoare_logger_then; [apply _|].
  eapply hoare_try with (R := fun r w =>
    match r with
    | Ok u => u = tt ∧ ingested c n p w
    | Raise _ => index_is c n p w
    end).
  - eapply hoare_bind;
      [apply (hoare_add_documents_to_vectorstore E batch c n p); done | | done].
    intros ?. simpl.
    apply hoare_logger_end_last; [apply _|].
    intros w Hw Hlast. split; [done|]. right. exists batch. done.
  - by intros [] w [_ Hw].
  - intros e. apply hoare_logger_end_last; [apply _|].
    intros w Hw Hlast. split; [done|]. left. auto.
Qed.

(** The three extractors catch everything: they return a list of chunks,
    empty after a failure, and do not touch the index. *)
Lemma hoare_process_pdf (P : World -> Prop) `{!Stable P} (E : Env)
  (file_path document_id filename user_id : string) :
  hoare P (process_pdf E file_path document_id filename user_id)
    (fun r w => P w ∧ ∃ chunks, r = Ok chunks).
Proof.
  unfold process_pdf.
  eapply hoare_try with (R := fun _ w => P w).
  - by apply hoare_lift.
  - eauto.
  - intros e. apply hoare_logger_then; [done|]. apply hoare_ret. eauto.
Qed.

Lemma hoare_process_docx (P : World -> Prop) `{!Stable P} (E : Env)
  (file_path document_id filename user_id : string) :
  hoare P (process_docx E file_path document_id filename user_id)
    (fun r w => P w ∧ ∃ chunks, r = Ok chunks).
Proof.
  unfold process_docx.
  eapply hoare_try with (R := fun _ w => P w).
  - by apply hoare_lift.
  - eauto.
  - intros e. apply hoare_logger_then; [done|]. apply hoare_ret. eauto.
Qed.

Lemma hoare_process_txt (P : World -> Prop) `{!Stable P} (E : Env)
  (file_path document_id filename user_id : string) :
  hoare P (process_txt E file_path document_id filename user_id)
    (fun r w => P w ∧ ∃ chunks, r = Ok chunks).
Proof.
  unfold process_txt.
  eapply hoare_try with (R := fun _ w => P w).
  - eapply hoare_bind with (R := fun _ w => P w); [ | | done].
    + destruct (read_text E file_path utf_8) as [content|e].
      * by apply hoare_ret.
      * destruct (is_UnicodeDecodeError e); [|by apply hoare_raise].
        eapply hoare_bind with (R := fun _ w => P w);
          [by apply hoare_lift | | done].
        intros ?. apply hoare_logger_then; [done|]. by apply hoare_ret.
    + intros content. destruct (negb _).
      * apply hoare_logger_then; [done|]. by apply hoare_ret.
      * by apply hoare_lift.
  - eauto.
  - intros e. apply hoare_logger_then; [done|]. apply hoare_ret. eauto.
Qed.

Lemma hoare_process_document (E : Env)
  (file_path document_id filename user_id : string) c n p :
  hoare (index_is c n p)
    (process_document E file_path document_id filename user_id)
    (fun r w => r = Ok tt ∧ ingested c n p w).
Proof.
  unfold process_document.
  apply hoare_logger_then; [apply _|].
  assert (∀ extract : M (list Chunk),
            hoare (index_is c n p) extract
              (fun r w => index_is c n p w ∧ ∃ chunks, r = Ok chunks) →
            hoare (index_is c n p)
              (text_chunks <- extract;;
               index_text_chunks E document_id text_chunks)
              (fun r w => r = Ok tt ∧ ingested c n p w)) as Hstep.
  { intros extract Hex.
    eapply hoare_bind; [exact Hex | | ].
    - intros chunks. eapply hoare_conseq;
        [apply hoare_index_text_chunks | by intros w [Hw _] | done].
    - intros e w [_ [chunks [=]]]. }
  eapply hoare_try with (R := fun r w => r = Ok tt ∧ ingested c n p w);
    [| done |].
  - destruct (Py.endswith file_path ".pdf");
      [apply Hstep; by apply hoare_process_pdf|].
    destruct (Py.endswith file_path ".docx");
      [apply Hstep; by apply hoare_process_docx|].
    destruct (Py.endswith file_path ".txt");
      [apply Hstep; by apply hoare_process_txt|].
    apply hoare_logger_end_last; [apply _|].
    intros w Hw Hlast. split; [done|]. left. auto.
  - intros e. intros w [[=] _].
Qed.

(** C5. [process_document] never raises: for every file path, document id,
    file name and owner, and in every world (whatever the readers and the
    vector store do), it returns [None].  Either nothing has been indexed,
    and the last record of the log is a warning or an error (unsupported
    type, failed or empty extraction, failed add), or the index has grown
    by one whole batch of chunks and the last record reports the success:
    a failure is caught and logged, and shows only in that the number of
    indexed chunks has not grown. *)
Theorem process_document_never_raises (E : Env)
  (file_path document_id filename user_id : string) (w : World) :
  ∃ w',
    process_document E file_path document_id filename user_id w = (Ok tt, w') ∧
    ((collection w' = collection w ∧
      (last_level WARNING w' ∨ last_level ERROR w')) ∨
     (∃ chunks, chunks ≠ [] ∧
        collection w'
        = collection w ++ Chroma.new_entries (next_id w) (to_document <$> chunks) ∧
        last_level INFO w'))
    ∧ (length (collection w) ≤ length (collection w'))%nat.
Proof.
  destruct (hoare_process_document E file_path document_id filename user_id
              _ _ _ w (index_is_self w)) as [Hr Hing].
  destruct (process_document E file_path document_id filename user_id w)
    as [r w'].
  simpl in *. subst r. exists w'. split; [done|].
  destruct Hing as [((Hc & _) & Hlog)|(chunks & Hne & (Hc & _) & Hlog)].
  - split; [by left|]. by rewrite Hc.
  - split; [right; eauto|]. rewrite Hc, length_app. lia.
Qed.

(** ** The properties at sample inputs *)

Lemma wf_index_two_owners : wf_index Sample.two_owners.
Proof.
  split.
  - simpl. apply NoDup_cons. split; [|apply NoDup_singleton].
    intros Hin. apply elem_of_cons in Hin as [[=]|Hin].
    by apply elem_of_nil in Hin.
  - intros e He. simpl in *.
    repeat (apply elem_of_cons in He as [->|He]; [simpl; lia|]).
    by apply elem_of_nil in He.
Qed.

Lemma query_vectorstore_owner_isolation_witness :
  "A" ≠ "" ∧
  ∃ docs w',
    query_vectorstore Sample.E "invoice" 3 (Some "A") Sample.two_owners
    = (Ok docs, w') ∧
    (∀ d, d ∈ docs →
       d ∈ entry_document <$> collection Sample.two_owners ∧ owned_by "A" d) ∧
    (∀ d other, d ∈ docs → metadata d !! "user_id" = Some other →
       other = MStr "A").
Proof.
  split; [done|].
  apply (query_vectorstore_owner_isolation Sample.E "invoice" 3 "A"
           Sample.two_owners).
  done.
Defined.

Lemma query_documents_no_documents_witness :
  query_documents Sample.E "invoice" 3 (Some "C") Sample.two_owners
  = (Ok ("No relevant documents found to answer your question.", []),
     (query_vectorstore Sample.E "invoice" 3 (Some "C") Sample.two_owners).2)
  ∧ llm_prompts
      (query_vectorstore Sample.E "invoice" 3 (Some "C") Sample.two_owners).2
    = llm_prompts Sample.two_owners.
Proof.
  apply (query_documents_no_documents Sample.E "invoice" 3 (Some "C")
           Sample.two_owners).
  vm_compute. reflexivity.
Defined.

Lemma query_vectorstore_degrades_witness :
  ∃ w', query_vectorstore Sample.E "invoice" 3 (Some "A") Sample.failing
        = (Ok [], w').
Proof.
  apply (proj2 (query_vectorstore_degrades Sample.E "invoice" 3 (Some "A")
                  Sample.failing)
           (ExternalError "similarity_search") Sample.two_owners).
  vm_compute. reflexivity.
Defined.

Lemma query_vectorstore_unscoped_witness :
  ∃ docs w',
    query_vectorstore Sample.E "invoice" 3 (Some "") Sample.two_owners
    = (Ok docs, w') ∧
    docs = Chroma.nearest Sample.E "invoice" 3 None
             (entry_document <$> collection Sample.two_owners) ∧
    (Z.of_nat (length (collection Sample.two_owners)) <= 3 →
     ∀ d, d ∈ entry_document <$> collection Sample.two_owners → d ∈ docs).
Proof.
  apply (query_vectorstore_unscoped Sample.E "invoice" 3 (Some "")
           Sample.two_owners).
  - reflexivity.
  - split; reflexivity.
  - lia.
  - reflexivity.
Defined.

Example query_unscoped_returns_both_owners :
  (query_vectorstore Sample.E "invoice" 3 None Sample.two_owners).1
  = Ok [Sample.invoice_A; Sample.invoice_B].
Proof. vm_compute. reflexivity. Qed.

(** C3, as stated, fails: deleting the one entry of document ["d1"] returns
    [None], not the count 1; and for the empty id the entry whose
    [document_id] is empty is not removed. *)
Lemma delete_document_returns_no_count :
  length (filter (about_document "d1") (collection Sample.two_owners)) = 1%nat
  ∧ (delete_document_from_vectorstore Sample.E "d1" Sample.two_owners).1
    = Ok PyNone
  ∧ (delete_document_from_vectorstore Sample.E "d1" Sample.two_owners).1
    ≠ Ok (PyInt 1)
  ∧ length (filter (about_document "") (collection Sample.unnamed)) = 1%nat
  ∧ collection (delete_document_from_vectorstore Sample.E "" Sample.unnamed).2
    = collection Sample.unnamed.
Proof.
  split; [by vm_compute|]. split; [by vm_compute|].
  split; [by vm_compute|]. split; by vm_compute.
Qed.

Lemma delete_document_from_vectorstore_exact_witness :
  "d1" ≠ "" ∧ wf_index Sample.two_owners ∧
  ((delete_document_from_vectorstore Sample.E "d1" Sample.two_owners).1
   = Ok PyNone →
   collection (delete_document_from_vectorstore Sample.E "d1" Sample.two_owners).2
   = filter (fun e => ¬ about_document "d1" e) (collection Sample.two_owners)).
Proof.
  split; [done|]. split; [exact wf_index_two_owners|].
  intros Hr.
  destruct (delete_document_from_vectorstore_exact Sample.E "d1"
              Sample.two_owners ltac:(done) wf_index_two_owners _ _
              (surjective_pairing _)) as (_ & _ & _ & Hok).
  by destruct (Hok Hr) as (Hc & _).
Defined.

Example delete_twice :
  let w1 := (delete_document_from_vectorstore Sample.E "d1" Sample.two_owners).2 in
  let w2 := (delete_document_from_vectorstore Sample.E "d1" w1).2 in
  entry_id <$> collection w1 = [1%nat] ∧
  entry_id <$> collection w2 = [1%nat] ∧
  message <$> log w2
  = ["Deleted 1 chunks for document d1"; "No chunks found for document d1"].
Proof. vm_compute. done. Qed.

Example process_document_pdf :
  let w := (process_document Sample.E "d1_a.pdf" "d1" "a.pdf" "A"
              Sample.empty_world).2 in
  (page_content ∘ entry_document) <$> collection w = ["Alpha."; "Beta."; "Gamma."]
  ∧ (fun e => metadata (entry_document e) !! "page") <$> collection w
    = [Some (MStr "1"); Some (MStr "2"); Some (MStr "3")].
Proof. vm_compute. done. Qed.

(** ** Chunk metadata *)

Lemma chunk_metadata_page (E : Env) (page_num : option Z)
  (chunk document_id filename user_id : string) :
  chunk_metadata_of E page_num chunk document_id filename user_id !! "page"
  = Some (MStr (match page_num with
                | Some n => Py.str_int n
                | None => "0"
                end)).
Proof. unfold chunk_metadata_of. by simplify_map_eq. Qed.

Lemma create_chunks_loop_page (E : Env) (units text_by_page : list (option Z * string))
  (document_id filename user_id : string) (acc chunks : list Chunk) :
  text_by_page ⊆ units →
  (∀ c, c ∈ acc → page_from units c) →
  create_chunks_loop E text_by_page document_id filename user_id acc = Ok chunks →
  ∀ c, c ∈ chunks → page_from units c.
Proof.
  revert acc. induction text_by_page as [|[page_num page_text] rest IH];
    intros acc Hsub Hacc Hloop; simpl in Hloop.
  - by injection Hloop as <-.
  - destruct (TextSplitter.split_text CHUNK_SIZE CHUNK_OVERLAP page_text)
      as [pieces|e]; [|done].
    simpl in Hloop. eapply IH; [| |exact Hloop].
    + intros u Hu. apply Hsub. by right.
    + intros c Hc. apply elem_of_app in Hc as [Hc|Hc]; [by apply Hacc|].
      apply list_elem_of_fmap in Hc as (piece & -> & _).
      exists page_num, page_text. split; [apply Hsub; by left|].
      apply chunk_metadata_page.
Qed.

(** The chunks the loop adds are, unit by unit and in the order of the
    units, the pieces the splitter returns for the text of the unit, each
    with the metadata built for the label of that unit. *)
Lemma create_chunks_loop_by_unit (E : Env)
  (text_by_page : list (option Z * string))
  (document_id filename user_id : string) :
  ∀ acc chunks,
    create_chunks_loop E text_by_page document_id filename user_id acc
    = Ok chunks →
    ∃ by_unit,
      chunks = acc ++ concat by_unit ∧
      Forall2
        (fun unit made =>
           TextSplitter.split_text CHUNK_SIZE CHUNK_OVERLAP unit.2
           = Ok (text <$> made) ∧
           ∀ c, c ∈ made →
             chunk_metadata c
             = chunk_metadata_of E unit.1 (text c) document_id filename user_id)
        text_by_page by_unit.
Proof.
  induction text_by_page as [|[page_num page_text] rest IH];
    intros acc chunks Hloop; cbn [create_chunks_loop] in Hloop.
  - injection Hloop as <-. exists []. simpl. rewrite app_nil_r.
    split; [done|]. constructor.
  - destruct (TextSplitter.split_text CHUNK_SIZE CHUNK_OVERLAP page_text)
      as [pieces|e] eqn:Hsplit; [|done].
    simpl in Hloop.
    destruct (IH _ _ Hloop) as (by_unit & -> & Hall).
    eexists (_ :: by_unit). split; [by rewrite <- app_assoc|].
    constructor; [|done]. split.
    + simpl. rewrite <- list_fmap_compose. by rewrite list_fmap_id.
    + intros c Hc. by apply list_elem_of_fmap in Hc as (piece & -> & _).
Qed.

Lemma create_chunks_by_unit (E : Env)
  (text_by_page : list (option Z * string))
  (document_id filename user_id : string) (chunks : list Chunk) :
  create_chunks_with_metadata E text_by_page document_id filename user_id
  = Ok chunks →
  ∃ by_unit,
    chunks = concat by_unit ∧
    Forall2
      (fun unit made =>
         TextSplitter.split_text CHUNK_SIZE CHUNK_OVERLAP unit.2
         = Ok (text <$> made) ∧
         ∀ c, c ∈ made →
           chunk_metadata c
           = chunk_metadata_of E unit.1 (text c) document_id filename user_id)
      text_by_page by_unit.
Proof.
  intros Hc.
  destruct (create_chunks_loop_by_unit E text_by_page document_id filename
              user_id [] chunks Hc) as (by_unit & -> & Hall).
  by exists by_unit.
Qed.

(** C6. Every chunk produced by the chunker carries a [page] metadata
    field that is a string, never an absent value.  The chunks are, unit by
    unit and in the order of the units, the pieces cut from the text of the
    unit, and the [page] of every chunk cut from a unit is the label of
    that very unit, written as a decimal string, when the unit has a
    label, and the sentinel ["0"] when it has none. *)
Theorem create_chunks_page_is_string (E : Env)
  (text_by_page : list (option Z * string))
  (document_id filename user_id : string) (chunks : list Chunk) :
  create_chunks_with_metadata E text_by_page document_id filename user_id
  = Ok chunks →
  (∀ c, c ∈ chunks → ∃ page, chunk_metadata c !! "page" = Some (MStr page)) ∧
  ∃ by_unit,
    chunks = concat by_unit ∧
    Forall2
      (fun unit made =>
         TextSplitter.split_text CHUNK_SIZE CHUNK_OVERLAP unit.2
         = Ok (text <$> made) ∧
         ∀ c, c ∈ made →
           chunk_metadata c !! "page"
           = Some (MStr (match unit.1 with
                         | Some n => Py.str_int n
                         | None => "0"
                         end)))
      text_by_page by_unit.
Proof.
  intros Hc.
  destruct (create_chunks_by_unit E _ _ _ _ _ Hc) as (by_unit & -> & Hall).
  assert (Forall2
            (fun unit made =>
               TextSplitter.split_text CHUNK_SIZE CHUNK_OVERLAP unit.2
               = Ok (text <$> made) ∧
               ∀ c, c ∈ made →
                 chunk_metadata c !! "page"
                 = Some (MStr (match unit.1 with
                               | Some n => Py.str_int n
                               | None => "0"
                               end)))
            text_by_page by_unit) as Hpages.
  { eapply Forall2_impl; [exact Hall|].
    intros unit made [Hsplit Hmade]. split; [done|].
    intros c Hin. rewrite (Hmade c Hin). apply chunk_metadata_page. }
  split; [|by exists by_unit].
  intros c Hin.
  apply list_elem_of_In, in_concat in Hin as (made & Hmade & Hin).
  apply list_elem_of_In in Hmade, Hin.
  apply list_elem_of_lookup in Hmade as [i Hi].
  destruct (Forall2_lookup_r _ _ _ _ _ Hpages Hi) as (unit & _ & _ & Hpage).
  eexists. by apply Hpage.
Qed.

Lemma unlabelled_unit_page (E : Env)
  (unit_text document_id filename user_id : string) (chunks : list Chunk) :
  create_chunks_with_metadata E [(None, unit_text)] document_id filename user_id
  = Ok chunks →
  ∀ c, c ∈ chunks → chunk_metadata c !! "page" = Some (MStr "0").
Proof.
  intros Hc c Hin.
  destruct (create_chunks_loop_page E [(None, unit_text)] [(None, unit_text)]
              document_id filename user_id [] chunks) with (c := c)
    as (pn & pt & Hu & Hpage); [done| |exact Hc|exact Hin|].
  - intros c' Hc'. by apply elem_of_nil in Hc'.
  - apply list_elem_of_singleton in Hu. by injection Hu as -> ->.
Qed.

(** The units of DOCX and plain-text files (scraped sites are saved as
    plain text) have no label: all their chunks carry [page = "0"]. *)
Lemma process_docx_page_sentinel (E : Env)
  (file_path document_id filename user_id : string) (w w' : World)
  (chunks : list Chunk) :
  process_docx E file_path document_id filename user_id w = (Ok chunks, w') →
  ∀ c, c ∈ chunks → chunk_metadata c !! "page" = Some (MStr "0").
Proof.
  unfold process_docx, try_except, lift, bind, logger, ret. simpl.
  destruct (docx_Document E file_path) as [paragraphs|e]; simpl.
  - destruct (create_chunks_with_metadata _ _ _ _ _) as [cs|e] eqn:Hc.
    + intros [= <- _] c Hin.
      by apply (unlabelled_unit_page _ _ _ _ _ _ Hc).
    + intros [= <- _] c Hin. by apply elem_of_nil in Hin.
  - intros [= <- _] c Hin. by apply elem_of_nil in Hin.
Qed.

Lemma process_txt_page_sentinel (E : Env)
  (file_path document_id filename user_id : string) (w w' : World)
  (chunks : list Chunk) :
  process_txt E file_path document_id filename user_id w = (Ok chunks, w') →
  ∀ c, c ∈ chunks → chunk_metadata c !! "page" = Some (MStr "0").
Proof.
  assert (∀ content w0,
    (if negb (Py.truthy_str (Py.strip content))
     then
       logger WARNING ("No content found in text file: " +:+ filename);;
       ret []
     else
       lift (create_chunks_with_metadata E [(None, content)] document_id
               filename user_id)) w0 = (Ok chunks, w') →
    ∀ c, c ∈ chunks → chunk_metadata c !! "page" = Some (MStr "0")) as Hrest.
  { intros content w0. destruct (negb _).
    - unfold bind, logger, ret. simpl. intros [= <- _] c Hin.
      by apply elem_of_nil in Hin.
    - unfold lift. intros [= Hc _] c Hin.
      by apply (unlabelled_unit_page _ _ _ _ _ _ Hc). }
  unfold process_txt, try_except. unfold bind at 1.
  destruct (read_text E file_path utf_8) as [content|e]; simpl.
  - destruct (_ w) as [[cs|e] w1] eqn:Hbody.
    + intros [= <- <-]. by eapply Hrest.
    + unfold bind, logger, ret. simpl. intros [= <- _] c Hin.
      by apply elem_of_nil in Hin.
  - destruct (is_UnicodeDecodeError e).
    + unfold bind at 1, lift at 1.
      destruct (read_text E file_path latin_1) as [content|e1]; simpl.
      * unfold bind at 1, logger at 1, ret at 1. simpl.
        destruct (_ (with_log _ w)) as [[cs|e2] w1] eqn:Hbody.
        -- intros [= <- <-]. by eapply Hrest.
        -- unfold bind, logger, ret. simpl. intros [= <- _] c Hin.
           by apply elem_of_nil in Hin.
      * unfold bind, logger, ret. simpl. intros [= <- _] c Hin.
        by apply elem_of_nil in Hin.
    + unfold raise, bind, logger, ret. simpl. intros [= <- _] c Hin.
      by apply elem_of_nil in Hin.
Qed.

(** ** The text splitter: windows and sizes *)

Lemma lstrip_length (s : string) :
  (String.length (Py.lstrip s) ≤ String.length s)%nat.
Proof.
  induction s as [|c s IH]; simpl; [done|].
  destruct (Py.isspace c); simpl; lia.
Qed.

Lemma rstrip_length (s : string) :
  (String.length (Py.rstrip s) ≤ String.length s)%nat.
Proof.
  induction s as [|c s IH]; simpl; [done|].
  destruct (Py.rstrip s) as [|c' s'].
  - destruct (Py.isspace c); simpl; lia.
  - simpl in *. lia.
Qed.

Lemma strip_len (s : string) : Py.len (Py.strip s) <= Py.len s.
Proof.
  unfold Py.len, Py.strip.
  pose proof (rstrip_length (Py.lstrip s)). pose proof (lstrip_length s). lia.
Qed.

Lemma concat_str_app (a b : list string) :
  concat_str (a ++ b) = concat_str a +:+ concat_str b.
Proof.
  induction a as [|x a IH]; [done|].
  simpl. unfold concat_str in *. simpl. by rewrite IH, string_app_assoc.
Qed.

Lemma concat_str_cons (x : string) (a : list string) :
  concat_str (x :: a) = x +:+ concat_str a.
Proof. reflexivity. Qed.

Lemma join_empty_sep (parts : list string) :
  Py.join "" parts = concat_str parts.
Proof.
  unfold Py.join. induction parts as [|x parts IH]; [done|].
  rewrite concat_str_cons, <- IH. simpl.
  destruct parts as [|y parts]; [by rewrite string_app_nil_r|]. done.
Qed.

Lemma total_len_app (a b : list string) :
  total_len (a ++ b) = total_len a + total_len b.
Proof.
  induction a as [|x a IH]; [done|].
  simpl. unfold total_len in *. simpl. rewrite IH. lia.
Qed.

Lemma total_len_concat (a : list string) :
  Py.len (concat_str a) = total_len a.
Proof.
  induction a as [|x a IH]; [done|].
  rewrite concat_str_cons, len_app, IH. done.
Qed.

Lemma total_len_nonneg (a : list string) : 0 <= total_len a.
Proof.
  induction a as [|x a IH]; [done|].
  unfold total_len in *. simpl. pose proof (len_nonneg x). lia.
Qed.

Lemma total_len_zero_concat (a : list string) :
  total_len a <= 0 → concat_str a = "".
Proof.
  intros H. rewrite <- total_len_concat in H.
  destruct (concat_str a); [done|]. unfold Py.len in H. simpl in H. lia.
Qed.

Lemma suffix_of_refl (s : string) : suffix_of s s.
Proof. by exists "". Qed.

Lemma suffix_of_empty (s : string) : suffix_of "" s.
Proof. exists s. by rewrite string_app_nil_r. Qed.

Lemma suffix_of_app (a b : string) : suffix_of b (a +:+ b).
Proof. by exists a. Qed.

Lemma string_app_eq_nil (a b : string) : "" = a +:+ b → a = "" ∧ b = "".
Proof.
  destruct a; [intros H; split; [done | symmetry; exact H]|].
  rewrite string_app_cons. done.
Qed.

Lemma chained_weaken (overlap : Z) (prev : string) (windows : list Window) :
  chained overlap "" windows → chained overlap prev windows.
Proof.
  destruct windows as [|win rest]; [done|].
  simpl. intros ([before Hb] & Hlen & Hrest). split; [|done].
  apply string_app_eq_nil in Hb as [_ ->]. apply suffix_of_empty.
Qed.

Lemma chained_app (overlap : Z) (prev : string) (a b : list Window) :
  chained overlap prev a → chained overlap "" b → chained overlap prev (a ++ b).
Proof.
  revert prev. induction a as [|win a IH]; intros prev Ha Hb.
  - by apply chained_weaken.
  - simpl in *. destruct Ha as (? & ? & ?). auto.
Qed.

Lemma chunks_of_app (a b : list Window) :
  chunks_of (a ++ b) = chunks_of a ++ chunks_of b.
Proof. unfold chunks_of. apply omap_app. Qed.

Lemma fresh_text_app (a b : list Window) :
  fresh_text (a ++ b) = fresh_text a +:+ fresh_text b.
Proof. unfold fresh_text. by rewrite fmap_app, concat_str_app. Qed.

Lemma join_docs_window (kept fresh : list string) :
  option_list (TextSplitter._join_docs (kept ++ fresh) "")
  = chunks_of [(concat_str kept, concat_str fresh)].
Proof.
  unfold TextSplitter._join_docs, chunks_of, chunk_of_window, window_text.
  simpl. rewrite join_empty_sep, concat_str_app.
  by destruct (decide _).
Qed.

Lemma startswith_drop (sep text : string) :
  Py.startswith sep text = true →
  text = sep +:+ string_drop (String.length sep) text ∧
  (String.length sep ≤ String.length text)%nat.
Proof.
  unfold Py.startswith. revert text.
  induction sep as [|a sep IH]; intros text Hp; [split; [done|simpl; lia]|].
  destruct text as [|b text]; [done|]. simpl in Hp.
  destruct (Ascii.ascii_dec a b) as [->|]; [|done].
  destruct (IH text Hp) as [Heq Hlen]. simpl.
  rewrite string_app_cons, <- Heq. split; [done|lia].
Qed.

(** Gluing the separator back in front of every piece of [re.split]
    restores the text. *)
Lemma re_split_go_concat (sep text : string) :
  sep ≠ "" →
  ∀ skip cur,
    (skip ≤ String.length text)%nat →
    concat_str ((fun piece => sep +:+ piece)
                <$> TextSplitter.re_split_go sep text skip cur)
    = sep +:+ cur +:+ string_drop skip text.
Proof.
  intros Hsep. induction text as [|c r IH]; intros skip cur Hskip.
  - simpl in Hskip. assert (skip = 0%nat) as -> by lia. simpl.
    unfold concat_str. simpl. by rewrite !string_app_nil_r.
  - destruct skip as [|k].
    + cbn [TextSplitter.re_split_go string_drop].
      destruct (Py.startswith sep (String c r)) eqn:Hp.
      * apply startswith_drop in Hp as [Heq Hlen].
        rewrite fmap_cons, concat_str_cons, IH by (simpl in Hlen; lia).
        rewrite string_app_assoc. f_equal. f_equal.
        destruct sep as [|a sep]; [done|].
        etrans; [|symmetry; exact Heq]. f_equal. simpl.
        rewrite Nat.sub_0_r. reflexivity.
      * rewrite IH by lia. simpl. by rewrite string_app_assoc.
    + cbn [TextSplitter.re_split_go string_drop]. apply IH. simpl in Hskip. lia.
Qed.

Lemma concat_str_filter_nonempty (parts : list string) :
  concat_str (filter (fun s => s ≠ "") parts) = concat_str parts.
Proof.
  induction parts as [|x parts IH]; [done|].
  rewrite filter_cons. destruct (decide (x ≠ "")) as [Hx|Hx].
  - rewrite (concat_str_cons x parts), (concat_str_cons x (filter _ parts)).
    by rewrite IH.
  - apply dec_stable in Hx. subst x. rewrite (concat_str_cons "" parts).
    exact IH.
Qed.

Lemma concat_str_chars (text : string) : concat_str (Py.chars text) = text.
Proof.
  induction text as [|c r IH]; [done|].
  cbn [Py.chars]. rewrite concat_str_cons, IH. done.
Qed.

Lemma chars_length (text : string) :
  Forall (fun s => Py.len s = 1) (Py.chars text).
Proof. induction text as [|c r IH]; simpl; by constructor. Qed.

(** The pieces of one level, in order, make up the text. *)
Lemma split_text_with_regex_concat (text separator : string) :
  concat_str (TextSplitter._split_text_with_regex text separator) = text.
Proof.
  unfold TextSplitter._split_text_with_regex.
  rewrite concat_str_filter_nonempty.
  destruct separator as [|a sep]; simpl; [apply concat_str_chars|].
  pose proof (re_split_go_concat (String a sep) text ltac:(done) 0 ""
                ltac:(lia)) as Hglue.
  unfold TextSplitter.re_split.
  destruct (TextSplitter.re_split_go (String a sep) text 0 "")
    as [|first others].
  - unfold concat_str in Hglue. simpl in Hglue. done.
  - rewrite fmap_cons, concat_str_cons in Hglue. simpl in Hglue.
    rewrite concat_str_cons.
    rewrite string_app_assoc in Hglue.
    apply (String.app_inj (String a sep)) in Hglue. exact Hglue.
Qed.

Section Sized.

Variables (size overlap : Z).
Hypothesis size_pos : 1 < size.
Hypothesis overlap_nonneg : 0 <= overlap.

(** The [while] loop of [_merge_splits] never indexes an empty list: it
    stops on some end of [current_doc], no longer than the overlap, after
    which the coming piece fits or nothing is kept. *)
Lemma pop_front_spec (_len : Z) (current_doc : list string) :
  ∃ dropped kept,
    TextSplitter.pop_front size overlap (Py.len "") _len
      (total_len current_doc) current_doc
    = Ok (total_len kept, kept) ∧
    current_doc = dropped ++ kept ∧
    total_len kept <= overlap ∧
    (total_len kept + _len <= size ∨ total_len kept <= 0).
Proof.
  induction current_doc as [|first rest IH].
  - exists [], []. simpl.
    replace (overlap <? 0) with false by lia. simpl.
    rewrite andb_false_r. split; [done|]. split; [done|].
    unfold total_len. simpl. lia.
  - destruct IH as (dropped & kept & Hpop & Hcur & Hov & Hfit).
    cbn [TextSplitter.pop_front].
    destruct ((overlap <? total_len (first :: rest))
              || ((size <? total_len (first :: rest) + _len +
                     (if (0 <? length (first :: rest))%nat
                      then Py.len "" else 0))
                  && (0 <? total_len (first :: rest)))) eqn:Hcond.
    + exists (first :: dropped), kept.
      replace (total_len (first :: rest) -
               (Py.len first +
                (if (1 <? length (first :: rest))%nat then Py.len "" else 0)))
        with (total_len rest).
      * rewrite Hpop, Hcur. done.
      * unfold total_len. simpl. change (Py.len "") with 0.
        destruct (1 <? S (length rest))%nat; lia.
    + exists [], (first :: rest). split; [done|]. split; [done|].
      apply orb_false_iff in Hcond as [H1 H2].
      apply andb_false_iff in H2. change (Py.len "") with 0 in H2.
      unfold total_len in *. simpl in *.
      split; [lia|]. destruct H2 as [H2|H2]; [left|right]; lia.
Qed.

(** The merge of a list of pieces, each no longer than [size], started
    with the pieces [kept ++ fresh] in hand: the documents it adds are the
    chunks of a chain of windows. *)
Lemma merge_loop_windows (splits : list string) :
  Forall (fun s => Py.len s <= size) splits →
  ∀ docs kept fresh prev,
    total_len (kept ++ fresh) <= size →
    suffix_of (concat_str kept) prev →
    Py.len (concat_str kept) <= overlap →
    ∃ windows,
      TextSplitter.merge_loop size overlap "" splits docs (kept ++ fresh)
        (total_len (kept ++ fresh))
      = Ok (docs ++ chunks_of windows) ∧
      fresh_text windows = concat_str fresh +:+ concat_str splits ∧
      chained overlap prev windows ∧
      Forall (fits size) windows.
Proof.
  induction 1 as [|d rest Hd Hrest IH]; intros docs kept fresh prev Htot Hsuf Hov.
  - exists [(concat_str kept, concat_str fresh)]. simpl.
    rewrite join_docs_window. split; [done|].
    split; [unfold fresh_text; simpl; by rewrite !string_app_nil_r|].
    split; [done|]. constructor; [|done].
    unfold fits, window_text. simpl.
    rewrite <- concat_str_app, total_len_concat. done.
  - cbn [TextSplitter.merge_loop].
    change (Py.len "") with 0.
    assert ((if (0 <? length (kept ++ fresh))%nat then 0 else 0) = 0) as ->
      by (by destruct (0 <? _)%nat).
    assert (∀ cur : list string,
              (if (1 <? length (cur ++ [d]))%nat then 0 else 0) = 0) as Hone
      by (intros cur; by destruct (1 <? _)%nat).
    rewrite Z.add_0_r.
    destruct (size <? total_len (kept ++ fresh) + Py.len d) eqn:Hcond.
    + destruct (0 <? length (kept ++ fresh))%nat eqn:Hcur.
      * destruct (pop_front_spec (Py.len d) (kept ++ fresh))
          as (dropped & kept' & Hpop & Hsplit & Hov' & Hfit).
        change (Py.len "") with 0 in Hpop. rewrite Hpop. simpl.
        rewrite Hone, Z.add_0_r.
        destruct (IH (docs ++ option_list
                        (TextSplitter._join_docs (kept ++ fresh) ""))
                    kept' [d] (concat_str kept +:+ concat_str fresh))
          as (windows & Hloop & Hfresh & Hchain & Hfits).
        { rewrite total_len_app. unfold total_len at 2. simpl.
          pose proof (total_len_nonneg kept'). lia. }
        { rewrite <- concat_str_app, Hsplit, concat_str_app.
          apply suffix_of_app. }
        { by rewrite total_len_concat. }
        exists ((concat_str kept, concat_str fresh) :: windows).
        rewrite total_len_app in Hloop. unfold total_len at 2 in Hloop.
        simpl in Hloop. rewrite Z.add_0_r in Hloop. rewrite Hloop.
        rewrite join_docs_window.
        split.
        { change ((concat_str kept, concat_str fresh) :: windows)
            with ([(concat_str kept, concat_str fresh)] ++ windows).
          by rewrite chunks_of_app, app_assoc. }
        split.
        { unfold fresh_text in *. rewrite fmap_cons, concat_str_cons. simpl.
          rewrite Hfresh. unfold concat_str. simpl.
          by rewrite string_app_nil_r. }
        split; [done|]. constructor; [|done].
        unfold fits, window_text. simpl.
        rewrite <- concat_str_app, total_len_concat. done.
      * destruct (kept ++ fresh) as [|x l] eqn:Hnil; [|done].
        unfold total_len in Hcond. simpl in Hcond. lia.
    + simpl. rewrite Hone, Z.add_0_r.
      destruct (IH docs kept (fresh ++ [d]) prev)
        as (windows & Hloop & Hfresh & Hchain & Hfits).
      { rewrite app_assoc, total_len_app. unfold total_len at 2. simpl. lia. }
      { done. }
      { done. }
      exists windows. rewrite app_assoc in Hloop.
      rewrite total_len_app in Hloop. unfold total_len at 2 in Hloop.
      simpl in Hloop. rewrite Z.add_0_r in Hloop. rewrite <- app_assoc in Hloop.
      rewrite <- app_assoc. rewrite Hloop. split; [done|].
      split; [|done]. rewrite Hfresh, concat_str_app, string_app_assoc.
      unfold concat_str at 2. simpl. by rewrite string_app_nil_r.
Qed.

Lemma flush_windows (_good_splits final_chunks : list string) :
  Forall (fun s => Py.len s <= size) _good_splits →
  ∃ windows,
    TextSplitter.flush size overlap "" _good_splits final_chunks
    = Ok (final_chunks ++ chunks_of windows) ∧
    fresh_text windows = concat_str _good_splits ∧
    chained overlap "" windows ∧
    Forall (fits size) windows.
Proof.
  intros Hgood. unfold TextSplitter.flush.
  destruct _good_splits as [|g good] eqn:Heq.
  { exists []. simpl. by rewrite app_nil_r. }
  rewrite <- Heq in *. clear Heq.
  destruct (merge_loop_windows _good_splits Hgood [] [] [] "")
    as (windows & Hloop & Hfresh & Hchain & Hfits).
  { unfold total_len. simpl. lia. }
  { apply suffix_of_refl. }
  { unfold Py.len. simpl. lia. }
  exists windows. unfold TextSplitter._merge_splits.
  simpl in Hloop. unfold total_len in Hloop. simpl in Hloop. rewrite Hloop.
  simpl. done.
Qed.

(** The loop over the pieces of one level: pieces shorter than [size] are
    merged, longer ones are handed to the next level. *)
Lemma split_loop_windows (deeper : option (string -> result (list string)))
  (splits : list string) :
  match deeper with
  | None => Forall (fun s => Py.len s < size) splits
  | Some f => ∀ s, splits_well size overlap f s
  end →
  ∀ _good_splits final_chunks,
    Forall (fun s => Py.len s <= size) _good_splits →
    ∃ windows,
      TextSplitter.split_loop size overlap deeper "" splits _good_splits
        final_chunks
      = Ok (final_chunks ++ chunks_of windows) ∧
      fresh_text windows = concat_str _good_splits +:+ concat_str splits ∧
      chained overlap "" windows ∧
      Forall (fits size) windows.
Proof.
  intros Hdeeper. induction splits as [|s rest IH];
    intros good final Hgood.
  - simpl. destruct (flush_windows good final Hgood)
      as (windows & Hflush & Hfresh & Hchain & Hfits).
    exists windows. rewrite Hflush. split; [done|].
    split; [|done]. rewrite Hfresh. change (concat_str []) with "".
    by rewrite string_app_nil_r.
  - assert (match deeper with
            | None => Forall (fun s => Py.len s < size) rest
            | Some f => ∀ s, splits_well size overlap f s
            end) as Hrest.
    { destruct deeper; [done|]. by apply Forall_inv_tail in Hdeeper. }
    specialize (IH Hrest).
    cbn [TextSplitter.split_loop].
    destruct (Py.len s <? size) eqn:Hshort.
    + destruct (IH (good ++ [s]) final) as (windows & Hloop & Hfresh & Hrem).
      { apply Forall_app. split; [done|]. constructor; [lia|done]. }
      exists windows. rewrite Hloop. split; [done|]. split; [|done].
      rewrite Hfresh, concat_str_app, string_app_assoc.
      unfold concat_str at 2. simpl. by rewrite string_app_nil_r.
    + destruct deeper as [f|].
      2:{ apply Forall_inv in Hdeeper. lia. }
      destruct (flush_windows good final Hgood)
        as (w1 & Hflush & Hfresh1 & Hchain1 & Hfits1).
      rewrite Hflush. simpl.
      destruct (Hdeeper s) as (w2 & Hf & Hfresh2 & Hchain2 & Hfits2).
      rewrite Hf. simpl.
      destruct (IH [] ((final ++ chunks_of w1) ++ chunks_of w2))
        as (w3 & Hloop & Hfresh3 & Hchain3 & Hfits3); [done|].
      exists (w1 ++ w2 ++ w3). rewrite Hloop.
      split; [by rewrite !chunks_of_app, !app_assoc|].
      split.
      { rewrite !fresh_text_app, Hfresh1, Hfresh2, Hfresh3.
        done. }
      split; [by repeat apply chained_app|].
      by repeat (apply Forall_app; split).
Qed.

Lemma split_with_chars (text : string) :
  splits_well size overlap (TextSplitter.split_with size overlap None "") text.
Proof.
  unfold splits_well, TextSplitter.split_with.
  destruct (split_loop_windows None
              (TextSplitter._split_text_with_regex text "")) with
    (_good_splits := @nil string) (final_chunks := @nil string)
    as (windows & Hloop & Hfresh & Hchain & Hfits); [|done|].
  - unfold TextSplitter._split_text_with_regex. simpl.
    apply Forall_forall. intros s Hs.
    apply list_elem_of_filter in Hs as [_ Hs].
    pose proof (chars_length text) as Hone.
    rewrite Forall_forall in Hone. rewrite (Hone s Hs). lia.
  - exists windows. rewrite Hloop. split; [done|]. split; [|done].
    rewrite Hfresh. change (concat_str []) with "".
    apply split_text_with_regex_concat.
Qed.

Lemma split_with_deeper (f : string -> result (list string))
  (separator text : string) :
  (∀ s, splits_well size overlap f s) →
  splits_well size overlap (TextSplitter.split_with size overlap (Some f) separator) text.
Proof.
  intros Hf. unfold splits_well, TextSplitter.split_with.
  destruct (split_loop_windows (Some f)
              (TextSplitter._split_text_with_regex text separator) Hf [] [])
    as (windows & Hloop & Hfresh & Hchain & Hfits); [done|].
  exists windows. rewrite Hloop. split; [done|]. split; [|done].
  rewrite Hfresh. change (concat_str []) with "".
  apply split_text_with_regex_concat.
Qed.

(** The recursion on the separators, for a list of separators that ends
    the fallback with the empty separator (splitting into characters). *)
Lemma split_text_rec (last_separator : string) (separators : list string) :
  "" ∈ separators →
  ∀ text,
    splits_well size overlap (TextSplitter._split_text size overlap last_separator separators)
      text.
Proof.
  induction separators as [|_s new_separators IH]; intros Hin text.
  - by apply elem_of_nil in Hin.
  - unfold splits_well. cbn [TextSplitter._split_text].
    destruct (decide (_s = "")) as [->|Hne]; [apply split_with_chars|].
    apply elem_of_cons in Hin as [Heq|Hin]; [done|].
    destruct (Py.contains _s text); [|by apply IH].
    destruct new_separators as [|s' rest] eqn:Hnew;
      [by apply elem_of_nil in Hin|].
    rewrite <- Hnew in *. apply split_with_deeper. intros s. by apply IH.
Qed.

Lemma split_text_windows (text : string) :
  splits_well size overlap (TextSplitter.split_text size overlap) text.
Proof.
  unfold TextSplitter.split_text. apply split_text_rec.
  unfold TextSplitter.DEFAULT_SEPARATORS.
  do 3 (apply elem_of_cons; right). apply elem_of_cons. by left.
Qed.

Lemma chunks_of_fit (windows : list Window) (c : string) :
  Forall (fits size) windows → c ∈ chunks_of windows → Py.len c <= size.
Proof.
  intros Hfits Hc. unfold chunks_of in Hc.
  apply list_elem_of_omap in Hc as (win & Hwin & Hchunk).
  rewrite Forall_forall in Hfits. specialize (Hfits win Hwin).
  unfold chunk_of_window in Hchunk.
  destruct (decide _); [done|]. injection Hchunk as <-.
  pose proof (strip_len (window_text win)). unfold fits in Hfits. lia.
Qed.

End Sized.

Lemma configured_sizes : 1 < CHUNK_SIZE ∧ 0 <= CHUNK_OVERLAP.
Proof. unfold CHUNK_SIZE, CHUNK_OVERLAP. lia. Qed.

(** The splitter as configured always returns, and what it returns makes
    the round trip. *)
Lemma split_text_configured (unit_text : string) :
  ∃ chunks,
    TextSplitter.split_text CHUNK_SIZE CHUNK_OVERLAP unit_text = Ok chunks ∧
    round_trip CHUNK_SIZE CHUNK_OVERLAP unit_text chunks.
Proof.
  destruct configured_sizes as [Hsize Hoverlap].
  destruct (split_text_windows CHUNK_SIZE CHUNK_OVERLAP Hsize Hoverlap unit_text)
    as (windows & Hsplit & Hfresh & Hchain & Hfits).
  exists (chunks_of windows). split; [done|]. exists windows. done.
Qed.

Lemma create_chunks_loop_units (E : Env) (text_by_page : list (option Z * string))
  (document_id filename user_id : string) :
  ∀ acc,
    ∃ added per_unit,
      create_chunks_loop E text_by_page document_id filename user_id acc
      = Ok (acc ++ added) ∧
      text <$> added = concat per_unit ∧
      Forall2 (fun unit produced =>
                 round_trip CHUNK_SIZE CHUNK_OVERLAP unit.2 produced)
        text_by_page per_unit.
Proof.
  induction text_by_page as [|[page_num page_text] rest IH]; intros acc.
  - exists [], []. simpl. rewrite app_nil_r. split; [done|]. split; [done|].
    constructor.
  - cbn [create_chunks_loop].
    destruct (split_text_configured page_text) as (pieces & Hsplit & Hround).
    rewrite Hsplit. simpl.
    set (made := (fun chunk =>
                    {| text := chunk;
                       chunk_metadata :=
                         chunk_metadata_of E page_num chunk document_id filename
                           user_id |}) <$> pieces).
    destruct (IH (acc ++ made)) as (added & per_unit & Hloop & Htexts & Hall).
    exists (made ++ added), (pieces :: per_unit).
    rewrite Hloop. split; [by rewrite app_assoc|]. split.
    + rewrite fmap_app, Htexts. simpl. f_equal.
      unfold made. rewrite <- list_fmap_compose. apply list_fmap_id.
    + by constructor.
Qed.

(** C7. For all unit texts the chunker returns, and every chunk it
    produces has a text of at most the configured [CHUNK_SIZE] (1000)
    characters: pieces are split on the paragraph, line and word
    separators in turn and in the end into characters, and merged up to
    the size. *)
Theorem create_chunks_within_chunk_size (E : Env)
  (text_by_page : list (option Z * string))
  (document_id filename user_id : string) :
  ∃ chunks,
    create_chunks_with_metadata E text_by_page document_id filename user_id
    = Ok chunks ∧
    ∀ c, c ∈ chunks → Py.len (text c) <= 1000.
Proof.
  destruct (create_chunks_loop_units E text_by_page document_id filename
              user_id []) as (added & per_unit & Hloop & Htexts & Hall).
  exists added. split; [exact Hloop|].
  intros c Hc.
  assert (text c ∈ concat per_unit) as Hin
    by (rewrite <- Htexts; apply list_elem_of_fmap; eauto).
  apply list_elem_of_In, in_concat in Hin as (produced & Hprod & Hp).
  apply list_elem_of_In in Hprod, Hp.
  apply list_elem_of_lookup in Hprod as [i Hi].
  destruct (Forall2_lookup_r _ _ _ _ _ Hall Hi)
    as ([pn unit_text] & _ & (windows & -> & _ & _ & Hfits)).
  by apply (chunks_of_fit CHUNK_SIZE windows).
Qed.

(** C8. For every unit text the chunks produced for the unit make the
    round trip: they are, with the white space at their two ends removed
    (and nothing for a window of white space only), the texts of
    successive windows over the unit text; each window after the first
    starts with an end of the window before it, of at most the configured
    [CHUNK_OVERLAP] (200) characters; and the non-overlap regions of the
    windows, concatenated in order, are exactly the unit text.  The chunks
    of a document are those of its units, in order. *)
Theorem create_chunks_round_trip (E : Env)
  (text_by_page : list (option Z * string))
  (document_id filename user_id : string) :
  ∃ chunks per_unit,
    create_chunks_with_metadata E text_by_page document_id filename user_id
    = Ok chunks ∧
    text <$> chunks = concat per_unit ∧
    Forall2 (fun unit produced => round_trip 1000 200 unit.2 produced)
      text_by_page per_unit.
Proof.
  destruct (create_chunks_loop_units E text_by_page document_id filename
              user_id []) as (added & per_unit & Hloop & Htexts & Hall).
  by exists added, per_unit.
Qed.

Lemma create_chunks_page_is_string_witness :
  create_chunks_with_metadata Sample.E Sample.units "d1" "a.pdf" "A"
  = Ok [Sample.chunk_of (Some 2) "Beta."; Sample.chunk_of None "plain text"]
  ∧ ∃ by_unit,
      [Sample.chunk_of (Some 2) "Beta."; Sample.chunk_of None "plain text"]
      = concat by_unit ∧
      Forall2
        (fun unit made =>
           TextSplitter.split_text CHUNK_SIZE CHUNK_OVERLAP unit.2
           = Ok (text <$> made) ∧
           ∀ c, c ∈ made →
             chunk_metadata c !! "page"
             = Some (MStr (match unit.1 with
                           | Some n => Py.str_int n
                           | None => "0"
                           end)))
        Sample.units by_unit.
Proof.
  assert (create_chunks_with_metadata Sample.E Sample.units "d1" "a.pdf" "A"
          = Ok [Sample.chunk_of (Some 2) "Beta.";
                Sample.chunk_of None "plain text"]) as Hc
    by (vm_compute; reflexivity).
  split; [exact Hc|].
  exact (proj2 (create_chunks_page_is_string Sample.E Sample.units "d1" "a.pdf"
                  "A" _ Hc)).
Defined.

Example pages_of_sample_units :
  (fun c => chunk_metadata c !! "page")
  <$> [Sample.chunk_of (Some 2) "Beta."; Sample.chunk_of None "plain text"]
  = [Some (MStr "2"); Some (MStr "0")].
Proof. vm_compute. reflexivity. Qed.

(** The splitter on the text of the library's own test, with chunks of at
    most 10 characters overlapping by at most 1. *)
Example split_text_harrison :
  TextSplitter.split_text 10 1 Sample.harrison
  = Ok ["Hi."; "I'm"; "Harrison."; "How? Are?"; "You?"; "Okay then";
        "f f f f."; "This is a"; "weird"; "text to"; "write,"; "but gotta";
        "test the"; "splitting"; "gggg"; "some how."; "Bye!"; "-H."].
Proof. vm_compute. reflexivity. Qed.

Example split_text_overlap :
  TextSplitter.split_text 10 3 "aaaaaaaaaaaaaaaaaaaaaaaaa"
  = Ok ["aaaaaaaaaa"; "aaaaaaaaaa"; "aaaaaaaaaa"; "aaaa"].
Proof. vm_compute. reflexivity. Qed.

Example split_text_blank :
  TextSplitter.split_text 1000 200 "   " = Ok [].
Proof. vm_compute. reflexivity. Qed.

(** ** Sources of an answer *)

Global Instance collection_is_stable c : Stable (fun w => collection w = c).
Proof. split; intros w x H; exact H. Qed.

Lemma hoare_get_llm (P : World -> Prop) `{!Stable P} (E : Env) :
  hoare P (get_llm E) (fun _ w => P w).
Proof.
  unfold get_llm.
  eapply hoare_conseq;
    [apply (hoare_retry P _ (fun _ w => P w) 2) | done |].
  - unfold get_llm_attempt. destruct (negb _).
    + apply hoare_raise. done.
    + eapply hoare_conseq; [by apply hoare_external | done |].
      by intros [u|e] w Hw.
  - intros [u|e] w; simpl; tauto.
Qed.

Lemma hoare_invoke (E : Env) (prompt : string) c :
  hoare (fun w => collection w = c) (invoke E prompt)
    (fun _ w => collection w = c).
Proof.
  unfold invoke.
  eapply hoare_bind with (R := fun _ w => collection w = c); [ | | done].
  - intros w Hw. exact Hw.
  - intros ?. eapply hoare_bind; [by apply hoare_external | | done].
    intros ?. by apply hoare_ret.
Qed.

Lemma hoare_query_documents_attempt (E : Env) (query : string) (top_k : Z)
  (user_id : string) c :
  user_id ≠ "" →
  hoare (fun w => collection w = c)
    (query_documents_attempt E query top_k (Some user_id))
    (fun r w =>
       collection w = c ∧
       ∀ answer sources, r = Ok (answer, sources) →
         sourced_from c user_id sources).
Proof.
  intros Hne. unfold query_documents_attempt.
  eapply hoare_try with (R := fun r w =>
    collection w = c ∧
    ∀ answer sources, r = Ok (answer, sources) →
      sourced_from c user_id sources).
  - eapply hoare_bind with (R := fun r w =>
      collection w = c ∧
      ∀ docs, r = Ok docs →
        ∀ d, d ∈ docs → d ∈ entry_document <$> c ∧ owned_by user_id d).
    + intros w Hw.
      destruct (hoare_query_vectorstore E query top_k (Some user_id) _ _ _ w
                  (index_is_self w)) as ((Hc & _) & docs & Hr & Hdocs).
      split; [congruence|]. rewrite Hr. intros docs' [= <-]. rewrite <- Hw.
      by apply (owner_filter_results E query top_k).
    + intros docs. destruct docs as [|doc docs].
      { apply hoare_ret. intros w [Hw _]. split; [done|].
        intros answer sources [= _ <-] s Hs. by apply elem_of_nil in Hs. }
      set (found := doc :: docs).
      intros w [Hw Hdocs]. specialize (Hdocs found eq_refl).
      revert w Hw.
      change (hoare (fun w => collection w = c)
        (get_llm E;;
         answer_text <-
           invoke E (format_prompt (format_documents found) query (today E));;
         logger INFO ("Query successful: '" +:+ query +:+ "' - found "
                      +:+ Py.str_int (Z.of_nat (length found))
                      +:+ " relevant documents");;
         ret (answer_text, to_source <$> found))
        (fun r w =>
           collection w = c ∧
           ∀ answer sources, r = Ok (answer, sources) →
             sourced_from c user_id sources)).
      eapply hoare_bind with (R := fun _ w => collection w = c);
        [by apply hoare_get_llm | | done].
      intros ?. eapply hoare_bind; [apply hoare_invoke | | done].
      intros answer_text. apply hoare_logger_then; [apply _|].
      apply hoare_ret. intros w Hw. split; [done|].
      intros answer sources Heq s Hs.
      assert (sources = to_source <$> found) as -> by congruence.
      apply list_elem_of_fmap in Hs as (d & -> & Hd).
      exists d. destruct (Hdocs d Hd). done.
    + intros e w [Hw _]. split; [done|]. intros ? ? [=].
  - done.
  - intros e.
    eapply (hoare_conseq _ (fun w => collection w = c));
      [ | by intros w [Hw _] | intros r w Hq; exact Hq].
    eapply hoare_bind;
      [apply (hoare_logger (fun w => collection w = c)) | | ].
    + intros ?. apply hoare_raise. intros w [_ Hw]. split; [done|].
      intros ? ? [=].
    + intros e' w [[=] _].
Qed.

(** Owner isolation reaches the answer: whatever [query_documents] returns
    for a non-empty owner identifier, each of its sources is made from an
    entry of the index that belongs to that owner. *)
Lemma query_documents_sources_owned (E : Env) (query : string) (top_k : Z)
  (user_id : string) (w w' : World) (answer : string) (sources : list Source) :
  user_id ≠ "" →
  query_documents E query top_k (Some user_id) w = (Ok (answer, sources), w') →
  sourced_from (collection w) user_id sources.
Proof.
  intros Hne Hq.
  pose proof (hoare_retry (fun w0 => collection w0 = collection w)
                (query_documents_attempt E query top_k (Some user_id))
                (fun a _ => sourced_from (collection w) user_id a.2) 2) as Hr.
  unfold query_documents in Hq.
  specialize (Hr ltac:(
    eapply hoare_conseq;
      [apply (hoare_query_documents_attempt E query top_k user_id (collection w) Hne)
      | done |];
    intros [[a s]|e] w0 [Hw0 Hs]; simpl; [by eapply Hs | done]) w eq_refl).
  rewrite Hq in Hr. exact Hr.
Qed.

(** ** The index invariant across the services *)

Lemma wf_index_same (w w' : World) :
  collection w' = collection w → next_id w' = next_id w →
  wf_index w → wf_index w'.
Proof. intros Hc Hn [Hnd Hlt]. split; rewrite ?Hc, ?Hn; done. Qed.

(** Ingestion keeps entry ids unique. *)
Lemma wf_index_process_document (E : Env)
  (file_path document_id filename user_id : string) (w : World) :
  wf_index w →
  wf_index (process_document E file_path document_id filename user_id w).2.
Proof.
  intros Hwf.
  destruct (hoare_process_document E file_path document_id filename user_id
              _ _ _ w (index_is_self w)) as [_ Hing].
  destruct Hing as [((Hc & Hn & _) & _)|(chunks & _ & (Hc & Hn & _) & _)].
  - by apply (wf_index_same w).
  - pose proof (wf_index_add w (to_document <$> chunks) Hwf) as [Hnd Hlt].
    simpl in Hnd, Hlt. rewrite length_fmap in Hlt.
    split; rewrite ?Hc, ?Hn; done.
Qed.

(** Deleting keeps entry ids unique. *)
Lemma wf_index_delete_document (E : Env) (document_id : string) (w : World) :
  wf_index w →
  wf_index (delete_document_from_vectorstore E document_id w).2.
Proof.
  intros Hwf. destruct (decide (document_id = "")) as [->|Hne].
  { rewrite delete_empty_document_id. exact Hwf. }
  pose proof (hoare_delete_document E document_id _ _ _ Hne (proj1 Hwf) w
                (index_is_self w)) as Hspec.
  destruct (delete_document_from_vectorstore E document_id w) as [[v|e] w'];
    simpl in *.
  - destruct Hspec as (_ & (Hc & Hn & _) & _).
    pose proof (wf_index_filter w
                  (fun e => ¬ about_document document_id e) Hwf) as [Hnd Hlt].
    simpl in Hnd, Hlt. split; rewrite ?Hc, ?Hn; done.
  - destruct Hspec as (_ & Hc & Hn & _). by apply (wf_index_same w).
Qed.

(** Querying leaves the index as it is. *)
Lemma query_vectorstore_keeps_index (E : Env) (query : string) (top_k : Z)
  (user_id : option string) (w : World) :
  (query_vectorstore E query top_k user_id w).2.(collection) = collection w.
Proof.
  by destruct (hoare_query_vectorstore E query top_k user_id _ _ _ w
                 (index_is_self w)) as ((Hc & _) & _).
Qed.

Example process_document_unsupported_type :
  let r := process_document Sample.E "d9_table.csv" "d9" "table.csv" "A"
             Sample.two_owners in
  r.1 = Ok tt ∧ collection r.2 = collection Sample.two_owners ∧
  last (log r.2)
  = Some {| levelname := ERROR;
            message := "Unsupported file type: d9_table.csv" |}.
Proof. vm_compute. done. Qed.

Example process_document_store_unreachable :
  let r := process_document Sample.E "d1_a.pdf" "d1" "a.pdf" "A"
             Sample.unreachable in
  r.1 = Ok tt ∧ collection r.2 = [] ∧
  levelname <$> last (log r.2) = Some ERROR.
Proof. vm_compute. done. Qed.

(** * Further properties of the services *)

(** ** Adding a batch *)

Global Instance True_stable : Stable (fun _ => True).
Proof. by split. Qed.

(** The only exception that leaves a [@retry] is [RetryError]. *)
Lemma retry_raises_RetryError {A} (body : M A) (n : nat) (w w' : World)
  (e : exn) :
  retry n body w = (Raise e, w') → e = RetryError.
Proof.
  revert w. induction n as [|n IH]; intros w; simpl.
  - by intros [= <- _].
  - unfold try_except. destruct (body w) as [[a|e0] w0]; [done|]. apply IH.
Qed.

(** What [add_documents_to_vectorstore] returns is [None]. *)
Lemma hoare_add_attempt_none (E : Env) (chunks : list Chunk) :
  hoare (fun _ => True) (add_documents_to_vectorstore_attempt E chunks)
    (fun r _ => ∀ v, r = Ok v → v = PyNone).
Proof.
  unfold add_documents_to_vectorstore_attempt.
  destruct chunks as [|chunk chunks].
  { apply hoare_logger_then; [apply _|]. apply hoare_ret.
    by intros w _ v [= <-]. }
  eapply hoare_try with (R := fun r _ => ∀ v, r = Ok v → v = PyNone);
    [| done |].
  - eapply hoare_bind with (R := fun _ _ => True);
      [by apply hoare_get_vector_store | | by intros e w _ v [=]].
    intros ?.
    eapply hoare_bind with (R := fun _ _ => True);
      [done | | by intros e w _ v [=]].
    intros ?. apply hoare_logger_then; [apply _|].
    eapply hoare_bind with (R := fun _ _ => True);
      [done | | by intros e w _ v [=]].
    intros ?. apply hoare_ret. by intros w _ v [= <-].
  - intros e.
    eapply (hoare_conseq _ (fun _ => True)); [|done|intros r w Hq; exact Hq].
    apply hoare_logger_then; [apply _|].
    apply hoare_raise. by intros w _ v [=].
Qed.

Lemma add_returns_none (E : Env) (chunks : list Chunk) (w w' : World)
  (v : pyvalue) :
  add_documents_to_vectorstore E chunks w = (Ok v, w') → v = PyNone.
Proof.
  intros Hadd.
  pose proof (hoare_retry (fun _ => True)
                (add_documents_to_vectorstore_attempt E chunks)
                (fun v _ => v = PyNone) 3) as Hr.
  unfold add_documents_to_vectorstore in Hadd.
  specialize (Hr ltac:(
    eapply hoare_conseq; [apply (hoare_add_attempt_none E chunks) | done |];
    intros [v0|e] w0 Hv; simpl; [by apply Hv | done]) w I).
  rewrite Hadd in Hr. exact Hr.
Qed.

(** With no fault scheduled an attempt to add returns. *)
Lemma add_attempt_no_faults (E : Env) (chunks : list Chunk) (w : World) :
  faults w = [] →
  ∃ w', add_documents_to_vectorstore_attempt E chunks w = (Ok PyNone, w')
        ∧ faults w' = [].
Proof.
  intros Hf. unfold add_documents_to_vectorstore_attempt.
  destruct chunks as [|chunk chunks].
  { unfold bind, logger, ret. simpl. eauto. }
  destruct (get_vector_store_no_faults E w Hf) as (w2 & Hgs & Hf2 & _).
  unfold try_except at 1, bind at 1. rewrite Hgs.
  unfold bind at 1, Chroma.add_documents, bind at 1, external. rewrite Hf2.
  unfold bind at 1, logger at 1. simpl.
  unfold bind at 1, try_except, bind at 1, Chroma.count, bind at 1, external.
  simpl. rewrite Hf2. unfold bind, logger, ret. simpl. eauto.
Qed.

(** X1.  [add_documents_to_vectorstore] on a non-empty batch stores the whole
    batch or nothing. *)
Theorem add_documents_all_or_nothing (E : Env) (chunks : list Chunk)
  (w : World) :
  chunks ≠ [] →
  ∀ r w', add_documents_to_vectorstore E chunks w = (r, w') →
    ((r = Ok PyNone ∧
      collection w'
      = collection w ++ Chroma.new_entries (next_id w) (to_document <$> chunks))
     ∨ (r = Raise RetryError ∧ collection w' = collection w)) ∧
    (faults w = [] → r = Ok PyNone).
Proof.
  intros Hne r w' Hadd.
  pose proof (hoare_add_documents_to_vectorstore E chunks _ _ _ Hne w
                (index_is_self w)) as Hspec.
  rewrite Hadd in Hspec. simpl in Hspec.
  assert (faults w = [] → r = Ok PyNone) as Hok.
  { intros Hf. destruct (add_attempt_no_faults E chunks w Hf) as (w2 & Ha & _).
    unfold add_documents_to_vectorstore in Hadd.
    rewrite (retry_no_raise _ 2 w PyNone w2 Ha) in Hadd. congruence. }
  split; [|exact Hok].
  destruct r as [v|e].
  - left. rewrite (add_returns_none E chunks w w' v Hadd).
    by destruct Hspec as (-> & _).
  - right. destruct Hspec as (Hc & _).
    by rewrite (retry_raises_RetryError _ _ _ _ _ Hadd).
Qed.

(** ** The store handle *)

Lemma get_embeddings_handle (E : Env) (w : World) :
  _vector_store (get_embeddings E w).2 = _vector_store w.
Proof.
  unfold get_embeddings. destruct (embeddings_cached w); [done|].
  unfold try_except, bind, external, logger, raise.
  destruct (truthy_opt (OPENAI_API_KEY E)); simpl;
    destruct (faults w) as [|[] rest]; simpl; done.
Qed.

Lemma get_vector_store_attempt_handle (E : Env) (w w' : World)
  (r : result unit) :
  _vector_store w = false →
  get_vector_store_attempt E w = (r, w') →
  match r with
  | Ok _ => _vector_store w' = true
  | Raise _ => _vector_store w' = false
  end.
Proof.
  intros Hw. unfold get_vector_store_attempt. rewrite Hw.
  unfold try_except, bind at 1.
  pose proof (get_embeddings_handle E w) as Hemb.
  destruct (get_embeddings E w) as [[[]|e] w1]; simpl in Hemb.
  - unfold bind, external, logger, raise.
    destruct (faults w1) as [|[] rest]; simpl; intros [= <- <-]; simpl;
      congruence.
  - unfold bind, logger, raise. simpl. intros [= <- <-]. simpl. congruence.
Qed.

(** X2.  The handle is created at most once: an initialised handle is returned
    as it is, whatever the collaborators would do; a call that returns
    leaves the handle initialised; a call that raises raises [RetryError]
    and leaves it unset, so that a later call tries again. *)
Theorem get_vector_store_handle (E : Env) (w : World) :
  ∀ r w', get_vector_store E w = (r, w') →
    (_vector_store w = true → r = Ok tt ∧ w' = w) ∧
    match r with
    | Ok _ => _vector_store w' = true
    | Raise e => e = RetryError ∧ _vector_store w' = false
    end.
Proof.
  intros r w' Hcall.
  destruct (_vector_store w) eqn:Hw.
  { unfold get_vector_store in Hcall.
    rewrite (retry_no_raise _ 2 w tt w) in Hcall
      by (unfold get_vector_store_attempt; by rewrite Hw).
    injection Hcall as <- <-. done. }
  split; [done|].
  assert (∀ n w0 r0 w0',
            _vector_store w0 = false →
            retry n (get_vector_store_attempt E) w0 = (r0, w0') →
            match r0 with
            | Ok _ => _vector_store w0' = true
            | Raise e => e = RetryError ∧ _vector_store w0' = false
            end) as Hretry.
  { induction n as [|n IH]; intros w0 r0 w0' Hw0; simpl.
    - by intros [= <- <-].
    - unfold try_except.
      destruct (get_vector_store_attempt E w0) as [[[]|e] w1] eqn:Hatt;
        pose proof (get_vector_store_attempt_handle E w0 _ _ Hw0 Hatt) as Ha;
        simpl in Ha.
      + by intros [= <- <-].
      + by apply IH. }
  by apply (Hretry 3%nat w).
Qed.

(** ** Answering *)

Lemma hoare_query_vectorstore_collection (E : Env) (query : string)
  (top_k : Z) (user_id : option string) c :
  hoare (fun w => collection w = c)
    (query_vectorstore E query top_k user_id)
    (fun r w =>
       collection w = c ∧
       ∃ docs, r = Ok docs ∧ retrieved E query top_k user_id c docs).
Proof.
  intros w Hw.
  destruct (hoare_query_vectorstore E query top_k user_id _ _ _ w
              (index_is_self w)) as ((Hc & _) & docs & Hr & Hdocs).
  split; [congruence|]. exists docs. split; [done|]. by rewrite <- Hw.
Qed.

(** One attempt of [query_documents]: the index is not touched, and an
    answer comes with the sources of retrieved documents, in their order. *)
Lemma hoare_query_documents_attempt_sources (E : Env) (query : string)
  (top_k : Z) (user_id : option string) c :
  hoare (fun w => collection w = c)
    (query_documents_attempt E query top_k user_id)
    (fun r w =>
       collection w = c ∧
       ∀ answer sources, r = Ok (answer, sources) →
         ∃ docs, retrieved E query top_k user_id c docs ∧
                 sources = to_source <$> docs).
Proof.
  unfold query_documents_attempt.
  eapply hoare_try with (R := fun r w =>
    collection w = c ∧
    ∀ answer sources, r = Ok (answer, sources) →
      ∃ docs, retrieved E query top_k user_id c docs ∧
              sources = to_source <$> docs).
  - eapply hoare_bind; [apply hoare_query_vectorstore_collection | | ].
    + intros docs. destruct docs as [|doc docs].
      { apply hoare_ret. intros w (Hw & docs' & [= <-] & Hret).
        split; [done|]. intros answer sources [= _ <-]. by exists []. }
      set (found := doc :: docs).
      intros w (Hw & docs' & Heq & Hret).
      assert (docs' = found) as -> by congruence. clear Heq.
      revert w Hw.
      change (hoare (fun w => collection w = c)
        (get_llm E;;
         answer_text <-
           invoke E (format_prompt (format_documents found) query (today E));;
         logger INFO ("Query successful: '" +:+ query +:+ "' - found "
                      +:+ Py.str_int (Z.of_nat (length found))
                      +:+ " relevant documents");;
         ret (answer_text, to_source <$> found))
        (fun r w =>
           collection w = c ∧
           ∀ answer sources, r = Ok (answer, sources) →
             ∃ docs, retrieved E query top_k user_id c docs ∧
                     sources = to_source <$> docs)).
      eapply hoare_bind with (R := fun _ w => collection w = c);
        [by apply hoare_get_llm | | by intros e w Hw; split; [|intros ? ? [=]]].
      intros ?. eapply hoare_bind;
        [apply hoare_invoke | | by intros e w Hw; split; [|intros ? ? [=]]].
      intros answer_text. apply hoare_logger_then; [apply _|].
      apply hoare_ret. intros w Hw. split; [done|].
      intros answer sources Heq. exists found. split; [done|]. congruence.
    + intros e w (Hw & docs & [=] & _).
  - done.
  - intros e.
    eapply (hoare_conseq _ (fun w => collection w = c));
      [ | by intros w [Hw _] | intros r w Hq; exact Hq].
    apply hoare_logger_then; [apply _|].
    apply hoare_raise. intros w Hw. split; [done|]. intros ? ? [=].
Qed.

Lemma hoare_query_documents_sources (E : Env) (query : string)
  (top_k : Z) (user_id : option string) c :
  hoare (fun w => collection w = c)
    (query_documents E query top_k user_id)
    (fun r w =>
       collection w = c ∧
       match r with
       | Ok (answer, sources) =>
           ∃ docs, retrieved E query top_k user_id c docs ∧
                   sources = to_source <$> docs
       | Raise e => e = RetryError
       end).
Proof.
  intros w Hw.
  pose proof (hoare_retry (fun w0 => collection w0 = c)
                (query_documents_attempt E query top_k user_id)
                (fun a w0 =>
                   collection w0 = c ∧
                   ∃ docs, retrieved E query top_k user_id c docs ∧
                           a.2 = to_source <$> docs) 2) as Hr.
  specialize (Hr ltac:(
    eapply hoare_conseq;
      [apply (hoare_query_documents_attempt_sources E query top_k user_id c)
      | done |];
    intros [[a s]|e] w0 [Hw0 Hs]; simpl; [split; [done|by eapply Hs] | done])
    w Hw).
  unfold query_documents.
  destruct (retry 2 _ w) as [[[a s]|e] w']; simpl in *.
  - done.
  - by destruct Hr as [-> ?].
Qed.

Lemma nearest_length (E : Env) (query : string) (k : Z)
  (where_filter : option Where) (documents : list Document) :
  (length (Chroma.nearest E query k where_filter documents)
   ≤ Z.to_nat k)%nat.
Proof. unfold Chroma.nearest. rewrite length_take. lia. Qed.

(** X3.  Answering only reads the index, and never cites more than [top_k]
    sources: whatever [query_documents] does, the collection is as before;
    what it raises is [RetryError]; and the sources of an answer are those
    of the retrieved entries of the index in retrieval order, the nearest
    first among the entries the owner filter lets through, or there are
    none; they are at most [top_k] (none when [top_k] is not positive). *)
Theorem query_documents_reads_only (E : Env) (query : string) (top_k : Z)
  (user_id : option string) (w : World) :
  ∀ r w', query_documents E query top_k user_id w = (r, w') →
    collection w' = collection w ∧
    match r with
    | Ok (answer, sources) =>
        (length sources ≤ Z.to_nat top_k)%nat ∧
        (sources = [] ∨
         sources
         = to_source <$> Chroma.nearest E query top_k (owner_filter user_id)
                           (entry_document <$> collection w)) ∧
        ∃ docs, sources = to_source <$> docs ∧
                ∀ d, d ∈ docs → d ∈ entry_document <$> collection w
    | Raise e => e = RetryError
    end.
Proof.
  intros r w' Hq.
  pose proof (hoare_query_documents_sources E query top_k user_id
                (collection w) w eq_refl) as Hspec.
  rewrite Hq in Hspec. simpl in Hspec. destruct Hspec as [Hc Hr].
  split; [done|]. destruct r as [[answer sources]|e]; [|done].
  destruct Hr as (docs & Hret & ->). rewrite length_fmap.
  destruct Hret as [-> | ->].
  - split; [simpl; lia|]. split; [by left|]. exists []. split; [done|].
    intros d Hd. by apply elem_of_nil in Hd.
  - split; [apply nearest_length|]. split; [by right|].
    eexists. split; [done|].
    intros d Hd. by apply nearest_elem_of in Hd as [Hd _].
Qed.

(** X4.  After a successful delete of a document no query returns an entry of
    it, whatever the query text, the number of results asked for and the
    owner. *)
Theorem deleted_document_not_retrieved (E : Env) (document_id : string)
  (w w1 : World) :
  document_id ≠ "" →
  wf_index w →
  delete_document_from_vectorstore E document_id w = (Ok PyNone, w1) →
  ∀ query top_k user_id docs w2,
    query_vectorstore E query top_k user_id w1 = (Ok docs, w2) →
    ∀ d, d ∈ docs → metadata d !! "document_id" ≠ Some (MStr document_id).
Proof.
  intros Hne [Hnd _] Hdel query top_k user_id docs w2 Hq d Hd.
  pose proof (hoare_delete_document E document_id _ _ _ Hne Hnd w
                (index_is_self w)) as Hspec.
  rewrite Hdel in Hspec. simpl in Hspec.
  destruct Hspec as (_ & (Hc & _) & _).
  pose proof (hoare_query_vectorstore_collection E query top_k user_id _ w1
                eq_refl) as Hqs.
  rewrite Hq in Hqs. simpl in Hqs.
  destruct Hqs as (_ & docs' & [= <-] & Hret).
  destruct Hret as [-> | ->]; [by apply elem_of_nil in Hd|].
  apply nearest_elem_of in Hd as [Hd _].
  apply list_elem_of_fmap in Hd as (e & -> & He).
  rewrite Hc in He. apply list_elem_of_filter in He as [Hnot _].
  exact Hnot.
Qed.

(** Without an API key no answer is ever generated: [get_llm] refuses
    before any call to the provider. *)
Lemma hoare_get_llm_no_key (P : World -> Prop) `{!Stable P} (E : Env) :
  truthy_opt (OPENAI_API_KEY E) = false →
  hoare P (get_llm E) (fun r w => P w ∧ r = Raise RetryError).
Proof.
  intros Hkey w Hw. unfold get_llm, get_llm_attempt. rewrite Hkey. simpl.
  done.
Qed.

Lemma hoare_query_documents_attempt_no_key (E : Env) (query : string)
  (top_k : Z) (user_id : option string) c n p :
  truthy_opt (OPENAI_API_KEY E) = false →
  hoare (index_is c n p) (query_documents_attempt E query top_k user_id)
    (fun r w =>
       index_is c n p w ∧
       ∀ a, r = Ok a → a = (NO_DOCUMENTS_ANSWER, [])).
Proof.
  intros Hkey. unfold query_documents_attempt.
  eapply hoare_try with (R := fun r w =>
    index_is c n p w ∧ ∀ a, r = Ok a → a = (NO_DOCUMENTS_ANSWER, [])).
  - eapply hoare_bind; [apply hoare_query_vectorstore | | ].
    + intros docs. destruct docs as [|doc docs].
      { apply hoare_ret. intros w (Hw & _). split; [done|].
        by intros a [= <-]. }
      eapply (hoare_conseq _ (index_is c n p));
        [ | by intros w [Hw _] | intros r w Hq; exact Hq].
      eapply hoare_bind; [by apply (hoare_get_llm_no_key _ E Hkey) | | ].
      * intros u w [_ [=]].
      * intros e w [Hw _]. split; [done|]. intros a [=].
    + intros e w (_ & docs & [=] & _).
  - done.
  - intros e.
    eapply (hoare_conseq _ (index_is c n p));
      [ | by intros w [Hw _] | intros r w Hq; exact Hq].
    apply hoare_logger_then; [apply _|].
    apply hoare_raise. intros w Hw. split; [done|]. intros ? [=].
Qed.

(** X5.  With no API key configured [query_documents] never reaches the
    generation provider: no prompt is sent, and the call either returns the
    no-documents message with no sources or raises [RetryError]. *)
Theorem query_documents_without_api_key (E : Env) (query : string)
  (top_k : Z) (user_id : option string) (w : World) :
  truthy_opt (OPENAI_API_KEY E) = false →
  ∀ r w', query_documents E query top_k user_id w = (r, w') →
    llm_prompts w' = llm_prompts w ∧
    (r = Ok ("No relevant documents found to answer your question.", [])
     ∨ r = Raise RetryError).
Proof.
  intros Hkey r w' Hq.
  pose proof (hoare_retry (index_is (collection w) (next_id w) (llm_prompts w))
                (query_documents_attempt E query top_k user_id)
                (fun a w0 =>
                   index_is (collection w) (next_id w) (llm_prompts w) w0 ∧
                   a = (NO_DOCUMENTS_ANSWER, [])) 2) as Hr.
  specialize (Hr ltac:(
    eapply hoare_conseq;
      [apply (hoare_query_documents_attempt_no_key E query top_k user_id
                (collection w) (next_id w) (llm_prompts w) Hkey)
      | done |];
    intros [a|e] w0 [Hw0 Hs]; simpl; [split; [done|by apply Hs] | done])
    w (index_is_self w)).
  unfold query_documents in Hq. rewrite Hq in Hr. simpl in Hr.
  destruct r as [a|e].
  - destruct Hr as [(_ & _ & Hp) ->]. split; [done|]. by left.
  - destruct Hr as [-> (_ & _ & Hp)]. split; [done|]. by right.
Qed.

(** With the store reachable, retrieval yields the nearest entries under
    the owner filter. *)
Lemma query_vectorstore_no_faults (E : Env) (query : string) (top_k : Z)
  (user_id : option string) (w : World) :
  nonblank query → 0 < top_k → faults w = [] →
  ∃ w',
    query_vectorstore E query top_k user_id w
    = (Ok (Chroma.nearest E query top_k (owner_filter user_id)
             (entry_document <$> collection w)), w') ∧
    faults w' = [] ∧
    index_is (collection w) (next_id w) (llm_prompts w) w'.
Proof.
  intros [Hq1 Hq2] Hk Hf.
  destruct (get_vector_store_no_faults E w Hf) as (w2 & Hgs & Hf2 & Hi).
  eexists. split; [|split].
  - unfold query_vectorstore. apply retry_no_raise.
    unfold query_vectorstore_attempt. rewrite search_owner_filter.
    rewrite Hq1, Hq2. simpl.
    unfold try_except, bind at 1. rewrite Hgs.
    unfold bind at 1, logger at 1. simpl.
    unfold bind at 1, Chroma.similarity_search, bind at 1, external. simpl.
    rewrite Hf2. simpl. replace (top_k <=? 0) with false by lia.
    unfold bind, logger, ret. simpl.
    destruct Hi as (-> & _). reflexivity.
  - simpl. exact Hf2.
  - destruct Hi as (Hc & Hn & Hp). by split.
Qed.

(** X6.  The answer of a successful query: with a key configured and the
    collaborators answering, a non-blank query that retrieves something is
    answered with the text the provider generates for the one prompt built
    from the retrieved documents, and with their sources in retrieval
    order. *)
Theorem query_documents_answer (E : Env) (query : string) (top_k : Z)
  (user_id : option string) (w : World) :
  truthy_opt (OPENAI_API_KEY E) = true →
  nonblank query → 0 < top_k → faults w = [] →
  Chroma.nearest E query top_k (owner_filter user_id)
    (entry_document <$> collection w) ≠ [] →
  let docs := Chroma.nearest E query top_k (owner_filter user_id)
                (entry_document <$> collection w) in
  let prompt := format_prompt (format_documents docs) query (today E) in
  ∃ w',
    query_documents E query top_k user_id w
    = (Ok (generate E prompt, to_source <$> docs), w') ∧
    llm_prompts w' = llm_prompts w ++ [prompt].
Proof.
  intros Hkey Hq Hk Hf Hne. cbv zeta.
  destruct (query_vectorstore_no_faults E query top_k user_id w Hq Hk Hf)
    as (w1 & Hqv & Hf1 & (_ & _ & Hp)).
  remember (Chroma.nearest E query top_k (owner_filter user_id)
              (entry_document <$> collection w)) as docs eqn:Hdef.
  clear Hdef.
  eexists. split.
  - unfold query_documents. apply retry_no_raise.
    unfold query_documents_attempt, try_except, bind at 1. rewrite Hqv.
    destruct docs as [|doc rest] eqn:Hdocs; [done|]. rewrite <- Hdocs.
    unfold bind at 1, get_llm. simpl. unfold try_except at 1.
    unfold get_llm_attempt. rewrite Hkey. simpl.
    unfold external at 1. rewrite Hf1.
    unfold bind at 1, invoke, bind at 1. simpl.
    unfold bind at 1, external. simpl. rewrite Hf1.
    unfold bind, logger, ret. simpl. reflexivity.
  - simpl. by rewrite Hp.
Qed.

(** X7.  A blank query (empty, or white space only) is answered with the
    no-documents message without a call to any collaborator: the store is
    not even opened, and only a warning is logged. *)
Theorem query_documents_blank_query (E : Env) (query : string) (top_k : Z)
  (user_id : option string) (w : World) :
  Py.strip query = "" →
  query_documents E query top_k user_id w
  = (Ok ("No relevant documents found to answer your question.", []),
     with_log (log w ++ [{| levelname := WARNING;
                            message := "Empty query provided to vector store" |}])
       w).
Proof.
  intros Hblank. unfold query_documents. apply retry_no_raise.
  unfold query_documents_attempt, try_except, bind at 1.
  unfold query_vectorstore.
  rewrite (retry_no_raise _ 2 w []
             (with_log (log w ++ [{| levelname := WARNING;
                                     message := "Empty query provided to vector store" |}])
                w)).
  - reflexivity.
  - unfold query_vectorstore_attempt. rewrite Hblank. simpl.
    rewrite orb_true_r. reflexivity.
Qed.

(** ** What the chunker writes *)

Lemma create_chunks_loop_made (E : Env)
  (units text_by_page : list (option Z * string))
  (document_id filename user_id : string) (acc chunks : list Chunk) :
  text_by_page ⊆ units →
  (∀ c, c ∈ acc → made_from E units document_id filename user_id c) →
  create_chunks_loop E text_by_page document_id filename user_id acc = Ok chunks →
  ∀ c, c ∈ chunks → made_from E units document_id filename user_id c.
Proof.
  revert acc. induction text_by_page as [|[page_num page_text] rest IH];
    intros acc Hsub Hacc Hloop; simpl in Hloop.
  - by injection Hloop as <-.
  - destruct (TextSplitter.split_text CHUNK_SIZE CHUNK_OVERLAP page_text)
      as [pieces|e]; [|done].
    simpl in Hloop. eapply IH; [| |exact Hloop].
    + intros u Hu. apply Hsub. by right.
    + intros c Hc. apply elem_of_app in Hc as [Hc|Hc]; [by apply Hacc|].
      apply list_elem_of_fmap in Hc as (piece & -> & _).
      exists page_num, page_text. split; [apply Hsub; by left|]. done.
Qed.

Lemma create_chunks_made (E : Env) (text_by_page : list (option Z * string))
  (document_id filename user_id : string) (chunks : list Chunk) :
  create_chunks_with_metadata E text_by_page document_id filename user_id
  = Ok chunks →
  ∀ c, c ∈ chunks → made_from E text_by_page document_id filename user_id c.
Proof.
  intros Hc. eapply create_chunks_loop_made; [done| |exact Hc].
  intros c Hin. by apply elem_of_nil in Hin.
Qed.

Lemma made_from_tagged (E : Env) (units : list (option Z * string))
  (document_id filename user_id : string) (c : Chunk) :
  made_from E units document_id filename user_id c →
  tagged document_id filename user_id c.
Proof.
  intros (pn & pt & _ & Hm). unfold tagged. rewrite Hm.
  unfold chunk_metadata_of. by simplify_map_eq.
Qed.

(** X8.  The metadata of every chunk has exactly the seven keys of the source,
    each with a string value, never [None]; [text] repeats the chunk text;
    and [source] is the file name, followed by the page exactly when the
    unit the chunk was cut from has a label: the chunks are, unit by unit,
    the pieces cut from the text of the unit, and [source] and [page] of
    each are made from the label of that very unit. *)
Theorem create_chunks_metadata_shape (E : Env)
  (text_by_page : list (option Z * string))
  (document_id filename user_id : string) (chunks : list Chunk) :
  create_chunks_with_metadata E text_by_page document_id filename user_id
  = Ok chunks →
  (∀ c, c ∈ chunks →
     dom (chunk_metadata c)
     = {[ "document_id"; "document"; "page"; "text"; "user_id"; "source";
          "created_at" ]} ∧
     (∀ key value, chunk_metadata c !! key = Some value → ∃ s, value = MStr s) ∧
     chunk_metadata c !! "text" = Some (MStr (text c)) ∧
     chunk_metadata c !! "document_id" = Some (MStr document_id) ∧
     chunk_metadata c !! "document" = Some (MStr filename) ∧
     chunk_metadata c !! "user_id" = Some (MStr user_id)) ∧
  ∃ by_unit,
    chunks = concat by_unit ∧
    Forall2
      (fun unit made =>
         TextSplitter.split_text CHUNK_SIZE CHUNK_OVERLAP unit.2
         = Ok (text <$> made) ∧
         ∀ c, c ∈ made →
           chunk_metadata c !! "source"
           = Some (MStr (match unit.1 with
                         | Some n =>
                             filename +:+ " (page " +:+ Py.str_int n +:+ ")"
                         | None => filename
                         end)) ∧
           chunk_metadata c !! "page"
           = Some (MStr (match unit.1 with
                         | Some n => Py.str_int n
                         | None => "0"
                         end)))
      text_by_page by_unit.
Proof.
  intros Hc. split.
  - intros c Hin.
    destruct (create_chunks_made E _ _ _ _ _ Hc c Hin) as (pn & pt & Hu & Hm).
    rewrite Hm. unfold chunk_metadata_of.
    split; [rewrite !dom_insert_L, dom_empty_L; set_solver|].
    split.
    { intros key value Hl.
      repeat (apply lookup_insert_Some in Hl as [[_ <-]|[_ Hl]]; [eauto|]).
      by rewrite lookup_empty in Hl. }
    repeat (split; [by simplify_map_eq|]). by simplify_map_eq.
  - destruct (create_chunks_by_unit E _ _ _ _ _ Hc) as (by_unit & -> & Hall).
    exists by_unit. split; [done|].
    eapply Forall2_impl; [exact Hall|].
    intros unit made [Hsplit Hmade]. split; [done|].
    intros c Hin. rewrite (Hmade c Hin). unfold chunk_metadata_of.
    split; by simplify_map_eq.
Qed.

(** ** Extraction *)

(** The loop over the pages of a PDF: the units it adds are the non-blank
    pages, each labelled with its position in the file counted from 1. *)
Lemma pdf_pages_loop_units (pages : list (result string)) :
  ∀ i acc units,
    pdf_pages_loop i pages acc = Ok units →
    ∃ added,
      units = acc ++ added ∧
      ∀ label page_text,
        (label, page_text) ∈ added ↔
        ∃ j, pages !! j = Some (Ok page_text) ∧
             Py.truthy_str (Py.strip page_text) = true ∧
             label = Some (Z.of_nat (i + j) + 1).
Proof.
  induction pages as [|page rest IH]; intros i acc units Hloop.
  - injection Hloop as <-. exists []. rewrite app_nil_r. split; [done|].
    intros label t. split.
    + intros Hin. by apply elem_of_nil in Hin.
    + intros (j & Hj & _). by rewrite lookup_nil in Hj.
  - cbn [pdf_pages_loop] in Hloop. destruct page as [t0|e]; [|done].
    simpl in Hloop.
    destruct (Py.truthy_str (Py.strip t0)) eqn:Hblank.
    + destruct (IH _ _ _ Hloop) as (added & -> & Hadded).
      exists ((Some (Z.of_nat i + 1), t0) :: added).
      split; [by rewrite <- app_assoc|].
      intros label t. rewrite elem_of_cons, Hadded. split.
      * intros [[= -> ->]|(j & Hj & Hb & ->)].
        -- exists 0%nat. split; [done|]. split; [done|]. f_equal. lia.
        -- exists (S j). split; [done|]. split; [done|]. f_equal. lia.
      * intros ([|j] & Hj & Hb & ->).
        -- left. injection Hj as ->. f_equal. f_equal. lia.
        -- right. exists j. split; [done|]. split; [done|]. f_equal. lia.
    + destruct (IH _ _ _ Hloop) as (added & -> & Hadded).
      exists added. split; [done|].
      intros label t. rewrite Hadded. split.
      * intros (j & Hj & Hb & ->). exists (S j).
        split; [done|]. split; [done|]. f_equal. lia.
      * intros ([|j] & Hj & Hb & ->).
        -- injection Hj as ->. congruence.
        -- exists j. split; [done|]. split; [done|]. f_equal. lia.
Qed.

Lemma pdf_pages_loop_raises (pages : list (result string)) :
  ∀ i acc j e,
    pages !! j = Some (Raise e) →
    ∃ e', pdf_pages_loop i pages acc = Raise e'.
Proof.
  induction pages as [|page rest IH]; intros i acc j e Hj.
  - by rewrite lookup_nil in Hj.
  - cbn [pdf_pages_loop]. destruct page as [t0|e0]; [|by exists e0].
    simpl. destruct j as [|j]; [done|]. simpl in Hj.
    destruct (Py.truthy_str (Py.strip t0)); by eapply IH.
Qed.

(** X9.  The page a chunk of a PDF is filed under is the position, counted from
    1 and counting blank pages, of a non-blank page of the file; its
    [source] cites that page. *)
Theorem process_pdf_page_numbers (E : Env)
  (file_path document_id filename user_id : string) (w w' : World)
  (chunks : list Chunk) :
  process_pdf E file_path document_id filename user_id w = (Ok chunks, w') →
  ∀ c, c ∈ chunks →
    ∃ pages j page_text,
      PdfReader E file_path = Ok pages ∧
      pages !! j = Some (Ok page_text) ∧
      Py.truthy_str (Py.strip page_text) = true ∧
      chunk_metadata c !! "page" = Some (MStr (Py.str_int (Z.of_nat j + 1))) ∧
      chunk_metadata c !! "source"
      = Some (MStr (filename +:+ " (page " +:+ Py.str_int (Z.of_nat j + 1)
                    +:+ ")")).
Proof.
  unfold process_pdf, try_except, lift, bind, logger, ret. simpl.
  destruct (PdfReader E file_path) as [pages|e]; simpl.
  2:{ intros [= <- _] c Hin. by apply elem_of_nil in Hin. }
  destruct (pdf_pages_loop 0 pages []) as [units|e] eqn:Hloop; simpl.
  2:{ intros [= <- _] c Hin. by apply elem_of_nil in Hin. }
  destruct (create_chunks_with_metadata E units document_id filename user_id)
    as [cs|e] eqn:Hc.
  2:{ intros [= <- _] c Hin. by apply elem_of_nil in Hin. }
  intros [= <- _] c Hin.
  destruct (create_chunks_made E _ _ _ _ _ Hc c Hin) as (pn & pt & Hu & Hm).
  destruct (pdf_pages_loop_units _ _ _ _ Hloop) as (added & -> & Hadded).
  simpl in Hu. apply Hadded in Hu as (j & Hj & Hb & ->).
  exists pages, j, pt. split; [done|]. split; [done|]. split; [done|].
  rewrite Hm. unfold chunk_metadata_of. split; by simplify_map_eq.
Qed.

(** X10.  One page whose text cannot be extracted loses the whole PDF: no chunk
    is produced for any page, and the error is logged. *)
Theorem process_pdf_unreadable_page (E : Env)
  (file_path document_id filename user_id : string) (w : World)
  (pages : list (result string)) (j : nat) (e : exn) :
  PdfReader E file_path = Ok pages →
  pages !! j = Some (Raise e) →
  ∃ e',
    process_pdf E file_path document_id filename user_id w
    = (Ok [],
       with_log
         (log w ++ [{| levelname := ERROR;
                       message := "Error processing PDF " +:+ file_path +:+ ": "
                                  +:+ str_exn e' |}])
         w).
Proof.
  intros Hread Hj.
  destruct (pdf_pages_loop_raises pages 0 [] j e Hj) as (e' & Hloop).
  exists e'. unfold process_pdf, try_except, lift.
  rewrite Hread. simpl. rewrite Hloop. reflexivity.
Qed.

Lemma create_chunks_returns (E : Env) (text_by_page : list (option Z * string))
  (document_id filename user_id : string) :
  ∃ chunks,
    create_chunks_with_metadata E text_by_page document_id filename user_id
    = Ok chunks.
Proof.
  destruct (create_chunks_loop_units E text_by_page document_id filename
              user_id []) as (added & _ & Hloop & _).
  by exists added.
Qed.

(** X11.  [process_txt] never raises and chunks exactly the decoded text: the
    UTF-8 reading of the file, or its Latin-1 reading when, and only when,
    UTF-8 decoding fails; a blank text gives no chunk, and so does any
    other failure to read. *)
Theorem process_txt_decoding (E : Env)
  (file_path document_id filename user_id : string) (w : World) :
  ∃ chunks w',
    process_txt E file_path document_id filename user_id w = (Ok chunks, w') ∧
    match decoded_text E file_path with
    | Ok content =>
        if Py.truthy_str (Py.strip content)
        then create_chunks_with_metadata E [(None, content)] document_id
               filename user_id = Ok chunks
        else chunks = []
    | Raise _ => chunks = []
    end.
Proof.
  assert (∀ content w0,
    ∃ chunks w',
      try_except
        (if negb (Py.truthy_str (Py.strip content))
         then
           logger WARNING ("No content found in text file: " +:+ filename);;
           ret []
         else
           lift (create_chunks_with_metadata E [(None, content)] document_id
                   filename user_id))
        (fun e =>
           logger ERROR ("Error processing TXT " +:+ file_path +:+ ": "
                         +:+ str_exn e);;
           ret []) w0 = (Ok chunks, w') ∧
      if Py.truthy_str (Py.strip content)
      then create_chunks_with_metadata E [(None, content)] document_id
             filename user_id = Ok chunks
      else chunks = []) as Hrest.
  { intros content w0. unfold try_except.
    destruct (Py.truthy_str (Py.strip content)); simpl.
    - destruct (create_chunks_returns E [(None, content)] document_id filename
                  user_id) as (chunks & Hc).
      exists chunks, w0. unfold lift. by rewrite Hc.
    - unfold bind, logger, ret. simpl. eauto. }
  unfold process_txt, decoded_text.
  destruct (read_text E file_path utf_8) as [content|e] eqn:Hutf.
  - destruct (Hrest content w) as (chunks & w' & Hrun & Hchunks).
    exists chunks, w'. split; [|done].
    rewrite <- Hrun. unfold try_except, bind, ret. reflexivity.
  - destruct (is_UnicodeDecodeError e).
    + destruct (read_text E file_path latin_1) as [content|e1] eqn:Hlat.
      * destruct (Hrest content
                    (with_log (log w ++
                       [{| levelname := WARNING;
                           message := "Used Latin-1 encoding for " +:+ filename
                                      +:+ " as UTF-8 failed" |}]) w))
          as (chunks & w' & Hrun & Hchunks).
        exists chunks, w'. split; [|done].
        rewrite <- Hrun. unfold try_except, bind, lift, logger, ret.
        reflexivity.
      * eexists [], _. split; [|done].
        unfold try_except, bind, lift, logger, ret. simpl. reflexivity.
    + eexists [], _. split; [|done].
      unfold try_except, bind, raise, logger, ret. simpl. reflexivity.
Qed.

(** X12.  A path that ends in none of [.pdf], [.docx], [.txt] (compared as
    written, so [.PDF] is none of them) is not processed: no reader and no
    collaborator is called, nothing is indexed, and an error is logged. *)
Theorem process_document_unsupported (E : Env)
  (file_path document_id filename user_id : string) (w : World) :
  Py.endswith file_path ".pdf" = false →
  Py.endswith file_path ".docx" = false →
  Py.endswith file_path ".txt" = false →
  process_document E file_path document_id filename user_id w
  = (Ok tt,
     with_log
       (log w ++
        [ {| levelname := INFO;
             message := "Processing document: " +:+ filename +:+ " (ID: "
                        +:+ document_id +:+ ") for user: " +:+ user_id |};
          {| levelname := ERROR;
             message := "Unsupported file type: " +:+ file_path |} ])
       w).
Proof.
  intros Hpdf Hdocx Htxt. unfold process_document.
  unfold bind at 1, logger at 1. simpl. unfold try_except.
  rewrite Hpdf, Hdocx, Htxt. unfold logger. simpl.
  by rewrite <- app_assoc.
Qed.

(** ** What ingestion adds *)

Lemma index_is_grown_by (document_id filename user_id : string) c n p w :
  index_is c n p w → grown_by document_id filename user_id c n p w.
Proof.
  intros Hw. exists []. split.
  - intros ch Hin. by apply elem_of_nil in Hin.
  - simpl. by rewrite app_nil_r, Nat.add_0_r.
Qed.

(** Indexing adds the chunks it is given, all of them or none. *)
Lemma hoare_index_text_chunks_batch (E : Env) (document_id : string)
  (text_chunks : list Chunk) c n p :
  hoare (index_is c n p) (index_text_chunks E document_id text_chunks)
    (fun r w =>
       r = Ok tt ∧
       (index_is c n p w ∨
        index_is (c ++ Chroma.new_entries n (to_document <$> text_chunks))
          (n + length text_chunks)%nat p w)).
Proof.
  unfold index_text_chunks. destruct text_chunks as [|chunk chunks].
  { apply hoare_logger_end; [apply _|]. auto. }
  set (batch := chunk :: chunks).
  apply hoare_logger_then; [apply _|].
  eapply hoare_try with (R := fun r w =>
    match r with
    | Ok u =>
        u = tt ∧
        index_is (c ++ Chroma.new_entries n (to_document <$> batch))
          (n + length batch)%nat p w
    | Raise _ => index_is c n p w
    end).
  - eapply hoare_bind;
      [apply (hoare_add_documents_to_vectorstore E batch c n p); done | | done].
    intros ?. simpl.
    apply hoare_logger_end; [apply _|]. auto.
  - intros [] w [_ Hw]. auto.
  - intros e. apply hoare_logger_end; [apply _|]. auto.
Qed.

Lemma create_chunks_tagged (E : Env) (units : list (option Z * string))
  (document_id filename user_id : string) (r : result (list Chunk)) :
  r = create_chunks_with_metadata E units document_id filename user_id ∨
  r = Ok [] →
  ∃ chunks, r = Ok chunks ∧
    ∀ ch, ch ∈ chunks → tagged document_id filename user_id ch.
Proof.
  intros [-> | ->].
  - destruct (create_chunks_returns E units document_id filename user_id)
      as (chunks & Hc).
    exists chunks. split; [done|]. intros ch Hin.
    eapply made_from_tagged. by eapply create_chunks_made.
  - exists []. split; [done|]. intros ch Hin. by apply elem_of_nil in Hin.
Qed.

(** The chunks an extractor returns carry the document id, the file name
    and the owner it was called with. *)
Lemma process_pdf_tagged (E : Env)
  (file_path document_id filename user_id : string) (w : World) :
  ∃ chunks,
    (process_pdf E file_path document_id filename user_id w).1 = Ok chunks ∧
    ∀ ch, ch ∈ chunks → tagged document_id filename user_id ch.
Proof.
  unfold process_pdf, try_except, lift, bind, logger, ret. simpl.
  destruct (PdfReader E file_path) as [pages|e]; simpl;
    [|by apply (create_chunks_tagged E []); right].
  destruct (pdf_pages_loop 0 pages []) as [units|e]; simpl;
    [|by apply (create_chunks_tagged E []); right].
  destruct (create_chunks_tagged E units document_id filename user_id _
              (or_introl eq_refl)) as (chunks & Hc & Ht).
  rewrite Hc. simpl. eauto.
Qed.

Lemma process_docx_tagged (E : Env)
  (file_path document_id filename user_id : string) (w : World) :
  ∃ chunks,
    (process_docx E file_path document_id filename user_id w).1 = Ok chunks ∧
    ∀ ch, ch ∈ chunks → tagged document_id filename user_id ch.
Proof.
  unfold process_docx, try_except, lift, bind, logger, ret. simpl.
  destruct (docx_Document E file_path) as [paragraphs|e]; simpl;
    [|by apply (create_chunks_tagged E []); right].
  match goal with
  | |- context [create_chunks_with_metadata E ?u _ _ _] =>
      destruct (create_chunks_tagged E u document_id filename user_id _
                  (or_introl eq_refl)) as (chunks & Hc & Ht)
  end.
  rewrite Hc. simpl. eauto.
Qed.

(** [process_txt] ends with the chunks of some text or with no chunk. *)
Lemma hoare_process_txt_tagged_aux (E : Env)
  (file_path document_id filename user_id : string)
  (Q : result (list Chunk) -> World -> Prop) :
  (∀ units w,
     Q (create_chunks_with_metadata E units document_id filename user_id) w) →
  (∀ w, Q (Ok []) w) →
  hoare (fun _ => True)
    (process_txt E file_path document_id filename user_id) Q.
Proof.
  intros Hchunks Hnone. unfold process_txt.
  eapply hoare_try with (R := fun r w =>
    match r with Ok _ => Q r w | Raise _ => True end).
  - eapply hoare_bind with (R := fun _ _ => True); [done | | done].
    intros content. destruct (negb _).
    + apply hoare_logger_then; [apply _|]. apply hoare_ret. auto.
    + apply hoare_lift. intros w _.
      pose proof (Hchunks [(None, content)] w) as HQ.
      by destruct (create_chunks_with_metadata E [(None, content)] document_id
                     filename user_id).
  - by intros chunks w HQ.
  - intros e.
    eapply (hoare_conseq _ (fun _ => True)); [|done|intros r w H; exact H].
    apply hoare_logger_then; [apply _|]. apply hoare_ret. auto.
Qed.

Lemma process_txt_tagged (E : Env)
  (file_path document_id filename user_id : string) (w : World) :
  ∃ chunks,
    (process_txt E file_path document_id filename user_id w).1 = Ok chunks ∧
    ∀ ch, ch ∈ chunks → tagged document_id filename user_id ch.
Proof.
  apply (hoare_process_txt_tagged_aux E file_path document_id filename user_id
           (fun r _ =>
              ∃ chunks, r = Ok chunks ∧
                ∀ ch, ch ∈ chunks → tagged document_id filename user_id ch)).
  - intros units w0. apply (create_chunks_tagged E units). by left.
  - intros w0. exists []. split; [done|].
    intros ch Hin. by apply elem_of_nil in Hin.
  - done.
Qed.

Lemma hoare_extract_then_index (E : Env) (extract : M (list Chunk))
  (document_id filename user_id : string) c n p :
  hoare (index_is c n p) extract
    (fun r w => index_is c n p w ∧ ∃ chunks, r = Ok chunks) →
  (∀ w, ∃ chunks, (extract w).1 = Ok chunks ∧
          ∀ ch, ch ∈ chunks → tagged document_id filename user_id ch) →
  hoare (index_is c n p)
    (text_chunks <- extract;; index_text_chunks E document_id text_chunks)
    (fun r w => r = Ok tt ∧ grown_by document_id filename user_id c n p w).
Proof.
  intros Hex Htag w Hw. unfold bind.
  specialize (Hex w Hw). destruct (Htag w) as (chunks & Hr & Ht).
  destruct (extract w) as [r w1]. simpl in *. subst r.
  destruct Hex as [Hw1 _].
  destruct (hoare_index_text_chunks_batch E document_id chunks c n p w1 Hw1)
    as [Hr [Hsame|Hgrown]].
  - split; [done|]. by apply index_is_grown_by.
  - split; [done|]. by exists chunks.
Qed.

Lemma hoare_process_document_batch (E : Env)
  (file_path document_id filename user_id : string) c n p :
  hoare (index_is c n p)
    (process_document E file_path document_id filename user_id)
    (fun r w => r = Ok tt ∧ grown_by document_id filename user_id c n p w).
Proof.
  unfold process_document.
  apply hoare_logger_then; [apply _|].
  eapply hoare_try with
    (R := fun r w => r = Ok tt ∧ grown_by document_id filename user_id c n p w);
    [| done |].
  - destruct (Py.endswith file_path ".pdf").
    { apply hoare_extract_then_index with (filename := filename)
        (user_id := user_id);
        [by apply hoare_process_pdf | apply process_pdf_tagged]. }
    destruct (Py.endswith file_path ".docx").
    { apply hoare_extract_then_index with (filename := filename)
        (user_id := user_id);
        [by apply hoare_process_docx | apply process_docx_tagged]. }
    destruct (Py.endswith file_path ".txt").
    { apply hoare_extract_then_index with (filename := filename)
        (user_id := user_id);
        [by apply hoare_process_txt | apply process_txt_tagged]. }
    apply hoare_logger_end; [apply _|].
    intros w Hw. split; [done|]. by apply index_is_grown_by.
  - intros e. intros w [[=] _].
Qed.

Lemma process_document_grows (E : Env)
  (file_path document_id filename user_id : string) (w : World) :
  ∃ w' chunks,
    process_document E file_path document_id filename user_id w = (Ok tt, w') ∧
    (∀ ch, ch ∈ chunks → tagged document_id filename user_id ch) ∧
    collection w'
    = collection w ++ Chroma.new_entries (next_id w) (to_document <$> chunks) ∧
    next_id w' = (next_id w + length chunks)%nat ∧
    llm_prompts w' = llm_prompts w.
Proof.
  destruct (hoare_process_document_batch E file_path document_id filename
              user_id _ _ _ w (index_is_self w))
    as (Hr & chunks & Ht & Hc & Hn & Hp).
  destruct (process_document E file_path document_id filename user_id w)
    as [r w'].
  simpl in *. subst r. exists w', chunks. done.
Qed.

Lemma new_entries_elem_of (first_id : nat) (documents : list Document)
  (e : IndexEntry) :
  e ∈ Chroma.new_entries first_id documents →
  entry_document e ∈ documents ∧ (first_id ≤ entry_id e)%nat.
Proof.
  revert first_id. induction documents as [|d rest IH]; intros first_id Hin.
  - by apply elem_of_nil in Hin.
  - simpl in Hin. apply elem_of_cons in Hin as [->|Hin].
    + simpl. split; [apply elem_of_cons; by left | lia].
    + apply IH in Hin as [Hd Hid]. split; [apply elem_of_cons; by right | lia].
Qed.

(** X13.  Whatever [process_document] adds to the index is filed under the
    document id, the file name and the owner it was called with, and under
    ids that were not in use: every entry of the index afterwards is either
    an entry from before, or one with these three metadata values.  No entry
    from before is lost or changed. *)
Theorem process_document_files_under_owner (E : Env)
  (file_path document_id filename user_id : string) (w : World) :
  ∃ w' added,
    process_document E file_path document_id filename user_id w = (Ok tt, w') ∧
    collection w' = collection w ++ added ∧
    ∀ e, e ∈ added →
      (next_id w ≤ entry_id e)%nat ∧
      metadata (entry_document e) !! "document_id" = Some (MStr document_id) ∧
      metadata (entry_document e) !! "document" = Some (MStr filename) ∧
      metadata (entry_document e) !! "user_id" = Some (MStr user_id).
Proof.
  destruct (process_document_grows E file_path document_id filename user_id w)
    as (w' & chunks & Hrun & Ht & Hc & _).
  exists w', (Chroma.new_entries (next_id w) (to_document <$> chunks)).
  split; [done|]. split; [done|].
  intros e He. apply new_entries_elem_of in He as [Hd Hid].
  split; [done|].
  apply list_elem_of_fmap in Hd as (ch & -> & Hch).
  exact (Ht ch Hch).
Qed.

(** X14.  What one owner ingests never shows in the results of another: after
    [process_document] for [owner], a query scoped to a different,
    non-empty [user_id] returns only entries that were in the index before
    and belong to [user_id]. *)
Theorem ingest_invisible_to_other_owner (E : Env)
  (file_path document_id filename owner : string) (query : string)
  (top_k : Z) (user_id : string) (w : World) :
  user_id ≠ "" →
  user_id ≠ owner →
  ∀ docs w2,
    query_vectorstore E query top_k (Some user_id)
      (process_document E file_path document_id filename owner w).2
    = (Ok docs, w2) →
    ∀ d, d ∈ docs → d ∈ entry_document <$> collection w ∧ owned_by user_id d.
Proof.
  intros Hne Hother docs w2 Hq d Hd.
  destruct (process_document_grows E file_path document_id filename owner w)
    as (w1 & chunks & Hrun & Ht & Hc & _).
  rewrite Hrun in Hq. simpl in Hq.
  pose proof (hoare_query_vectorstore_collection E query top_k (Some user_id)
                _ w1 eq_refl) as Hqs.
  rewrite Hq in Hqs. simpl in Hqs.
  destruct Hqs as (_ & docs' & [= <-] & Hret).
  destruct (owner_filter_results E query top_k user_id _ docs Hne Hret d Hd)
    as [Hin Hown].
  split; [|done].
  rewrite Hc, fmap_app in Hin. apply elem_of_app in Hin as [Hin|Hin]; [done|].
  apply list_elem_of_fmap in Hin as (e & -> & He).
  apply new_entries_elem_of in He as [Hdoc _].
  apply list_elem_of_fmap in Hdoc as (ch & Hch & Hin).
  destruct (Ht ch Hin) as (_ & _ & Huser).
  rewrite Hch in Hown. unfold owned_by in Hown. simpl in Hown.
  congruence.
Qed.

Lemma filter_app_fresh (document_id : string) (c added : list IndexEntry) :
  (∀ e, e ∈ c → ¬ about_document document_id e) →
  (∀ e, e ∈ added → about_document document_id e) →
  filter (fun e => ¬ about_document document_id e) (c ++ added) = c.
Proof.
  intros Hc Hadded. rewrite filter_app.
  rewrite (filter_all _ c) by (intros e He; by apply Hc).
  assert (filter (fun e => ¬ about_document document_id e) added = []) as ->.
  { clear Hc. induction added as [|e added IH]; [done|].
    rewrite filter_cons_False.
    - apply IH. intros e' He'. apply Hadded. apply elem_of_cons. by right.
    - intros Hnot. apply Hnot. apply Hadded. apply elem_of_cons. by left. }
  by rewrite app_nil_r.
Qed.

(** X15.  Ingesting a document under an id that is not in use and then deleting
    that id gives back the index as it was: when the delete returns, the
    entries are those from before the ingestion, in the same order. *)
Theorem ingest_then_delete_restores (E : Env)
  (file_path document_id filename user_id : string) (w w2 : World) :
  document_id ≠ "" →
  wf_index w →
  (∀ e, e ∈ collection w → ¬ about_document document_id e) →
  delete_document_from_vectorstore E document_id
    (process_document E file_path document_id filename user_id w).2
  = (Ok PyNone, w2) →
  collection w2 = collection w.
Proof.
  intros Hne Hwf Hfresh Hdel.
  pose proof (wf_index_process_document E file_path document_id filename
                user_id w Hwf) as [Hnd _].
  destruct (process_document_grows E file_path document_id filename user_id w)
    as (w1 & chunks & Hrun & Ht & Hc & _).
  rewrite Hrun in Hdel, Hnd. simpl in Hdel, Hnd.
  pose proof (hoare_delete_document E document_id _ _ _ Hne Hnd w1
                (index_is_self w1)) as Hspec.
  rewrite Hdel in Hspec. simpl in Hspec.
  destruct Hspec as (_ & (Hc2 & _) & _).
  rewrite Hc2, Hc. apply filter_app_fresh; [done|].
  intros e He. apply new_entries_elem_of in He as [Hdoc _].
  apply list_elem_of_fmap in Hdoc as (ch & Hch & Hin).
  destruct (Ht ch Hin) as (Hid & _).
  unfold about_document. by rewrite Hch.
Qed.

(** ** Citing documents without pages *)

Lemma citation_page_zero (filename : string) (doc : Document) :
  metadata doc !! "document" = Some (MStr filename) →
  metadata doc !! "page" = Some (MStr "0") →
  citation doc = filename +:+ " (Page 0)".
Proof.
  intros Hdoc Hpage. unfold citation, page_info, document_name.
  by rewrite Hdoc, Hpage.
Qed.

(** X16.  A Word or plain-text document has no pages, and yet every chunk of it
    is cited with one: its [page] is the string ["0"], which is not empty
    and so counts as present when the context of a prompt is formatted and
    is passed on in the sources of an answer.  The chunk is cited as
    ["<file name> (Page 0)"]. *)
Theorem unpaged_chunks_cited_as_page_zero (E : Env)
  (file_path document_id filename user_id : string) (w w' : World)
  (chunks : list Chunk) :
  process_docx E file_path document_id filename user_id w = (Ok chunks, w') ∨
  process_txt E file_path document_id filename user_id w = (Ok chunks, w') →
  ∀ c, c ∈ chunks →
    citation (to_document c) = filename +:+ " (Page 0)" ∧
    source_page (to_source (to_document c)) = Some (MStr "0").
Proof.
  intros Hrun c Hin.
  assert (chunk_metadata c !! "page" = Some (MStr "0") ∧
          tagged document_id filename user_id c) as [Hpage (_ & Hdoc & _)].
  { destruct Hrun as [Hrun|Hrun].
    - split; [by eapply process_docx_page_sentinel|].
      destruct (process_docx_tagged E file_path document_id filename user_id w)
        as (chunks' & Hr & Ht).
      rewrite Hrun in Hr. injection Hr as <-. by apply Ht.
    - split; [by eapply process_txt_page_sentinel|].
      destruct (process_txt_tagged E file_path document_id filename user_id w)
        as (chunks' & Hr & Ht).
      rewrite Hrun in Hr. injection Hr as <-. by apply Ht. }
  split; [by apply citation_page_zero|]. exact Hpage.
Qed.

(** ** The documents directory *)

Lemma startswith_cons (c d : ascii) (p s : string) :
  Py.startswith (String c p) (String d s)
  = if ascii_dec c d then Py.startswith p s else false.
Proof. reflexivity. Qed.

Lemma startswith_empty (s : string) : Py.startswith "" s = true.
Proof. by destruct s. Qed.

Lemma path_join_documents (name : string) :
  Os.path_join DOCUMENTS_DIRECTORY name
  = if Py.startswith "/" name then name
    else String "." ("/data/documents/" +:+ name).
Proof. reflexivity. Qed.

Lemma startswith_slash (name : string) :
  Py.startswith "/" name = true → ∃ rest, name = String "/" rest.
Proof.
  destruct name as [|c rest]; [done|].
  rewrite startswith_cons. destruct (ascii_dec "/" c) as [<-|]; [eauto|done].
Qed.

(** Two names of the documents directory have different paths. *)
Lemma path_join_inj (a b : string) :
  Os.path_join DOCUMENTS_DIRECTORY a = Os.path_join DOCUMENTS_DIRECTORY b →
  a = b.
Proof.
  rewrite !path_join_documents.
  destruct (Py.startswith "/" a) eqn:Ha, (Py.startswith "/" b) eqn:Hb.
  - done.
  - apply startswith_slash in Ha as (rest & ->). intros [=].
  - apply startswith_slash in Hb as (rest & ->). intros [=].
  - intros [= H]. exact H.
Qed.

Lemma stat_Some (file_path : string) (files : list StoredFile) (f : StoredFile) :
  Os.stat file_path files = Some f → f ∈ files ∧ Os.path_of f = file_path.
Proof.
  unfold Os.stat. intros H. apply find_some in H as [Hin Heq].
  split; [by apply list_elem_of_In|]. by apply String.eqb_eq.
Qed.

Lemma stat_listed (name : string) (files : list StoredFile) :
  name ∈ file_name <$> files →
  ∃ f, Os.stat (Os.path_join DOCUMENTS_DIRECTORY name) files = Some f.
Proof.
  intros Hin. apply list_elem_of_fmap in Hin as (f & -> & Hf).
  destruct (Os.stat (Os.path_join DOCUMENTS_DIRECTORY (file_name f)) files)
    as [g|] eqn:Hstat; [eauto|].
  unfold Os.stat in Hstat.
  apply list_elem_of_In in Hf.
  pose proof (find_none _ _ Hstat f Hf) as Hne.
  unfold Os.path_of in Hne. by rewrite String.eqb_refl in Hne.
Qed.

Lemma filter_path_name (name : string) (files : list StoredFile) :
  filter (fun f => Os.path_of f ≠ Os.path_join DOCUMENTS_DIRECTORY name) files
  = filter (fun f => file_name f ≠ name) files.
Proof.
  apply filter_ext_in. intros f _. unfold Os.path_of. split.
  - intros Hne Heq. apply Hne. by rewrite Heq.
  - intros Hne Heq. apply Hne. by apply path_join_inj.
Qed.

(** The loop of [delete_document]: nothing happens before the first name
    with the prefix; that file is removed and the loop is left, or the
    removal fails and the function returns [False]. *)
Lemma hoare_delete_document_loop (P : World -> Prop) `{!Stable P}
  (document_id : string) (files : list StoredFile) (filenames : list string) :
  (∀ name, name ∈ filenames → name ∈ file_name <$> files) →
  hoare P (delete_document_loop document_id filenames files)
    (fun r w =>
       P w ∧
       ∃ exit files', r = Ok (exit, files') ∧
         match
           List.find (fun name => Py.startswith (document_id +:+ "_") name)
             filenames
         with
         | None => exit = Fallthrough false ∧ files' = files
         | Some name =>
             (exit = Fallthrough true ∧
              files' = filter (fun f => file_name f ≠ name) files) ∨
             (exit = Returned false ∧ files' = files)
         end).
Proof.
  induction filenames as [|filename rest IH]; intros Hnames.
  { apply hoare_ret. intros w Hw. split; [done|]. by eexists _, _. }
  cbn [delete_document_loop List.find].
  destruct (Py.startswith (document_id +:+ "_") filename).
  2:{ apply IH. intros name Hin. apply Hnames. apply elem_of_cons. by right. }
  destruct (stat_listed filename files) as (f & Hstat).
  { apply Hnames. apply elem_of_cons. by left. }
  eapply hoare_try with (R := fun r w =>
    P w ∧
    match r with
    | Ok v => v = (Fallthrough true,
                   filter (fun f => file_name f ≠ filename) files)
    | Raise _ => True
    end).
  - unfold Os.remove.
    eapply hoare_bind with (R := fun r w =>
      P w ∧ match r with
            | Ok v => v = filter (fun f => file_name f ≠ filename) files
            | Raise _ => True
            end).
    + eapply hoare_bind; [by apply hoare_external | | done].
      intros ?. rewrite Hstat. apply hoare_ret. intros w Hw. split; [done|].
      apply filter_path_name.
    + intros files'. simpl.
      eapply (hoare_conseq _ (fun w => P w ∧ files'
                = filter (fun f => file_name f ≠ filename) files));
        [|done|intros r w H; exact H].
      intros w [Hw ->]. unfold bind, logger, ret. simpl.
      split; [by apply stable_log|done].
    + intros e w [Hw _]. done.
  - intros [exit files'] w [Hw [= -> ->]]. split; [done|].
    eexists _, _. split; [done|]. by left.
  - intros e w [Hw _]. unfold bind, logger, ret. simpl.
    split; [by apply stable_log|]. eexists _, _. split; [done|]. by right.
Qed.

Lemma hoare_listdir (P : World -> Prop) `{!Stable P} (files : list StoredFile) :
  hoare P (Os.listdir files)
    (fun r w =>
       P w ∧ match r with Ok names => names = file_name <$> files
                        | Raise _ => True end).
Proof.
  unfold Os.listdir.
  eapply hoare_bind; [by apply hoare_external | | done].
  intros ?. apply hoare_ret. done.
Qed.

Lemma hoare_assume {A} (P : World -> Prop) (fact : Prop) (m : M A)
  (Q : result A -> World -> Prop) :
  (fact → hoare P m Q) → hoare (fun w => P w ∧ fact) m Q.
Proof. intros H w [Hw Hfact]. by apply H. Qed.

(** Deleting from the index, for any id: the entries of the document are
    gone, or the index is as before. *)
Lemma hoare_delete_document_any (E : Env) (document_id : string) c n p :
  NoDup (entry_id <$> c) →
  hoare (index_is c n p) (delete_document_from_vectorstore E document_id)
    (fun r w =>
       match r with
       | Ok _ =>
           index_is c n p w ∨
           index_is (filter (fun e => ¬ about_document document_id e) c) n p w
       | Raise _ => index_is c n p w
       end).
Proof.
  intros Hnd. destruct (decide (document_id = "")) as [->|Hne].
  - intros w Hw. rewrite delete_empty_document_id. simpl. by left.
  - eapply hoare_conseq; [by apply hoare_delete_document | done |].
    intros [v|e] w; simpl; [|tauto]. intros (_ & Hw & _). by right.
Qed.

(** What [delete_document] does to the files and to the index, for an index
    with unique ids. *)
Lemma hoare_delete_document_service (E : Env) (document_id user_id : string)
  (files : list StoredFile) c n p :
  NoDup (entry_id <$> c) →
  hoare (index_is c n p) (delete_document E document_id user_id files)
    (fun r w =>
       ∃ value files', r = Ok (value, files') ∧
         if value
         then
           (∃ name, first_match document_id files = Some name ∧
                    files' = filter (fun f => file_name f ≠ name) files) ∧
           (index_is c n p w ∨
            index_is (filter (fun e => ¬ about_document document_id e) c) n p w)
         else files' = files ∧ index_is c n p w).
Proof.
  intros Hnd. unfold delete_document.
  set (Left := fun (exit : loop_exit) (files' : list StoredFile) =>
    (exit = Returned false ∧ files' = files) ∨
    match first_match document_id files with
    | None => exit = Fallthrough false ∧ files' = files
    | Some name =>
        exit = Fallthrough true ∧
        files' = filter (fun f => file_name f ≠ name) files
    end).
  eapply hoare_bind with (R := fun r w =>
    index_is c n p w ∧ ∃ exit files', r = Ok (exit, files') ∧ Left exit files').
  - eapply hoare_try with (R := fun r w =>
      index_is c n p w ∧
      match r with
      | Ok (exit, files') => Left exit files'
      | Raise _ => True
      end).
    + eapply hoare_bind; [by apply hoare_listdir | | by intros e w [Hw _]].
      intros names.
      eapply (hoare_conseq _ (fun w => index_is c n p w
                                ∧ names = file_name <$> files));
        [|done|intros r w H; exact H].
      intros w [Hw ->].
      destruct (hoare_delete_document_loop (index_is c n p) document_id files
                  (file_name <$> files) ltac:(done) w Hw)
        as (Hw' & exit & files' & Hr & Hexit).
      rewrite Hr. split; [done|]. unfold Left, first_match.
      destruct (List.find _ _); [|by right].
      destruct Hexit as [Hexit|Hexit]; [by right | by left].
    + intros [exit files'] w [Hw Hexit]. split; [done|]. eauto.
    + intros e w [Hw _]. unfold bind, logger, ret. simpl.
      split; [done|]. eexists _, _. split; [done|]. by left.
  - intros [exit files'].
    eapply (hoare_conseq _ (fun w => index_is c n p w ∧ Left exit files'));
      [|by intros w (Hw & e' & f' & [= <- <-] & HL)|intros r w H; exact H].
    apply hoare_assume. intros HL. unfold Left in HL. clear Left.
    destruct exit as [[]|value]; cbn [negb].
    + (* a file was removed: the index is cleaned, failures are swallowed *)
      destruct HL as [[[=] _]|HL].
      destruct (first_match document_id files) as [name|] eqn:Hfirst;
        [|by destruct HL as [[=] _]].
      destruct HL as [_ ->].
      eapply hoare_bind with (R := fun r w =>
        (index_is c n p w ∨
         index_is (filter (fun e => ¬ about_document document_id e) c) n p w)
        ∧ ∃ u, r = Ok u).
      * eapply hoare_try with (R := fun r w =>
          match r with
          | Ok _ =>
              index_is c n p w ∨
              index_is (filter (fun e => ¬ about_document document_id e) c)
                n p w
          | Raise _ => index_is c n p w
          end).
        -- eapply hoare_bind; [by apply hoare_delete_document_any | | done].
           intros v. by apply hoare_ret.
        -- intros u w Hw. eauto.
        -- intros e. apply hoare_logger_end; [apply _|].
           intros w Hw. split; [by left | by eexists].
      * intros u. apply hoare_ret. intros w [Hw _].
        eexists _, _. split; [done|]. split; [by eexists | done].
      * intros e w [_ [u [=]]].
    + apply hoare_logger_then; [apply _|]. apply hoare_ret. intros w Hw.
      eexists _, _. split; [done|].
      destruct HL as [[[=] _]|HL].
      destruct (first_match document_id files); destruct HL as [? ->]; done.
    + apply hoare_ret. intros w Hw.
      eexists _, _. split; [done|].
      destruct HL as [[[= ->] ->]|HL]; [done|].
      destruct (first_match document_id files); by destruct HL as [[=] _].
  - intros e w (_ & exit & files' & [=] & _).
Qed.

(** X17.  [delete_document] never raises.  It returns [True] only after it has
    removed a file: the first one, in the order of the listing, whose name
    starts with the id and an underscore, and no other file even when
    several carry the prefix.  The entries of the document are then gone
    from the index, or, the failure of the vector store being swallowed,
    the index is as before.  When it returns [False], neither the files nor
    the index have changed. *)
Theorem delete_document_outcome (E : Env) (document_id user_id : string)
  (files : list StoredFile) (w : World) :
  wf_index w →
  ∃ value files' w',
    delete_document E document_id user_id files w = (Ok (value, files'), w') ∧
    if value
    then
      (∃ name, first_match document_id files = Some name ∧
               files' = filter (fun f => file_name f ≠ name) files) ∧
      (collection w' = collection w ∨
       collection w'
       = filter (fun e => ¬ about_document document_id e) (collection w))
    else files' = files ∧ collection w' = collection w.
Proof.
  intros [Hnd _].
  destruct (hoare_delete_document_service E document_id user_id files _ _ _
              Hnd w (index_is_self w)) as (value & files' & Hr & Hpost).
  destruct (delete_document E document_id user_id files w) as [r w'].
  simpl in *. subst r. exists value, files', w'. split; [done|].
  destruct value.
  - destruct Hpost as [Hfiles [(Hc & _)|(Hc & _)]]; auto.
  - destruct Hpost as [-> (Hc & _)]. done.
Qed.

Lemma external_no_faults (what : string) (w : World) :
  faults w = [] → external what w = (Ok tt, w).
Proof. intros Hf. unfold external. by rewrite Hf. Qed.

Lemma find_first_match (document_id : string) (files : list StoredFile)
  (name : string) :
  first_match document_id files = Some name → name ∈ file_name <$> files.
Proof.
  unfold first_match. intros H. apply find_some in H as [Hin _].
  by apply list_elem_of_In.
Qed.

Lemma delete_document_loop_no_faults (document_id : string)
  (files : list StoredFile) (filenames : list string) (name : string)
  (w : World) :
  faults w = [] →
  (∀ x, x ∈ filenames → x ∈ file_name <$> files) →
  List.find (fun x => Py.startswith (document_id +:+ "_") x) filenames
  = Some name →
  delete_document_loop document_id filenames files w
  = (Ok (Fallthrough true, filter (fun f => file_name f ≠ name) files),
     with_log
       (log w ++
        [{| levelname := INFO;
            message := "Deleted document file: "
                       +:+ Os.path_join DOCUMENTS_DIRECTORY name |}]) w).
Proof.
  intros Hf. induction filenames as [|filename rest IH]; intros Hnames Hfind.
  { done. }
  cbn [delete_document_loop List.find] in *.
  destruct (Py.startswith (document_id +:+ "_") filename).
  - injection Hfind as ->.
    destruct (stat_listed name files) as (f & Hstat).
    { apply Hnames. apply elem_of_cons. by left. }
    unfold try_except, bind at 1, Os.remove, bind at 1.
    rewrite (external_no_faults _ _ Hf), Hstat.
    unfold bind, logger, ret. simpl. by rewrite filter_path_name.
  - apply IH; [|done]. intros x Hx. apply Hnames. apply elem_of_cons. by right.
Qed.

(** X18.  With the file system and the vector store working, deleting a document
    that has a file removes the file and every entry of the document. *)
Theorem delete_document_succeeds (E : Env) (document_id user_id : string)
  (files : list StoredFile) (name : string) (w : World) :
  faults w = [] →
  wf_index w →
  document_id ≠ "" →
  first_match document_id files = Some name →
  ∃ w',
    delete_document E document_id user_id files w
    = (Ok (true, filter (fun f => file_name f ≠ name) files), w') ∧
    collection w'
    = filter (fun e => ¬ about_document document_id e) (collection w).
Proof.
  intros Hf [Hnd _] Hne Hfirst.
  unfold delete_document, bind at 1, try_except at 1, bind at 1, Os.listdir,
    bind at 1.
  rewrite (external_no_faults _ _ Hf). unfold ret at 1.
  rewrite (delete_document_loop_no_faults document_id files _ name w Hf
             ltac:(done) Hfirst).
  cbn [negb].
  set (w1 := with_log _ w).
  assert (faults w1 = []) as Hf1 by done.
  destruct (delete_no_faults E document_id w1 Hf1) as (w2 & Hdel & _).
  pose proof (hoare_delete_document E document_id _ _ _ Hne Hnd w1
                (index_is_self w1)) as Hspec.
  rewrite Hdel in Hspec. simpl in Hspec. destruct Hspec as (_ & (Hc & _) & _).
  exists w2. unfold bind, try_except. rewrite Hdel. by unfold ret.
Qed.

(** ** Listing the documents *)

Lemma contains_underscore_cons (c : ascii) (s : string) :
  Py.contains "_" (String c s) = false ↔
  c ≠ underscore ∧ Py.contains "_" s = false.
Proof.
  cbn [Py.contains]. rewrite startswith_cons, startswith_empty.
  destruct (ascii_dec "_" c) as [<-|Hne]; simpl.
  - split; [done|]. by intros [? _].
  - split; [|by intros [_ ?]]. intros H. split; [|done]. by intros ->.
Qed.

(** Splitting at the first underscore. *)
Lemma split_once_parts (s : string) :
  (split_once underscore s = [s] ∧ Py.contains "_" s = false) ∨
  ∃ a b, split_once underscore s = [a; b] ∧ s = a +:+ "_" +:+ b ∧
         Py.contains "_" a = false.
Proof.
  induction s as [|c s IH].
  - left. done.
  - cbn [split_once]. destruct (Ascii.eqb_spec c underscore) as [->|Hne].
    + right. exists "", s. done.
    + destruct IH as [[-> Hno]|(a & b & -> & Hs & Hno)].
      * left. split; [done|]. by apply contains_underscore_cons.
      * right. exists (String c a), b. split; [done|]. split.
        -- rewrite Hs at 1. reflexivity.
        -- by apply contains_underscore_cons.
Qed.

Lemma split_once_join (a b : string) :
  Py.contains "_" a = false →
  split_once underscore (a +:+ "_" +:+ b) = [a; b].
Proof.
  induction a as [|c a IH]; intros Hno.
  - reflexivity.
  - apply contains_underscore_cons in Hno as [Hne Hno].
    change (String c a +:+ "_" +:+ b) with (String c (a +:+ "_" +:+ b)).
    cbn [split_once]. destruct (Ascii.eqb_spec c underscore); [done|].
    by rewrite IH.
Qed.

Lemma hoare_stat_call (P : World -> Prop) `{!Stable P} (what : string)
  (field : StoredFile -> Z) (file_path : string) (files : list StoredFile) :
  hoare P
    (external what;;
     match Os.stat file_path files with
     | Some f => ret (field f)
     | None => raise (ExternalError "No such file or directory")
     end)
    (fun r w =>
       P w ∧
       match r with
       | Ok v => ∃ f, Os.stat file_path files = Some f ∧ v = field f
       | Raise _ => True
       end).
Proof.
  eapply hoare_bind; [by apply hoare_external | | done].
  intros ?. destruct (Os.stat file_path files) as [f|].
  - apply hoare_ret. eauto.
  - by apply hoare_raise.
Qed.

(** A pure step that returns is followed by the next step; one that raises
    ends the sequence. *)
Lemma hoare_lift_then {A B} (P : World -> Prop) (r : result A) (k : A -> M B)
  (Q : result B -> World -> Prop) :
  (∀ a, r = Ok a → hoare P (k a) Q) →
  (∀ e w, r = Raise e → P w → Q (Raise e) w) →
  hoare P (bind (lift r) k) Q.
Proof.
  intros Hok Hraise w Hw. unfold bind, lift. destruct r as [a|e].
  - by apply (Hok a).
  - by apply Hraise.
Qed.

(** The loop of [list_documents] returns, and every response it adds
    describes a file of the directory. *)
Lemma hoare_list_documents_loop (P : World -> Prop) `{!Stable P}
  (platform : Platform) (files : list StoredFile) (filenames : list string) :
  ∀ documents,
    Forall (listed_from files) documents →
    hoare P (list_documents_loop platform filenames files documents)
      (fun r w =>
         P w ∧ ∃ listed, r = Ok listed ∧ Forall (listed_from files) listed).
Proof.
  induction filenames as [|filename rest IH]; intros documents Hdocs.
  { apply hoare_ret. eauto. }
  cbn [list_documents_loop]. fold (supported_name filename).
  destruct (supported_name filename) eqn:Hext; [|by apply IH].
  destruct (split_once_parts filename)
    as [[-> _]|(document_id & original & -> & Hname & Hno)].
  { apply hoare_logger_then; [done|]. by apply IH. }
  eapply hoare_bind with (R := fun r w =>
    P w ∧ ∃ listed, r = Ok listed ∧ Forall (listed_from files) listed).
  - eapply hoare_try with (R := fun r w =>
      P w ∧ match r with
            | Ok listed => Forall (listed_from files) listed
            | Raise _ => True
            end).
    + eapply hoare_bind; [by apply hoare_stat_call | | by intros e w [Hw _]].
      intros mtime. simpl.
      apply hoare_assume. intros (f & Hstat & ->).
      apply hoare_lift_then; [|done].
      intros created_at Hdate.
      assert (created_at = file_mtime f) as ->.
      { unfold datetime_fromtimestamp in Hdate.
        destruct (fromtimestamp_error platform (file_mtime f)); congruence. }
      eapply hoare_bind; [by apply hoare_stat_call | | by intros e w [Hw _]].
      intros size. simpl.
      apply hoare_assume. intros (f' & Hstat' & ->).
      apply hoare_ret. intros w Hw. split; [done|].
      apply Forall_app. split; [done|]. apply Forall_singleton.
      rewrite Hstat in Hstat'. injection Hstat' as <-.
      apply stat_Some in Hstat as [Hin Hpath].
      apply path_join_inj in Hpath.
      exists f. simpl. rewrite Hpath. done.
    + intros listed w [Hw Hl]. eauto.
    + intros e. apply hoare_assume. intros ?.
      apply hoare_logger_then; [done|]. apply hoare_ret. eauto.
  - intros listed.
    eapply (hoare_conseq _ (fun w => P w ∧ Forall (listed_from files) listed));
      [|by intros w (Hw & l' & [= <-] & Hl)|intros r w H; exact H].
    apply hoare_assume. intros Hl. by apply IH.
  - intros e w (_ & l' & [=] & _).
Qed.

(** X19.  [list_documents] raises only when the directory cannot be listed.
    When it returns, every response describes a file of the directory whose
    name ends in [.pdf], [.docx] or [.txt]: the name of the file is the id
    of the response, an underscore and its file name, the id is the part
    before the first underscore, and size and time are those of the file.
    Nothing is listed that is not stored, whoever asks. *)
Theorem list_documents_describes_files (platform : Platform)
  (user_id : string) (files : list StoredFile) (w : World) :
  ∀ r w', list_documents platform user_id files w = (r, w') →
    collection w' = collection w ∧
    match r with
    | Ok listed => ∀ d, d ∈ listed → listed_from files d
    | Raise e => e = ExternalError "listdir"
    end.
Proof.
  intros r w'. unfold list_documents, bind at 1, Os.listdir, bind at 1.
  assert (∀ w0, collection w0 = collection w →
            list_documents_loop platform (file_name <$> files) files [] w0
            = (r, w') →
            collection w' = collection w ∧
            match r with
            | Ok listed => ∀ d, d ∈ listed → listed_from files d
            | Raise e => e = ExternalError "listdir"
            end) as Hloop.
  { intros w0 Hc Hrun.
    destruct (hoare_list_documents_loop (fun w => collection w = collection w0)
                platform files (file_name <$> files) [] ltac:(done) w0 eq_refl)
      as (Hc' & listed & Hr & Hl).
    rewrite Hrun in Hc', Hr. simpl in Hc', Hr. subst r.
    split; [congruence|]. by apply Forall_forall. }
  unfold external. destruct (faults w) as [|[] rest]; unfold ret; simpl.
  - by apply Hloop.
  - by intros [= <- <-].
  - by apply Hloop.
Qed.

Lemma stat_unique (files : list StoredFile) (f : StoredFile) :
  NoDup (file_name <$> files) → f ∈ files →
  Os.stat (Os.path_of f) files = Some f.
Proof.
  intros Hnd Hin.
  destruct (stat_listed (file_name f) files) as (g & Hstat).
  { apply list_elem_of_fmap. eauto. }
  change (Os.path_join DOCUMENTS_DIRECTORY (file_name f)) with (Os.path_of f)
    in Hstat.
  rewrite Hstat. f_equal.
  apply stat_Some in Hstat as [Hg Hpath]. apply path_join_inj in Hpath.
  by apply (NoDup_fmap_eq file_name files).
Qed.

(** With the file system working, the loop of [list_documents] lists every
    name it is given that has an extension and an underscore, and whose
    file has a modification time that converts to a date. *)
Lemma list_documents_loop_no_faults (platform : Platform)
  (files : list StoredFile) (filenames : list string) :
  ∀ documents w,
    faults w = [] →
    (∀ x, x ∈ filenames → x ∈ file_name <$> files) →
    ∃ listed w',
      list_documents_loop platform filenames files documents w
      = (Ok listed, w') ∧
      (∀ d, d ∈ documents → d ∈ listed) ∧
      ∀ name document_id original,
        name ∈ filenames → supported_name name = true →
        split_once underscore name = [document_id; original] →
        ∃ f, Os.stat (Os.path_join DOCUMENTS_DIRECTORY name) files = Some f ∧
             (fromtimestamp_error platform (file_mtime f) = None →
              response_of document_id original f ∈ listed).
Proof.
  induction filenames as [|filename rest IH]; intros documents w Hf Hnames.
  { exists documents, w. split; [done|]. split; [done|].
    intros name ? ? Hin. by apply elem_of_nil in Hin. }
  assert (∀ x, x ∈ rest → x ∈ file_name <$> files) as Hrest.
  { intros x Hx. apply Hnames. apply elem_of_cons. by right. }
  cbn [list_documents_loop]. fold (supported_name filename).
  destruct (supported_name filename) eqn:Hext.
  2:{ destruct (IH documents w Hf Hrest) as (listed & w' & Hrun & Hkeep & Hall).
      exists listed, w'. split; [done|]. split; [done|].
      intros name id orig Hin Hsup Hsplit.
      apply elem_of_cons in Hin as [->|Hin]; [congruence|]. eauto. }
  destruct (split_once_parts filename)
    as [[Hsplit _]|(document_id & original & Hsplit & Hname & Hno)];
    rewrite Hsplit.
  { unfold bind at 1, logger at 1.
    set (w1 := with_log _ w).
    destruct (IH documents w1 Hf Hrest) as (listed & w' & Hrun & Hkeep & Hall).
    exists listed, w'. split; [done|]. split; [done|].
    intros name id orig Hin Hsup Hsplit'.
    apply elem_of_cons in Hin as [->|Hin]; [congruence|]. eauto. }
  destruct (stat_listed filename files) as (f & Hstat).
  { apply Hnames. apply elem_of_cons. by left. }
  unfold bind at 1, try_except, bind at 1, Os.path_getmtime, bind at 1.
  rewrite (external_no_faults _ _ Hf), Hstat.
  unfold ret at 1, bind at 1, lift at 1, datetime_fromtimestamp.
  destruct (fromtimestamp_error platform (file_mtime f)) as [e|] eqn:Hdate.
  { unfold bind at 1, logger at 1, ret at 1.
    set (w1 := with_log _ w).
    destruct (IH documents w1 Hf Hrest) as (listed & w' & Hrun & Hkeep & Hall).
    exists listed, w'. split; [exact Hrun|]. split; [done|].
    intros name id orig Hin Hsup Hsplit'.
    apply elem_of_cons in Hin as [->|Hin]; [|eauto].
    exists f. split; [done|]. congruence. }
  unfold bind at 1, Os.path_getsize, bind at 1.
  rewrite (external_no_faults _ _ Hf), Hstat. unfold ret at 1 2.
  destruct (IH (documents ++ [response_of document_id original f]) w Hf Hrest)
    as (listed & w' & Hrun & Hkeep & Hall).
  exists listed, w'. split; [exact Hrun|]. split.
  { intros d Hd. apply Hkeep. apply elem_of_app. by left. }
  intros name id orig Hin Hsup Hsplit'.
  apply elem_of_cons in Hin as [->|Hin]; [|eauto].
  rewrite Hsplit in Hsplit'. injection Hsplit' as <- <-.
  exists f. split; [done|]. intros _. apply Hkeep. apply elem_of_app. right.
  by apply list_elem_of_singleton.
Qed.

(** X20.  A file stored under the name the upload gives it, the id, an underscore
    and the original name, is listed with that id and that name when the id
    contains no underscore, the name ends in [.pdf], [.docx] or [.txt], and
    the modification time of the file is one [datetime.fromtimestamp]
    converts (a file whose time it does not convert is left out of the
    listing, with an error logged). *)
Theorem list_documents_finds_stored (platform : Platform)
  (user_id document_id original : string)
  (files : list StoredFile) (f : StoredFile) (w : World) :
  faults w = [] →
  NoDup (file_name <$> files) →
  f ∈ files →
  file_name f = document_id +:+ "_" +:+ original →
  Py.contains "_" document_id = false →
  supported_name (file_name f) = true →
  fromtimestamp_error platform (file_mtime f) = None →
  ∃ listed w',
    list_documents platform user_id files w = (Ok listed, w') ∧
    response_of document_id original f ∈ listed.
Proof.
  intros Hf Hnd Hin Hname Hno Hsup Hdate.
  unfold list_documents, bind at 1, Os.listdir, bind at 1.
  rewrite (external_no_faults _ _ Hf). unfold ret at 1.
  destruct (list_documents_loop_no_faults platform files (file_name <$> files)
              [] w Hf ltac:(done)) as (listed & w' & Hrun & _ & Hall).
  exists listed, w'. split; [done|].
  destruct (Hall (file_name f) document_id original) as (g & Hstat & Hg).
  - apply list_elem_of_fmap. eauto.
  - done.
  - rewrite Hname. by apply split_once_join.
  - change (Os.path_join DOCUMENTS_DIRECTORY (file_name f))
      with (Os.path_of f) in Hstat.
    rewrite (stat_unique files f Hnd Hin) in Hstat. injection Hstat as <-.
    by apply Hg.
Qed.

(** ** The status of the vector store *)

Lemma hoare_count_value c n p :
  hoare (index_is c n p) Chroma.count
    (fun r w =>
       index_is c n p w ∧
       match r with
       | Ok count => count = Z.of_nat (length c)
       | Raise _ => True
       end).
Proof.
  unfold Chroma.count.
  eapply hoare_bind; [by apply hoare_external | | done].
  intros ? w Hw. split; [done|]. simpl. destruct Hw as (-> & _). done.
Qed.

Lemma hoare_get_vector_store_status (E : Env) c n p :
  hoare (index_is c n p) (get_vector_store_status E)
    (fun r w =>
       index_is c n p w ∧
       ∃ status, r = Ok status ∧
         (status
          = <["status" := MStr "ok"]>
            (<["document_count" := MInt (Z.of_nat (length c))]>
            (<["persist_directory" := MStr "./data/chroma"]>
            (<["embedding_model" := MStr "all-MiniLM-L6-v2"]> ∅))) ∨
          ∃ error,
            status
            = <["status" := MStr "error"]> (<["error" := MStr error]> ∅) ∧
            last (log w)
            = Some {| levelname := ERROR;
                      message := "Error getting vector store status: "
                                 +:+ error |})).
Proof.
  unfold get_vector_store_status.
  eapply hoare_try with (R := fun r w =>
    index_is c n p w ∧
    match r with
    | Ok status =>
        status
        = <["status" := MStr "ok"]>
          (<["document_count" := MInt (Z.of_nat (length c))]>
          (<["persist_directory" := MStr "./data/chroma"]>
          (<["embedding_model" := MStr "all-MiniLM-L6-v2"]> ∅)))
    | Raise _ => True
    end).
  - eapply hoare_bind with (R := fun _ w => index_is c n p w);
      [by apply hoare_get_vector_store | | done].
    intros ?.
    eapply hoare_bind; [apply hoare_count_value | | by intros e w [Hw _]].
    intros count. simpl. apply hoare_assume. intros ->.
    apply hoare_ret. intros w Hw. split; [done|]. reflexivity.
  - intros status w [Hw Hs]. split; [done|]. eauto.
  - intros e. apply hoare_assume. intros ?.
    eapply hoare_bind; [by apply hoare_logger_last | | ].
    + intros ?. apply hoare_ret. intros w (_ & Hw & Hlast).
      split; [done|]. eexists. split; [done|]. right.
      exists (str_exn e). by split.
    + by intros e' w [[=] _].
Qed.

Lemma get_vector_store_status_no_faults (E : Env) (w : World) :
  faults w = [] →
  ∃ status w',
    get_vector_store_status E w = (Ok status, w') ∧
    status !! "status" = Some (MStr "ok").
Proof.
  intros Hf. unfold get_vector_store_status, try_except, bind at 1.
  destruct (get_vector_store_no_faults E w Hf) as (w1 & -> & Hf1 & _).
  unfold bind at 1, Chroma.count, bind at 1.
  rewrite (external_no_faults _ _ Hf1). unfold ret.
  eexists _, _. split; [done|]. by simplify_map_eq.
Qed.

(** X21.  [get_vector_store_status] never raises and leaves the index as it is.
    The dictionary it returns is one of two.  Either it says [ok]: then it
    holds, besides, the number of entries of the index, the directory of
    the store and the name of the embedding model, and nothing else.  Or it
    says [error]: then it holds, besides, only the text of the failure, the
    same text the error record logged last ends with, and no count.  It
    says [ok] whenever the store can be reached. *)
Theorem get_vector_store_status_reports (E : Env) (w : World) :
  ∃ status w',
    get_vector_store_status E w = (Ok status, w') ∧
    collection w' = collection w ∧
    (status
     = <["status" := MStr "ok"]>
       (<["document_count" := MInt (Z.of_nat (length (collection w)))]>
       (<["persist_directory" := MStr "./data/chroma"]>
       (<["embedding_model" := MStr "all-MiniLM-L6-v2"]> ∅))) ∨
     ∃ error,
       status = <["status" := MStr "error"]> (<["error" := MStr error]> ∅) ∧
       last (log w')
       = Some {| levelname := ERROR;
                 message := "Error getting vector store status: "
                            +:+ error |}) ∧
    (faults w = [] → status !! "status" = Some (MStr "ok")).
Proof.
  destruct (hoare_get_vector_store_status E _ _ _ w (index_is_self w))
    as ((Hc & _) & status & Hr & Hstatus).
  destruct (get_vector_store_status E w) as [r w'] eqn:Hrun.
  simpl in *. subst r. exists status, w'.
  split; [done|]. split; [done|]. split; [done|].
  intros Hf.
  destruct (get_vector_store_status_no_faults E w Hf) as (s & w2 & Hrun2 & Hok).
  congruence.
Qed.

(** ** The crawl *)

(** One visit: it returns; the limits and the visited set are as before;
    either nothing else has changed, or the page was fetched and counted,
    and then it was kept, with its links queued one level deeper when the
    depth limit allows, unless its text could not be extracted. *)
Lemma scrape_spec (E : Env) (web : WebScraper.Web) (current_url : string)
  (current_depth : Z) (self : WebScraper.t) (w : World) :
  ∃ self' w',
    WebScraper.scrape E web current_url current_depth self w = (Ok self', w') ∧
    WebScraper.base_url self' = WebScraper.base_url self ∧
    WebScraper.max_pages self' = WebScraper.max_pages self ∧
    WebScraper.max_depth self' = WebScraper.max_depth self ∧
    WebScraper.visited_urls self' = WebScraper.visited_urls self ∧
    (self' = self ∨
     ∃ soup links,
       WebScraper.fetch web current_url = Ok (soup, links) ∧
       WebScraper.pages_scraped self' = WebScraper.pages_scraped self + 1 ∧
       ((WebScraper.content self' = WebScraper.content self ∧
         WebScraper.pages_queue self' = WebScraper.pages_queue self) ∨
        (∃ page,
           WebScraper.url page = current_url ∧
           WebScraper.content self' = WebScraper.content self ++ [page] ∧
           (WebScraper.pages_queue self' = WebScraper.pages_queue self ∨
            (current_depth < WebScraper.max_depth self ∧
             WebScraper.pages_queue self'
             = WebScraper.pages_queue self
               ++ ((fun link => (link, current_depth + 1))
                   <$> filter (fun link => link ∉ WebScraper.visited_urls self)
                         links)))))).
Proof.
  unfold WebScraper.scrape, WebScraper._scrape_page, try_except, bind at 1,
    bind at 1, lift.
  destruct (WebScraper.fetch web current_url) as [[soup links]|e] eqn:Hfetch.
  2:{ unfold bind, logger, ret. simpl. eexists _, _. split; [done|].
      repeat (split; [done|]). by left. }
  unfold ret at 1. cbn [fst snd]. unfold bind at 1, logger at 1.
  destruct (WebScraper.extract_text soup) as [text|e].
  - unfold ret. eexists _, _. split; [done|].
    destruct (current_depth <? WebScraper.max_depth _) eqn:Hdepth;
      (repeat (split; [done|])); right; exists soup, links;
      (split; [done|]); (split; [done|]); right; eexists;
      (split; [|split; [done|]]); try done.
    + right. split; [simpl in Hdepth; lia | done].
    + by left.
  - unfold bind, logger, ret. eexists _, _. split; [done|].
    repeat (split; [done|]). right. exists soup, links.
    split; [done|]. split; [done|]. by left.
Qed.

Lemma within_near_link (web : WebScraper.Web) (base via to : string)
  (depth : Z) (n : nat) (soup : WebScraper.Soup) (links : list string) :
  WebScraper.within web n base via →
  Z.of_nat n < depth →
  WebScraper.fetch web via = Ok (soup, links) →
  to ∈ links →
  Z.of_nat (S n) <= Z.max 0 depth ∧ WebScraper.within web (S n) base to.
Proof.
  intros Hvia Hn Hfetch Hto. split; [lia|].
  by eapply WebScraper.within_link.
Qed.

(** A visit of a URL that was queued keeps the invariant of the crawl. *)
Lemma scrape_inv (E : Env) (web : WebScraper.Web) (base : string)
  (limit depth : Z) (current_url : string) (n : nat)
  (self self' : WebScraper.t) (w w' : World) :
  WebScraper.crawl_inv web base limit depth self →
  WebScraper.pages_scraped self < limit →
  current_url ∉ WebScraper.visited_urls self →
  Z.of_nat n <= Z.max 0 depth →
  WebScraper.within web n base current_url →
  WebScraper.scrape E web current_url (Z.of_nat n)
    (WebScraper.with_visited_urls
       ({[current_url]} ∪ WebScraper.visited_urls self) self) w
  = (Ok self', w') →
  WebScraper.crawl_inv web base limit depth self'.
Proof.
  intros (Hb & Hl & Hd & Hlen & Hmax & Hnd & Hvis & Hnear & Hq)
    Hroom Hnew Hn Hreach Hrun.
  destruct (scrape_spec E web current_url (Z.of_nat n)
              (WebScraper.with_visited_urls
                 ({[current_url]} ∪ WebScraper.visited_urls self) self) w)
    as (s2 & w2 & Hrun2 & Hb2 & Hl2 & Hd2 & Hv2 & Hcases).
  rewrite Hrun in Hrun2. injection Hrun2 as <- <-.
  simpl in Hb2, Hl2, Hd2, Hv2.
  assert (∀ p, p ∈ WebScraper.content self →
            WebScraper.url p ∈ WebScraper.visited_urls self') as Hvis'.
  { intros p Hp. rewrite Hv2. apply elem_of_union. right. by apply Hvis. }
  destruct Hcases as [->|(soup & links & Hfetch & Hcount & Hkept)].
  { unfold WebScraper.crawl_inv. simpl. repeat (split; [done|]). done. }
  simpl in Hcount.
  destruct Hkept as [[Hc Hqueue]|(page & Hurl & Hc & Hqueue)];
    simpl in Hc, Hqueue.
  { unfold WebScraper.crawl_inv. rewrite Hb2, Hl2, Hd2, Hc, Hqueue, Hcount.
    repeat (split; [done || lia|]). done. }
  assert (NoDup (WebScraper.url <$> WebScraper.content self ++ [page])) as Hnd'.
  { rewrite fmap_app. apply NoDup_app. split; [done|]. split.
    - intros u Hu Hin. simpl in Hin. apply list_elem_of_singleton in Hin.
      subst u. apply list_elem_of_fmap in Hu as (p & Hp & Hin).
      apply Hnew. rewrite <- Hurl, Hp. by apply Hvis.
    - simpl. apply NoDup_singleton. }
  assert (∀ p, p ∈ WebScraper.content self ++ [page] →
            WebScraper.url p ∈ WebScraper.visited_urls self') as Hvis''.
  { intros p Hp. apply elem_of_app in Hp as [Hp|Hp]; [by apply Hvis'|].
    apply list_elem_of_singleton in Hp. subst p. rewrite Hv2, Hurl.
    apply elem_of_union. left. by apply elem_of_singleton. }
  assert (∀ p, p ∈ WebScraper.content self ++ [page] →
            WebScraper.near web base depth (WebScraper.url p)) as Hnear'.
  { intros p Hp. apply elem_of_app in Hp as [Hp|Hp]; [by apply Hnear|].
    apply list_elem_of_singleton in Hp. subst p. rewrite Hurl. by exists n. }
  assert (Z.of_nat (length (WebScraper.content self ++ [page]))
          <= WebScraper.pages_scraped self + 1) as Hlen'
    by (rewrite length_app; simpl; lia).
  unfold WebScraper.crawl_inv. rewrite Hb2, Hl2, Hd2, Hc, Hcount.
  repeat (split; [done || lia|]).
  destruct Hqueue as [->|[Hdeep ->]]; [done|].
  intros link d Hin. apply elem_of_app in Hin as [Hin|Hin]; [by apply Hq|].
  apply list_elem_of_fmap in Hin as (l & [= -> ->] & Hlink).
  apply list_elem_of_filter in Hlink as [_ Hlink].
  destruct (within_near_link web base current_url l depth n soup links)
    as [Hle Hw]; [done | lia | done | done |].
  exists (S n). split; [lia|]. split; [lia|done].
Qed.

(** The crawl keeps its invariant, whatever the fuel. *)
Lemma crawl_keeps_inv (E : Env) (web : WebScraper.Web) (base : string)
  (limit depth : Z) (fuel : nat) :
  ∀ self w self' w',
    WebScraper.crawl_inv web base limit depth self →
    WebScraper.crawl fuel E web self w = (Ok (Some self'), w') →
    WebScraper.crawl_inv web base limit depth self'.
Proof.
  assert (∀ self w self' w',
            WebScraper.crawl_inv web base limit depth self →
            @ret (option WebScraper.t) (Some self) w = (Ok (Some self'), w') →
            WebScraper.crawl_inv web base limit depth self') as Hstop.
  { intros self w self' w' Hinv [= <- <-]. done. }
  induction fuel as [|fuel IH]; intros self w self' w' Hinv;
    cbn [WebScraper.crawl];
    destruct (WebScraper.pages_queue self) as [|[current_url current_depth] rest]
      eqn:Hqueue; [by apply Hstop| |by apply Hstop|];
    (destruct (WebScraper.pages_scraped self <? WebScraper.max_pages self)
       eqn:Hroom; [|by apply Hstop]).
  { intros [=]. }
  assert (WebScraper.crawl_inv web base limit depth
            (WebScraper.with_pages_queue rest self)) as Hpopped.
  { destruct Hinv as (Hb & Hl & Hd & Hlen & Hmax & Hnd & Hvis & Hnear & Hq).
    unfold WebScraper.crawl_inv. simpl. repeat (split; [done|]).
    intros link d Hin. apply Hq. rewrite Hqueue. apply elem_of_cons. by right. }
  cbn [WebScraper.visited_urls WebScraper.with_pages_queue].
  destruct (decide (current_url ∈ WebScraper.visited_urls self)) as [Hseen|Hnew].
  { by apply IH. }
  destruct Hinv as (Hb & Hl & Hd & Hlen & Hmax & Hnd & Hvis & Hnear & Hq).
  destruct (Hq current_url current_depth) as (n & -> & Hn & Hreach).
  { rewrite Hqueue. apply elem_of_cons. by left. }
  unfold bind.
  destruct (scrape_spec E web current_url (Z.of_nat n)
              (WebScraper.with_visited_urls
                 ({[current_url]} ∪ WebScraper.visited_urls self)
                 (WebScraper.with_pages_queue rest self)) w)
    as (s2 & w2 & Hrun2 & _).
  rewrite Hrun2. apply IH.
  eapply (scrape_inv E web base limit depth current_url n
            (WebScraper.with_pages_queue rest self)); try done.
  simpl. lia.
Qed.

(** The loop of the crawl ends: some number of iterations suffices, and
    then so does every larger one.  A visit either counts a page, which
    can happen only while the counter is below the limit, or leaves the
    queue one entry shorter. *)
Lemma crawl_terminates_aux (E : Env) (web : WebScraper.Web) :
  ∀ (n : nat) (q : list (string * Z)) (self : WebScraper.t) (w : World),
    (Z.to_nat (WebScraper.max_pages self - WebScraper.pages_scraped self)
     ≤ n)%nat →
    WebScraper.pages_queue self = q →
    ∃ fuel, ∀ fuel', (fuel ≤ fuel')%nat →
      ∃ self' w',
        WebScraper.crawl fuel' E web self w = (Ok (Some self'), w').
Proof.
  assert (∀ self w,
            WebScraper.pages_queue self = [] ∨
            (WebScraper.pages_scraped self <? WebScraper.max_pages self)
            = false →
            ∃ fuel, ∀ fuel', (fuel ≤ fuel')%nat →
              ∃ self' w',
                WebScraper.crawl fuel' E web self w = (Ok (Some self'), w'))
    as Hstop.
  { intros self w Hdone. exists 0%nat. intros fuel' _.
    exists self, w. destruct fuel'; cbn [WebScraper.crawl];
      destruct (WebScraper.pages_queue self) as [|[u d] rest]; try done;
      destruct Hdone as [[=] | ->]; done. }
  induction n as [|n IHn]; induction q as [|[u d] rest IHq];
    intros self w Hn Hq; try (apply Hstop; by left).
  { apply Hstop. right. lia. }
  destruct (WebScraper.pages_scraped self <? WebScraper.max_pages self)
    eqn:Hroom; [|apply Hstop; by right].
  destruct (decide (u ∈ WebScraper.visited_urls self)) as [Hseen|Hnew].
  - destruct (IHq (WebScraper.with_pages_queue rest self) w)
      as (fuel & Hfuel); [done | done |].
    exists (S fuel). intros fuel' Hle.
    destruct fuel' as [|fuel']; [lia|].
    cbn [WebScraper.crawl]. rewrite Hq, Hroom.
    cbn [WebScraper.visited_urls WebScraper.with_pages_queue].
    rewrite decide_True by done. apply Hfuel. lia.
  - destruct (scrape_spec E web u d
                (WebScraper.with_visited_urls
                   ({[u]} ∪ WebScraper.visited_urls self)
                   (WebScraper.with_pages_queue rest self)) w)
      as (s2 & w2 & Hrun2 & _ & Hl2 & _ & _ & Hcases).
    assert (∃ fuel, ∀ fuel', (fuel ≤ fuel')%nat →
              ∃ self' w',
                WebScraper.crawl fuel' E web s2 w2 = (Ok (Some self'), w'))
      as (fuel & Hfuel).
    { destruct Hcases as [->|(soup & links & _ & Hcount & _)].
      - by apply IHq.
      - apply (IHn (WebScraper.pages_queue s2)); [|done].
        rewrite Hl2, Hcount. simpl. lia. }
    exists (S fuel). intros fuel' Hle.
    destruct fuel' as [|fuel']; [lia|].
    cbn [WebScraper.crawl]. rewrite Hq, Hroom.
    cbn [WebScraper.visited_urls WebScraper.with_pages_queue].
    rewrite decide_False by done. unfold bind. rewrite Hrun2.
    apply Hfuel. lia.
Qed.

Lemma crawl_inv_init (web : WebScraper.Web) (base : string) (limit depth : Z) :
  WebScraper.crawl_inv web base limit depth
    (WebScraper.with_pages_queue
       (WebScraper.pages_queue (WebScraper.__init__ base limit depth)
        ++ [(base, 0)])
       (WebScraper.__init__ base limit depth)).
Proof.
  unfold WebScraper.crawl_inv. simpl.
  repeat (split; [done || lia || apply NoDup_nil_2|]).
  split; [intros p Hp; by apply elem_of_nil in Hp|].
  split; [intros p Hp; by apply elem_of_nil in Hp|].
  intros link d Hin. apply list_elem_of_singleton in Hin as [= -> ->].
  exists 0%nat. split; [done|]. split; [lia|]. apply WebScraper.within_base.
Qed.

Lemma start_scraping_crawl (fuel : nat) (E : Env) (web : WebScraper.Web)
  (self self' : WebScraper.t) (w w' : World) :
  WebScraper.start_scraping fuel E web self w = (Ok (Some self'), w') →
  ∃ w1 w2,
    WebScraper.crawl fuel E web
      (WebScraper.with_pages_queue
         (WebScraper.pages_queue self ++ [(WebScraper.base_url self, 0)]) self)
      w1
    = (Ok (Some self'), w2).
Proof.
  unfold WebScraper.start_scraping, bind at 1, logger at 1, bind at 1.
  destruct (WebScraper.crawl fuel E web _ _) as [[[s|]|e] w2] eqn:Hcrawl;
    [|done|done].
  unfold bind, logger, ret. intros [= <- _]. eauto.
Qed.

Lemma start_scraping_run (fuel : nat) (E : Env) (web : WebScraper.Web)
  (self self' : WebScraper.t) (w w2 : World) :
  WebScraper.crawl fuel E web
    (WebScraper.with_pages_queue
       (WebScraper.pages_queue self ++ [(WebScraper.base_url self, 0)]) self)
    (with_log
       (log w ++ [{| levelname := INFO;
                     message := "Starting to scrape website: "
                                +:+ WebScraper.base_url self |}]) w)
  = (Ok (Some self'), w2) →
  ∃ w', WebScraper.start_scraping fuel E web self w = (Ok (Some self'), w').
Proof.
  intros Hcrawl. unfold WebScraper.start_scraping.
  unfold bind at 1. unfold logger at 1. cbn beta iota.
  unfold bind at 1. rewrite Hcrawl. unfold bind, logger, ret. eauto.
Qed.

(** X22.  The crawl of [start_scraping] ends, and within its limits: from a new
    scraper it returns after finitely many iterations of its loop; the
    counter [pages_scraped] is then at most [max_pages] (and 0 when that
    is negative) and at least the number of pages kept, one page being
    counted without being kept whenever its text could not be extracted;
    the pages kept have distinct URLs, each marked as visited. *)
Theorem start_scraping_within_limits (E : Env) (web : WebScraper.Web)
  (base : string) (limit depth : Z) (w : World) :
  ∃ fuel, ∀ fuel', (fuel ≤ fuel')%nat →
    ∃ self' w',
      WebScraper.start_scraping fuel' E web
        (WebScraper.__init__ base limit depth) w
      = (Ok (Some self'), w') ∧
      Z.of_nat (length (WebScraper.content self'))
      <= WebScraper.pages_scraped self' ∧
      WebScraper.pages_scraped self' <= Z.max 0 limit ∧
      NoDup (WebScraper.url <$> WebScraper.content self') ∧
      ∀ p, p ∈ WebScraper.content self' →
        WebScraper.url p ∈ WebScraper.visited_urls self'.
Proof.
  set (start := WebScraper.with_pages_queue
                  (WebScraper.pages_queue (WebScraper.__init__ base limit depth)
                   ++ [(base, 0)])
                  (WebScraper.__init__ base limit depth)).
  set (w1 := with_log
               (log w ++ [{| levelname := INFO;
                             message := "Starting to scrape website: "
                                        +:+ base |}]) w).
  destruct (crawl_terminates_aux E web _ _ start w1 (Nat.le_refl _) eq_refl)
    as (fuel & Hfuel).
  exists fuel. intros fuel' Hle.
  destruct (Hfuel fuel' Hle) as (self' & w2 & Hcrawl).
  pose proof (crawl_keeps_inv E web base limit depth fuel' start w1 self' w2
                (crawl_inv_init web base limit depth) Hcrawl)
    as (_ & _ & _ & Hlen & Hmax & Hnd & Hvis & _).
  destruct (start_scraping_run fuel' E web
              (WebScraper.__init__ base limit depth) self' w w2 Hcrawl)
    as (w' & Hrun).
  by exists self', w'.
Qed.

Lemma within_zero (web : WebScraper.Web) (base to : string) :
  WebScraper.within web 0 base to → to = base.
Proof. by inversion 1. Qed.

(** X23.  The crawl stays within [max_depth] links of the base URL: every page
    kept was reached from the base URL by following at most [max_depth]
    links, each found on a page that was fetched; with a depth limit of 0
    or less only the base URL itself can be kept. *)
Theorem start_scraping_within_depth (fuel : nat) (E : Env)
  (web : WebScraper.Web) (base : string) (limit depth : Z)
  (self' : WebScraper.t) (w w' : World) :
  WebScraper.start_scraping fuel E web (WebScraper.__init__ base limit depth) w
  = (Ok (Some self'), w') →
  ∀ p, p ∈ WebScraper.content self' →
    (∃ n, Z.of_nat n <= Z.max 0 depth ∧
          WebScraper.within web n base (WebScraper.url p)) ∧
    (depth <= 0 → WebScraper.url p = base).
Proof.
  intros Hrun p Hp.
  apply start_scraping_crawl in Hrun as (w1 & w2 & Hcrawl).
  pose proof (crawl_keeps_inv E web base limit depth fuel _ w1 self' w2
                (crawl_inv_init web base limit depth) Hcrawl)
    as (_ & _ & _ & _ & _ & _ & _ & Hnear & _).
  destruct (Hnear p Hp) as (n & Hn & Hreach).
  split; [by exists n|].
  intros Hdepth. assert (n = 0%nat) as -> by lia. by apply (within_zero web).
Qed.

(** ** The properties at sample inputs, continued *)

Lemma add_documents_all_or_nothing_witness :
  [Sample.chunk_of (Some 2) "Beta."] ≠ [] ∧
  (add_documents_to_vectorstore Sample.E [Sample.chunk_of (Some 2) "Beta."]
     Sample.two_owners).1 = Ok PyNone.
Proof.
  split; [done|].
  destruct (add_documents_all_or_nothing Sample.E
              [Sample.chunk_of (Some 2) "Beta."] Sample.two_owners
              ltac:(done) _ _ (surjective_pairing _)) as [_ Hok].
  apply Hok. reflexivity.
Defined.

Lemma get_vector_store_handle_witness :
  _vector_store (get_vector_store Sample.E Sample.empty_world).2 = true.
Proof.
  assert (get_vector_store Sample.E Sample.empty_world
          = (Ok tt, (get_vector_store Sample.E Sample.empty_world).2)) as Hrun
    by (vm_compute; reflexivity).
  exact (proj2 (get_vector_store_handle Sample.E Sample.empty_world _ _ Hrun)).
Defined.

Lemma query_documents_reads_only_witness :
  collection
    (query_documents Sample.E "invoice" 3 None Sample.two_owners).2
  = collection Sample.two_owners ∧
  ∃ answer,
    (query_documents Sample.E "invoice" 3 None Sample.two_owners).1
    = Ok (answer, to_source <$> [Sample.invoice_A; Sample.invoice_B]).
Proof.
  split.
  - exact (proj1 (query_documents_reads_only Sample.E "invoice" 3 None
                    Sample.two_owners _ _ (surjective_pairing _))).
  - eexists. vm_compute. reflexivity.
Defined.

Lemma deleted_document_not_retrieved_witness :
  "d1" ≠ "" ∧ wf_index Sample.two_owners ∧
  ∃ docs,
    (query_vectorstore Sample.E "invoice" 3 None
       (delete_document_from_vectorstore Sample.E "d1" Sample.two_owners).2).1
    = Ok docs ∧
    ∀ d, d ∈ docs → metadata d !! "document_id" ≠ Some (MStr "d1").
Proof.
  split; [done|]. split; [exact wf_index_two_owners|].
  exists [Sample.invoice_B]. split; [vm_compute; reflexivity|].
  apply (deleted_document_not_retrieved Sample.E "d1" Sample.two_owners
           (delete_document_from_vectorstore Sample.E "d1" Sample.two_owners).2
           ltac:(done) wf_index_two_owners
           ltac:(vm_compute; reflexivity)
           "invoice" 3 None [Sample.invoice_B]
           (query_vectorstore Sample.E "invoice" 3 None
              (delete_document_from_vectorstore Sample.E "d1"
                 Sample.two_owners).2).2).
  vm_compute. reflexivity.
Defined.

Lemma query_documents_without_api_key_witness :
  truthy_opt (OPENAI_API_KEY Fixture.no_key) = false ∧
  llm_prompts
    (query_documents Fixture.no_key "invoice" 3 (Some "A") Sample.two_owners).2
  = llm_prompts Sample.two_owners.
Proof.
  split; [reflexivity|].
  exact (proj1 (query_documents_without_api_key Fixture.no_key "invoice" 3
                  (Some "A") Sample.two_owners eq_refl _ _
                  (surjective_pairing _))).
Defined.

Lemma query_documents_answer_witness :
  ∃ w',
    query_documents Sample.E "invoice" 3 (Some "A") Sample.two_owners
    = (Ok (generate Sample.E
             (format_prompt (format_documents [Sample.invoice_A]) "invoice"
                (today Sample.E)),
           to_source <$> [Sample.invoice_A]), w') ∧
    llm_prompts w'
    = llm_prompts Sample.two_owners
      ++ [format_prompt (format_documents [Sample.invoice_A]) "invoice"
            (today Sample.E)].
Proof.
  apply (query_documents_answer Sample.E "invoice" 3 (Some "A")
           Sample.two_owners).
  - reflexivity.
  - split; reflexivity.
  - lia.
  - reflexivity.
  - vm_compute. discriminate.
Defined.

Lemma query_documents_blank_query_witness :
  query_documents Sample.E "   " 3 (Some "A") Sample.two_owners
  = (Ok ("No relevant documents found to answer your question.", []),
     with_log
       (log Sample.two_owners
        ++ [{| levelname := WARNING;
               message := "Empty query provided to vector store" |}])
       Sample.two_owners).
Proof.
  apply (query_documents_blank_query Sample.E "   " 3 (Some "A")
           Sample.two_owners).
  reflexivity.
Defined.

Lemma sample_units_chunks :
  create_chunks_with_metadata Sample.E Sample.units "d1" "a.pdf" "A"
  = Ok [Sample.chunk_of (Some 2) "Beta."; Sample.chunk_of None "plain text"].
Proof. vm_compute. reflexivity. Qed.

Lemma create_chunks_metadata_shape_witness :
  (∀ c, c ∈ [Sample.chunk_of (Some 2) "Beta.";
             Sample.chunk_of None "plain text"] →
     chunk_metadata c !! "text" = Some (MStr (text c))) ∧
  ∃ by_unit,
    [Sample.chunk_of (Some 2) "Beta."; Sample.chunk_of None "plain text"]
    = concat by_unit ∧
    Forall2
      (fun unit made =>
         TextSplitter.split_text CHUNK_SIZE CHUNK_OVERLAP unit.2
         = Ok (text <$> made) ∧
         ∀ c, c ∈ made →
           chunk_metadata c !! "source"
           = Some (MStr (match unit.1 with
                         | Some n =>
                             "a.pdf" +:+ " (page " +:+ Py.str_int n +:+ ")"
                         | None => "a.pdf"
                         end)) ∧
           chunk_metadata c !! "page"
           = Some (MStr (match unit.1 with
                         | Some n => Py.str_int n
                         | None => "0"
                         end)))
      Sample.units by_unit.
Proof.
  destruct (create_chunks_metadata_shape Sample.E Sample.units "d1" "a.pdf"
              "A" _ sample_units_chunks) as [Hshape Hunits].
  split; [|exact Hunits].
  intros c Hin. by destruct (Hshape c Hin) as (_ & _ & Htext & _).
Defined.

Lemma sample_pdf_chunks :
  process_pdf Sample.E "d1_a.pdf" "d1" "a.pdf" "A" Sample.empty_world
  = (Ok Fixture.pdf_chunks, Sample.empty_world).
Proof. vm_compute. reflexivity. Qed.

Lemma process_pdf_page_numbers_witness :
  ∃ pages j page_text,
    PdfReader Sample.E "d1_a.pdf" = Ok pages ∧
    pages !! j = Some (Ok page_text) ∧
    Py.truthy_str (Py.strip page_text) = true ∧
    chunk_metadata (Sample.chunk_of (Some 2) "Beta.") !! "page"
    = Some (MStr (Py.str_int (Z.of_nat j + 1))) ∧
    chunk_metadata (Sample.chunk_of (Some 2) "Beta.") !! "source"
    = Some (MStr ("a.pdf" +:+ " (page " +:+ Py.str_int (Z.of_nat j + 1)
                  +:+ ")")).
Proof.
  apply (process_pdf_page_numbers Sample.E "d1_a.pdf" "d1" "a.pdf" "A"
           Sample.empty_world Sample.empty_world Fixture.pdf_chunks
           sample_pdf_chunks).
  apply elem_of_cons. right. apply elem_of_cons. by left.
Defined.

Lemma process_pdf_unreadable_page_witness :
  ∃ e',
    process_pdf Fixture.torn "d1_a.pdf" "d1" "a.pdf" "A" Sample.empty_world
    = (Ok [],
       with_log
         (log Sample.empty_world
          ++ [{| levelname := ERROR;
                 message := "Error processing PDF " +:+ "d1_a.pdf" +:+ ": "
                            +:+ str_exn e' |}])
         Sample.empty_world).
Proof.
  apply (process_pdf_unreadable_page Fixture.torn "d1_a.pdf" "d1" "a.pdf" "A"
           Sample.empty_world
           [Ok "Alpha."; Raise (ExternalError "extract_text")] 1
           (ExternalError "extract_text")); reflexivity.
Defined.

Lemma process_document_unsupported_witness :
  process_document Sample.E "d9_scan.PDF" "d9" "scan.PDF" "A" Sample.two_owners
  = (Ok tt,
     with_log
       (log Sample.two_owners ++
        [ {| levelname := INFO;
             message := "Processing document: " +:+ "scan.PDF" +:+ " (ID: "
                        +:+ "d9" +:+ ") for user: " +:+ "A" |};
          {| levelname := ERROR;
             message := "Unsupported file type: " +:+ "d9_scan.PDF" |} ])
       Sample.two_owners).
Proof.
  apply (process_document_unsupported Sample.E "d9_scan.PDF" "d9" "scan.PDF"
           "A" Sample.two_owners); reflexivity.
Defined.

Lemma ingest_invisible_to_other_owner_witness :
  "A" ≠ "" ∧ "A" ≠ "B" ∧
  ∃ docs,
    (query_vectorstore Sample.E "invoice" 3 (Some "A")
       (process_document Sample.E "d3_c.pdf" "d3" "c.pdf" "B"
          Sample.two_owners).2).1
    = Ok docs ∧
    ∀ d, d ∈ docs →
      d ∈ entry_document <$> collection Sample.two_owners ∧ owned_by "A" d.
Proof.
  split; [done|]. split; [done|].
  exists [Sample.invoice_A]. split; [vm_compute; reflexivity|].
  apply (ingest_invisible_to_other_owner Sample.E "d3_c.pdf" "d3" "c.pdf" "B"
           "invoice" 3 "A" Sample.two_owners ltac:(done) ltac:(done)
           [Sample.invoice_A]
           (query_vectorstore Sample.E "invoice" 3 (Some "A")
              (process_document Sample.E "d3_c.pdf" "d3" "c.pdf" "B"
                 Sample.two_owners).2).2).
  vm_compute. reflexivity.
Defined.

Lemma two_owners_without_d3 :
  ∀ e, e ∈ collection Sample.two_owners → ¬ about_document "d3" e.
Proof.
  intros e He. simpl in He.
  repeat (apply elem_of_cons in He as [->|He]; [by vm_compute|]).
  by apply elem_of_nil in He.
Qed.

Lemma ingest_then_delete_restores_witness :
  "d3" ≠ "" ∧ wf_index Sample.two_owners ∧
  collection
    (delete_document_from_vectorstore Sample.E "d3"
       (process_document Sample.E "d3_c.pdf" "d3" "c.pdf" "B"
          Sample.two_owners).2).2
  = collection Sample.two_owners.
Proof.
  split; [done|]. split; [exact wf_index_two_owners|].
  apply (ingest_then_delete_restores Sample.E "d3_c.pdf" "d3" "c.pdf" "B"
           Sample.two_owners _ ltac:(done) wf_index_two_owners
           two_owners_without_d3).
  vm_compute. reflexivity.
Defined.

Lemma delete_document_outcome_witness :
  wf_index Sample.two_owners ∧
  ∃ value files' w',
    delete_document Sample.E "d1" "B" Fixture.files Sample.two_owners
    = (Ok (value, files'), w') ∧
    if value
    then
      (∃ name, first_match "d1" Fixture.files = Some name ∧
               files' = filter (fun f => file_name f ≠ name) Fixture.files) ∧
      (collection w' = collection Sample.two_owners ∨
       collection w'
       = filter (fun e => ¬ about_document "d1" e)
           (collection Sample.two_owners))
    else files' = Fixture.files ∧ collection w' = collection Sample.two_owners.
Proof.
  split; [exact wf_index_two_owners|].
  apply (delete_document_outcome Sample.E "d1" "B" Fixture.files
           Sample.two_owners wf_index_two_owners).
Defined.

Lemma delete_document_succeeds_witness :
  ∃ w',
    delete_document Sample.E "d1" "B" Fixture.files Sample.two_owners
    = (Ok (true, filter (fun f => file_name f ≠ "d1_a.pdf") Fixture.files), w')
    ∧ collection w'
      = filter (fun e => ¬ about_document "d1" e)
          (collection Sample.two_owners).
Proof.
  apply (delete_document_succeeds Sample.E "d1" "B" Fixture.files "d1_a.pdf"
           Sample.two_owners).
  - reflexivity.
  - exact wf_index_two_owners.
  - done.
  - reflexivity.
Defined.

Lemma list_documents_describes_files_witness :
  collection (list_documents Fixture.utc "A" Fixture.files Sample.two_owners).2
  = collection Sample.two_owners.
Proof.
  exact (proj1 (list_documents_describes_files Fixture.utc "A" Fixture.files
                  Sample.two_owners _ _ (surjective_pairing _))).
Defined.

Lemma NoDup_fixture_files : NoDup (file_name <$> Fixture.files).
Proof.
  simpl. repeat (apply NoDup_cons; split;
    [intros Hin; repeat (apply elem_of_cons in Hin as [[=]|Hin]);
     by apply elem_of_nil in Hin|]).
  apply NoDup_nil_2.
Qed.

Lemma list_documents_finds_stored_witness :
  ∃ listed w',
    list_documents Fixture.utc "B" Fixture.files Sample.two_owners
    = (Ok listed, w') ∧
    response_of "d1" "a.pdf" Fixture.a_pdf ∈ listed.
Proof.
  apply (list_documents_finds_stored Fixture.utc "B" "d1" "a.pdf" Fixture.files
           Fixture.a_pdf Sample.two_owners).
  - reflexivity.
  - exact NoDup_fixture_files.
  - apply elem_of_cons. right. apply elem_of_cons. by left.
  - reflexivity.
  - reflexivity.
  - reflexivity.
  - reflexivity.
Defined.

(** The listing of the sample directory: the file without an underscore is
    skipped, the others are listed in the order of the directory, whoever
    asks. *)
Example list_documents_sample :
  (list_documents Fixture.utc "B" Fixture.files Sample.two_owners).1
  = Ok [ response_of "d1" "a.pdf" Fixture.a_pdf;
         {| response_id := "d2"; response_filename := "b.txt";
            response_content_type := "text/plain"; response_size := 48;
            response_created_at := Some 1714557700 |};
         {| response_id := "d1"; response_filename := "copy.pdf";
            response_content_type := "application/pdf"; response_size := 120;
            response_created_at := Some 1714557800 |} ].
Proof. vm_compute. reflexivity. Qed.

(** A file whose modification time does not convert to a date is left out
    of the listing, and an error is logged for it. *)
Example list_documents_far_file :
  (list_documents Fixture.utc "B" [Fixture.far_file] Sample.two_owners).1
  = Ok [] ∧
  levelname
  <$> log (list_documents Fixture.utc "B" [Fixture.far_file]
             Sample.two_owners).2
  = [ERROR].
Proof. vm_compute. done. Qed.

(** The file of a document is removed and [True] is returned although the
    vector store cannot be reached: the entries of the document stay in the
    index. *)
Example delete_document_store_down :
  let r := delete_document Sample.E "d1" "A" Fixture.files Fixture.store_down in
  r.1 = Ok (true, filter (fun f => file_name f ≠ "d1_a.pdf") Fixture.files) ∧
  collection r.2 = collection Sample.two_owners ∧
  levelname <$> last (log r.2) = Some ERROR.
Proof. vm_compute. done. Qed.

Example get_vector_store_status_sample :
  (get_vector_store_status Sample.E Sample.two_owners).1
  = Ok (<["status" := MStr "ok"]>
        (<["document_count" := MInt 2]>
        (<["persist_directory" := MStr "./data/chroma"]>
        (<["embedding_model" := MStr "all-MiniLM-L6-v2"]> ∅)))).
Proof. vm_compute. reflexivity. Qed.

Lemma sample_txt_chunks :
  process_txt Sample.E "d2_b.txt" "d2" "b.txt" "B" Sample.empty_world
  = (Ok [Fixture.txt_chunk], Sample.empty_world).
Proof. vm_compute. reflexivity. Qed.

Lemma unpaged_chunks_cited_as_page_zero_witness :
  citation (to_document Fixture.txt_chunk) = "b.txt" +:+ " (Page 0)" ∧
  source_page (to_source (to_document Fixture.txt_chunk)) = Some (MStr "0").
Proof.
  apply (unpaged_chunks_cited_as_page_zero Sample.E "d2_b.txt" "d2" "b.txt" "B"
           Sample.empty_world Sample.empty_world [Fixture.txt_chunk]
           (or_intror sample_txt_chunks)).
  apply elem_of_cons. by left.
Defined.

Lemma start_scraping_within_depth_witness :
  ∃ self' w',
    WebScraper.start_scraping 10 Sample.E Fixture.site
      (WebScraper.__init__ Fixture.home 50 1) Sample.empty_world
    = (Ok (Some self'), w') ∧
    WebScraper.url <$> WebScraper.content self'
    = [Fixture.home; "https://a.example/x"] ∧
    ∀ p, p ∈ WebScraper.content self' →
      (∃ n, Z.of_nat n <= Z.max 0 1 ∧
            WebScraper.within Fixture.site n Fixture.home (WebScraper.url p)) ∧
      (1 <= 0 → WebScraper.url p = Fixture.home).
Proof.
  eexists _, _. split; [vm_compute; reflexivity|].
  split; [vm_compute; reflexivity|].
  eapply (start_scraping_within_depth 10 Sample.E Fixture.site Fixture.home
            50 1 _ Sample.empty_world).
  vm_compute. reflexivity.
Defined.

(** The crawl of the sample site to depth 2: the page whose text cannot be
    extracted is counted and not kept, the page that cannot be fetched is
    neither, and the link back home is not followed. *)
Example start_scraping_sample :
  ∃ self' w',
    WebScraper.start_scraping 10 Sample.E Fixture.site
      (WebScraper.__init__ Fixture.home 50 2) Sample.empty_world
    = (Ok (Some self'), w') ∧
    WebScraper.pages_scraped self' = 3 ∧
    WebScraper.url <$> WebScraper.content self'
    = [Fixture.home; "https://a.example/x"] ∧
    WebScraper.title <$> WebScraper.content self'
    = [Some "Home"; Some "No title"].
Proof.
  eexists _, _. split; [vm_compute; reflexivity|]. vm_compute. done.
Qed.
